(** * Accessible outputs of the sketch canvas (src/accessibility/outputs.js)

    A shallow embedding of the shape description builder: the helpers
    [_getMiddle], [_getPos], [_canvasLocator] and [_getArea], and the
    methods [_updateAccsOutput], [_accsBackground], [_accsCanvasColors]
    and [_accsOutput] of the sketch instance.

    JavaScript numbers are IEEE 754 binary64 values; they are modelled by
    Rocq's primitive floats, whose operations are the same roundings, so
    [0.4 * canvasWidth] below is the product the engine computes. *)

From Stdlib Require Import ZArith Bool List String Floats Lia.
Import ListNotations.

Set Warnings "-inexact-float".

Local Open Scope string_scope.
Local Open Scope list_scope.

(** ** Numbers: the [Math] functions the module calls *)

Module Num.

Local Open Scope float_scope.

(** The float that holds the integer [z] (exact for [|z| < 2^53], which is
    all the callers below produce). *)
Definition of_Z (z : Z) : float :=
  SF2Prim (binary_normalize prec emax z 0 false).

(** A zero that keeps the sign of the number it was computed from. *)
Definition signed_zero (s : bool) : float := if s then neg_zero else zero.

(** [Math.floor]: NaN, the infinities, the zeros and the integers are
    returned as they are; otherwise the greatest integer below. *)
Definition Math_floor (x : float) : float :=
  match Prim2SF x with
  | S754_finite s m e =>
      if (0 <=? e)%Z then x
      else
        let z := if s then Z.neg m else Z.pos m in
        let q := (z / 2 ^ (- e))%Z in
        if (q =? 0)%Z then zero else of_Z q
  | _ => x
  end.

(** [Math.round]: the nearest integer, a tie going towards +infinity; a
    result of zero keeps the sign of [x]. *)
Definition Math_round (x : float) : float :=
  match Prim2SF x with
  | S754_finite s m e =>
      if (0 <=? e)%Z then x
      else
        let z := if s then Z.neg m else Z.pos m in
        let d := (2 ^ (- e))%Z in
        let q := ((2 * z + d) / (2 * d))%Z in
        if (q =? 0)%Z then signed_zero s else of_Z q
  | _ => x
  end.

Definition Math_abs (x : float) : float := abs x.

(** [Math.PI], the float nearest to pi. *)
Definition Math_PI : float := 0x1.921fb54442d18p+1.

(** The remainder operator [x % y] on numbers: the exact remainder of the
    truncated division, with the sign of the dividend. *)
Definition rem (x y : float) : float :=
  match Prim2SF x, Prim2SF y with
  | S754_nan, _ | _, S754_nan => nan
  | S754_infinity _, _ => nan
  | _, S754_zero _ => nan
  | S754_zero _, _ => x
  | S754_finite _ _ _, S754_infinity _ => x
  | S754_finite sx mx ex, S754_finite _ my ey =>
      let e := Z.min ex ey in
      let r := ((Z.pos mx * 2 ^ (ex - e)) mod (Z.pos my * 2 ^ (ey - e)))%Z in
      if (r =? 0)%Z then signed_zero sx
      else SF2Prim (binary_normalize prec emax (if sx then (- r)%Z else r) e false)
  end.

(** [x.toFixed(2)] read back as a number, which is what
    [a * x.toFixed(2)] does with the string: [x] rounded to two decimals
    (a tie away from zero), then the float nearest to that decimal.
    Numbers of magnitude [1e21] and above, the infinities and NaN print in
    full and read back unchanged. *)
Definition toFixed2 (x : float) : float :=
  match Prim2SF x with
  | S754_finite s m e =>
      if (1e21 <=? abs x) then x
      else
        let n := (if (0 <=? e)%Z then 100 * Z.pos m * 2 ^ e
                  else (2 * 100 * Z.pos m + 2 ^ (- e)) / (2 * 2 ^ (- e)))%Z in
        match n with
        | Z.pos p =>
            SF2Prim (SFdiv prec emax (S754_finite s p 0) (S754_finite false 100 0))
        | _ => signed_zero s
        end
  | S754_zero _ => zero
  | _ => x
  end.

End Num.

(** ** Draw arguments

    [args] is the array a drawing function hands over: numbers, and for an
    arc its mode string in slot 6.  Reading past the end gives
    [undefined]. *)

Inductive jsval : Type :=
  | JUndef
  | JNum (x : float)
  | JStr (s : string).

(** [args[i]] *)
Definition get (args : list jsval) (i : nat) : jsval := nth i args JUndef.

(** The number an arithmetic operator or a comparison reads from a slot:
    [undefined] is NaN.  The slots read as numbers hold numbers in every
    call of the drawing functions; a string there is read as NaN. *)
Definition num (v : jsval) : float :=
  match v with
  | JNum x => x
  | _ => nan
  end.

(** [v === w] *)
Definition strict_eq (v w : jsval) : bool :=
  match v, w with
  | JUndef, JUndef => true
  | JNum x, JNum y => (x =? y)%float
  | JStr s, JStr t => String.eqb s t
  | _, _ => false
  end.

(** The names [f] ranges over: the seven the drawing functions pass and the
    two that [_accsOutput] reclassifies to. *)
Inductive kind : Type :=
  | point | line | circle | square | ellipse | rectangle
  | triangle | quadrilateral | arc.

Definition kind_eq_dec (a b : kind) : {a = b} + {a <> b}.
Proof. decide equality. Defined.

Definition kind_eqb (a b : kind) : bool :=
  if kind_eq_dec a b then true else false.

(** ** The helpers of outputs.js *)

Section Helpers.

Local Open Scope float_scope.
Import Num.

(** [_getMiddle(f, args)]: middle point / centroid of the shape.  The pair
    holds the two coordinates as the numbers [_getPos] and [_canvasLocator]
    read from it: for a point the code hands on [args[0]] and [args[1]] as
    they are, and a missing one is read as NaN where it is used. *)
Definition _getMiddle (f : kind) (args : list jsval) : float * float :=
  let a i := num (get args i) in
  match f with
  | rectangle | ellipse | arc | circle | square =>
      (Math_round (a 0%nat + a 2%nat / 2), Math_round (a 1%nat + a 3%nat / 2))
  | triangle =>
      ((a 0%nat + a 2%nat + a 4%nat) / 3, (a 1%nat + a 3%nat + a 5%nat) / 3)
  | quadrilateral =>
      ((a 0%nat + a 2%nat + a 4%nat + a 6%nat) / 4,
       (a 1%nat + a 3%nat + a 5%nat + a 7%nat) / 4)
  | line =>
      ((a 0%nat + a 2%nat) / 2, (a 1%nat + a 3%nat) / 2)
  | point => (a 0%nat, a 1%nat)
  end.

(** [_getPos(args, canvasWidth, canvasHeight)]: position of the shape in
    the canvas. *)
Definition _getPos (args : float * float) (canvasWidth canvasHeight : float)
  : string :=
  if fst args <? 0.4 * canvasWidth then
    if snd args <? 0.4 * canvasHeight then "top left"
    else if 0.6 * canvasHeight <? snd args then "bottom left"
    else "mid left"
  else if 0.6 * canvasWidth <? fst args then
    if snd args <? 0.4 * canvasHeight then "top right"
    else if 0.6 * canvasHeight <? snd args then "bottom right"
    else "mid right"
  else
    if snd args <? 0.4 * canvasHeight then "top middle"
    else if 0.6 * canvasHeight <? snd args then "bottom middle"
    else "middle".

(** The object [{locX, locY}] that [_canvasLocator] returns. *)
Record locxy : Type := mkLoc { locX : float; locY : float }.

(** [_canvasLocator(args, canvasWidth, canvasHeight)]: locates the shape in
    a 10*10 grid. *)
Definition _canvasLocator (args : float * float)
  (canvasWidth canvasHeight : float) : locxy :=
  let noRows := 10 in
  let noCols := 10 in
  let locX := Math_floor (fst args / canvasWidth * noRows) in
  let locY := Math_floor (snd args / canvasHeight * noCols) in
  let locX := if locX =? noRows then locX - 1 else locX in
  let locY := if locY =? noCols then locY - 1 else locY in
  {| locX := locX; locY := locY |}.

(** [Math.cos] and [Math.sin] are approximations the engine chooses; the
    area of an arc is computed relative to them. *)
Variable Math_cos Math_sin : float -> float.

(** The arc's size in radians: the difference of its end and start angle,
    adjusted for negative values and for differences over [2 * PI]. *)
Definition arcSizeInRadians (shapeArgs : list jsval) : float :=
  let a i := num (get shapeArgs i) in
  rem (rem (a 5%nat - a 4%nat) (Math_PI * 2) + Math_PI * 2) (Math_PI * 2).

(** The triangle that closes an OPEN or CHORD arc: its corners are the
    arc's centre [A] and the two end points [B] and [C] of the arc. *)
Definition areaOfExtraTriangle (shapeArgs : list jsval) : float :=
  let a i := num (get shapeArgs i) in
  let Ax := a 0%nat in
  let Ay := a 1%nat in
  let Bx := a 0%nat + a 2%nat / 2 * toFixed2 (Math_cos (a 4%nat)) in
  let By := a 1%nat + a 3%nat / 2 * toFixed2 (Math_sin (a 4%nat)) in
  let Cx := a 0%nat + a 2%nat / 2 * toFixed2 (Math_cos (a 5%nat)) in
  let Cy := a 1%nat + a 3%nat / 2 * toFixed2 (Math_sin (a 5%nat)) in
  Math_abs (Ax * (By - Cy) + Bx * (Cy - Ay) + Cx * (Ay - By)) / 2.

(** [_getArea(objectType, shapeArgs, canvasWidth, canvasHeight)]: area of
    the shape, in percent of the canvas. *)
Definition _getArea (objectType : kind) (shapeArgs : list jsval)
  (canvasWidth canvasHeight : float) : float :=
  let a i := num (get shapeArgs i) in
  let objectArea :=
    match objectType with
    | arc =>
        let objectArea := arcSizeInRadians shapeArgs * a 2%nat * a 3%nat / 8 in
        if strict_eq (get shapeArgs 6) (JStr "open")
           || strict_eq (get shapeArgs 6) (JStr "chord")
        then
          if Math_PI <? arcSizeInRadians shapeArgs
          then objectArea + areaOfExtraTriangle shapeArgs
          else objectArea - areaOfExtraTriangle shapeArgs
        else objectArea
    | ellipse | circle => 3.14 * a 2%nat / 2 * a 3%nat / 2
    | line => 0
    | point => 0
    | quadrilateral =>
        Math_abs
          ((a 6%nat + a 0%nat) * (a 7%nat - a 1%nat) +
           (a 0%nat + a 2%nat) * (a 1%nat - a 3%nat) +
           (a 2%nat + a 4%nat) * (a 3%nat - a 5%nat) +
           (a 4%nat + a 6%nat) * (a 5%nat - a 7%nat)) / 2
    | rectangle | square => a 2%nat * a 3%nat
    | triangle =>
        Math_abs
          (a 0%nat * (a 3%nat - a 5%nat) +
           a 2%nat * (a 5%nat - a 1%nat) +
           a 4%nat * (a 1%nat - a 3%nat)) / 2
    end in
  Math_round (objectArea * 100 / (canvasWidth * canvasHeight)).

End Helpers.

(** ** Shape records and their serialization *)

(** The value of a property of a shape record. *)
Inductive propval : Type :=
  | PStr (s : string)
  | PNum (x : float)
  | PLoc (l : locxy).

(** The object [include]: its properties in the order they were assigned,
    which is the order [JSON.stringify] prints them in. *)
Definition include : Type := list (string * propval).

(** [include.key] *)
Fixpoint prop (key : string) (o : include) : option propval :=
  match o with
  | [] => None
  | (k, v) :: o' => if String.eqb k key then Some v else prop key o'
  end.

(** [ingredients.shapes]: an object keyed by shape name, each name holding
    the array of its records; the names in the order they were added. *)
Definition registry : Type := list (kind * list include).

(** [shapes[f]] *)
Fixpoint lookup (f : kind) (shapes : registry) : option (list include) :=
  match shapes with
  | [] => None
  | (k, l) :: rest => if kind_eqb k f then Some l else lookup f rest
  end.

(** [shapes[f].push(include)], for a name the object already has. *)
Fixpoint push (f : kind) (i : include) (shapes : registry) : registry :=
  match shapes with
  | [] => []
  | (k, l) :: rest =>
      if kind_eqb k f then (k, l ++ [i]) :: rest
      else (k, l) :: push f i rest
  end.

(** The text [JSON.stringify] returns is only ever compared with another
    such text, so it is kept as its sequence of lexemes: the printed text
    is their concatenation and determines them.  A number lexeme stands for
    the digits of a finite number, which differ for different numbers,
    except that both zeros print as [0]; NaN and the infinities print as
    [null]. *)
Inductive lexeme : Type :=
  | LBrace | RBrace | LBracket | RBracket | Colon | Comma
  | LString (s : string)
  | LNumber (x : float)
  | LNull.

Definition json_text : Type := list lexeme.

Definition kind_name (f : kind) : string :=
  match f with
  | point => "point" | line => "line" | circle => "circle"
  | square => "square" | ellipse => "ellipse" | rectangle => "rectangle"
  | triangle => "triangle" | quadrilateral => "quadrilateral" | arc => "arc"
  end.

Module JSON.

Definition number (x : float) : json_text :=
  if is_nan x || is_infinity x then [LNull]
  else if is_zero x then [LNumber zero]
  else [LNumber x].

Definition member (key : string) (v : json_text) : json_text :=
  LString key :: Colon :: v.

(** The members or elements of an object or array, commas in between. *)
Fixpoint commas (items : list json_text) : json_text :=
  match items with
  | [] => []
  | [v] => v
  | v :: rest => v ++ Comma :: commas rest
  end.

Definition object (members : list json_text) : json_text :=
  LBrace :: commas members ++ [RBrace].

Definition array (elements : list json_text) : json_text :=
  LBracket :: commas elements ++ [RBracket].

Definition value (v : propval) : json_text :=
  match v with
  | PStr s => [LString s]
  | PNum x => number x
  | PLoc l => object [member "locX" (number (locX l));
                      member "locY" (number (locY l))]
  end.

(** [JSON.stringify(include)] *)
Definition stringify_record (o : include) : json_text :=
  object (map (fun kv => member (fst kv) (value (snd kv))) o).

(** [JSON.stringify(ingredients.shapes)] *)
Definition stringify (shapes : registry) : json_text :=
  object (map (fun kl => member (kind_name (fst kl))
                           (array (map stringify_record (snd kl)))) shapes).

Definition lexeme_eqb (a b : lexeme) : bool :=
  match a, b with
  | LBrace, LBrace | RBrace, RBrace | LBracket, LBracket
  | RBracket, RBracket | Colon, Colon | Comma, Comma | LNull, LNull => true
  | LString s, LString t => String.eqb s t
  | LNumber x, LNumber y => PrimFloat.Leibniz.eqb x y
  | _, _ => false
  end.

(** [s === t] on two texts *)
Fixpoint eqb (s t : json_text) : bool :=
  match s, t with
  | [], [] => true
  | a :: s', b :: t' => lexeme_eqb a b && eqb s' t'
  | _, _ => false
  end.

End JSON.

(** ** The state of the sketch instance *)

(** The [levels] array of a colour, as [background], [fill] and [stroke]
    hand it over.  It is an object: [!==] asks whether two values are the
    same array, not whether they hold the same numbers, so each array
    carries its identity [ref]. *)
Record rgba : Type := mkRgba { ref : nat; levels : list float }.

(** [a === b] on two arrays *)
Definition same_array (a b : rgba) : bool := Nat.eqb (ref a) (ref b).

(** [ingredients.colors] *)
Record Colors : Type := mkColors {
  background : string;
  backgroundRGBA : rgba;
  fill : string;
  fillRGBA : rgba;
  stroke : string;
  strokeRGBA : rgba
}.

(** [this.ingredients] *)
Record Ingredients : Type := mkIngredients {
  shapes : registry;
  colors : Colors;
  pShapes : json_text
}.

(** [this._accessibleOutputs] *)
Record AccessibleOutputs : Type := mkOutputs {
  text : bool;
  grid : bool;
  textLabel : bool;
  gridLabel : bool
}.

(** A call of one of the two functions that rewrite an output element,
    with the identifier of the element. *)
Inductive update : Type :=
  | TextOutput (id : string)
  | GridOutput (id : string).

(** The sketch instance [this], once its canvas exists: the canvas size and
    identifier, the ingredients, the four output flags, and the calls made
    so far to the functions that regenerate the outputs. *)
Record p5 : Type := mkP5 {
  width : float;
  height : float;
  canvas_id : string;
  ingredients : Ingredients;
  _accessibleOutputs : AccessibleOutputs;
  regenerated : list update
}.

Definition set_ingredients (i : Ingredients) (this : p5) : p5 :=
  mkP5 (width this) (height this) (canvas_id this) i
       (_accessibleOutputs this) (regenerated this).

Definition set_shapes (sh : registry) (this : p5) : p5 :=
  set_ingredients
    (mkIngredients sh (colors (ingredients this)) (pShapes (ingredients this)))
    this.

Definition set_pShapes (t : json_text) (this : p5) : p5 :=
  set_ingredients
    (mkIngredients (shapes (ingredients this)) (colors (ingredients this)) t)
    this.

Definition set_colors (c : Colors) (this : p5) : p5 :=
  set_ingredients
    (mkIngredients (shapes (ingredients this)) c (pShapes (ingredients this)))
    this.

(** [this._updateTextOutput(id)] and [this._updateGridOutput(id)] live in
    other files; they read the ingredients and rewrite the element [id].
    Here a call is recorded. *)
Definition _updateTextOutput (id : string) (this : p5) : p5 :=
  mkP5 (width this) (height this) (canvas_id this) (ingredients this)
       (_accessibleOutputs this) (regenerated this ++ [TextOutput id]).

Definition _updateGridOutput (id : string) (this : p5) : p5 :=
  mkP5 (width this) (height this) (canvas_id this) (ingredients this)
       (_accessibleOutputs this) (regenerated this ++ [GridOutput id]).

(** ** The methods of outputs.js *)

Section Sketch.

Import Num.

(** What the module calls and does not define: [Math.cos] and [Math.sin],
    the distance [this.dist] of two points, and [this._rgbColorName], the
    name of the colour nearest to an array of levels. *)
Variable Math_cos Math_sin : float -> float.
Variable dist : float -> float -> float -> float -> float.
Variable _rgbColorName : rgba -> string.

(** [_updateAccsOutput()]: called at the end of setup and draw; calls the
    update functions of the outputs. *)
Definition _updateAccsOutput (this : p5) : p5 :=
  let cnvId := canvas_id this in
  if negb (JSON.eqb (JSON.stringify (shapes (ingredients this)))
                    (pShapes (ingredients this)))
  then
    let this := set_pShapes (JSON.stringify (shapes (ingredients this))) this in
    let this := if text (_accessibleOutputs this)
                then _updateTextOutput (cnvId ++ "textOutput") this
                else this in
    let this := if grid (_accessibleOutputs this)
                then _updateGridOutput (cnvId ++ "gridOutput") this
                else this in
    let this := if textLabel (_accessibleOutputs this)
                then _updateTextOutput (cnvId ++ "textOutputLabel") this
                else this in
    let this := if gridLabel (_accessibleOutputs this)
                then _updateGridOutput (cnvId ++ "gridOutputLabel") this
                else this in
    this
  else this.

(** [_accsBackground(args)]: resets the shapes when background is called
    and saves the name of the background colour. *)
Definition _accsBackground (args : rgba) (this : p5) : p5 :=
  let this := set_pShapes (JSON.stringify (shapes (ingredients this))) this in
  let this := set_shapes [] this in
  let c := colors (ingredients this) in
  if negb (same_array (backgroundRGBA c) args)
  then set_colors
         (mkColors (_rgbColorName args) args
                   (fill c) (fillRGBA c) (stroke c) (strokeRGBA c))
         this
  else this.

(** [_accsCanvasColors(f, args)]: records the fill and stroke of shapes. *)
Definition _accsCanvasColors (f : string) (args : rgba) (this : p5) : p5 :=
  let c := colors (ingredients this) in
  if String.eqb f "fill" then
    if negb (same_array (fillRGBA c) args)
    then set_colors
           (mkColors (background c) (backgroundRGBA c)
                     (_rgbColorName args) args (stroke c) (strokeRGBA c))
           this
    else this
  else if String.eqb f "stroke" then
    if negb (same_array (strokeRGBA c) args)
    then set_colors
           (mkColors (background c) (backgroundRGBA c)
                     (fill c) (fillRGBA c) (_rgbColorName args) args)
           this
    else this
  else this.

(** The first lines of [_accsOutput]: an ellipse or a rectangle whose two
    sizes are equal is renamed. *)
Definition reclassify (f : kind) (args : list jsval) : kind :=
  match f with
  | ellipse => if strict_eq (get args 2) (get args 3) then circle else f
  | rectangle => if strict_eq (get args 2) (get args 3) then square else f
  | _ => f
  end.

(** The middle of [_accsOutput]: the object [include] built for a shape of
    the (renamed) kind [f].  In the two calls of [_getPos] for a line the
    second coordinate is the array literal [[1]], respectively [[3]], which
    the comparisons of [_getPos] read as the number 1, respectively 3. *)
Definition describe (f : kind) (args : list jsval) (this : p5) : include :=
  let a i := num (get args i) in
  let c := colors (ingredients this) in
  let middle := _getMiddle f args in
  match f with
  | line =>
      let p1 := _getPos (a 0%nat, 1%float) (width this) (height this) in
      let p2 := _getPos (a 2%nat, 3%float) (width this) (height this) in
      [ ("color", PStr (stroke c));
        ("length", PNum (Math_round (dist (a 0%nat) (a 1%nat) (a 2%nat) (a 3%nat))));
        ("loc", PLoc (_canvasLocator middle (width this) (height this)));
        ("pos", PStr (if String.eqb p1 p2
                      then ("at " ++ p1)%string
                      else ("from " ++ p1 ++ " to " ++ p2)%string)) ]
  | _ =>
      (match f with
       | point => [ ("color", PStr (stroke c)) ]
       | _ => [ ("color", PStr (fill c));
                ("area", PNum (_getArea Math_cos Math_sin f args
                                        (width this) (height this))) ]
       end)
      ++ [ ("pos", PStr (_getPos middle (width this) (height this)));
           ("loc", PLoc (_canvasLocator middle (width this) (height this))) ]
  end.

(** The loop of [_accsOutput] over the records [l] of the kind: [add] starts
    true and becomes false at a record that prints like [i]. *)
Definition add (i : include) (l : list include) : bool :=
  fold_left
    (fun add r =>
       if JSON.eqb (JSON.stringify_record r) (JSON.stringify_record i)
       then false else add)
    l true.

(** The end of [_accsOutput]: a kind seen for the first time gets the array
    [[include]]; otherwise the records of the kind are compared with
    [include] and it is pushed when none prints the same.  (The test
    [shapes[f] !== [include]] compares with a new array and is always
    true.) *)
Definition store (f : kind) (i : include) (sh : registry) : registry :=
  match lookup f sh with
  | None => sh ++ [(f, [i])]
  | Some l => if add i l then push f i sh else sh
  end.

(** [_accsOutput(f, args)]: builds [ingredients.shapes]. *)
Definition _accsOutput (f : kind) (args : list jsval) (this : p5) : p5 :=
  let f := reclassify f args in
  let include := describe f args this in
  set_shapes (store f include (shapes (ingredients this))) this.

(** The calls the drawing functions and the draw loop make into this
    module, and a run of them on an instance. *)
Inductive call : Type :=
  | Output (f : kind) (args : list jsval)
  | CanvasColors (f : string) (args : rgba)
  | Background (args : rgba)
  | UpdateOutput.

Definition step (this : p5) (c : call) : p5 :=
  match c with
  | Output f args => _accsOutput f args this
  | CanvasColors f args => _accsCanvasColors f args this
  | Background args => _accsBackground args this
  | UpdateOutput => _updateAccsOutput this
  end.

Definition run (cs : list call) (this : p5) : p5 := fold_left step cs this.

(** ** Vocabulary of the properties *)

(** No array of the registry holds the same record twice. *)
Definition distinct_records (sh : registry) : Prop :=
  Forall (fun kl => NoDup (snd kl)) sh.

(** The array of a kind, empty for a kind the registry does not have. *)
Definition records (f : kind) (sh : registry) : list include :=
  match lookup f sh with
  | Some l => l
  | None => []
  end.

(** The calls [_updateAccsOutput] makes when it regenerates: one for each
    flag that is set, in the order text, grid, text label, grid label. *)
Definition enabled_updates (this : p5) : list update :=
  let cnvId := canvas_id this in
  (if text (_accessibleOutputs this)
   then [TextOutput (cnvId ++ "textOutput")] else [])
  ++ (if grid (_accessibleOutputs this)
      then [GridOutput (cnvId ++ "gridOutput")] else [])
  ++ (if textLabel (_accessibleOutputs this)
      then [TextOutput (cnvId ++ "textOutputLabel")] else [])
  ++ (if gridLabel (_accessibleOutputs this)
      then [GridOutput (cnvId ++ "gridOutputLabel")] else []).

(** The registry no longer prints as the snapshot [pShapes]. *)
Definition changed (this : p5) : bool :=
  negb (JSON.eqb (JSON.stringify (shapes (ingredients this)))
                 (pShapes (ingredients this))).

(** The three bands [_getPos] cuts an axis of the canvas into. *)
Inductive band : Type := Low | Mid | High.

Definition band_of (v size : float) : band :=
  if (v <? 0.4 * size)%float then Low
  else if (0.6 * size <? v)%float then High
  else Mid.

(** The name of a cell of the 3 by 3 partition, by its column and row. *)
Definition zone (column row : band) : string :=
  match column, row with
  | Low, Low => "top left"
  | Low, High => "bottom left"
  | Low, Mid => "mid left"
  | High, Low => "top right"
  | High, High => "bottom right"
  | High, Mid => "mid right"
  | Mid, Low => "top middle"
  | Mid, High => "bottom middle"
  | Mid, Mid => "middle"
  end.

(** An index of the 10 by 10 grid: an integer from 0 to 9. *)
Definition grid_index (v : float) : bool :=
  ((0 <=? v) && (v <=? 9) && (Math_floor v =? v))%float.

Definition in_grid (l : locxy) : bool :=
  grid_index (locX l) && grid_index (locY l).

(** The index [_canvasLocator] computes along one axis before and after it
    replaces 10 by 9. *)
Definition scaled (v size : float) : float := (v / size * 10)%float.

Definition clamp (i : float) : float :=
  if (i =? 10)%float then (i - 1)%float else i.

(** The area of an arc in the words of its description.  [swept] is the
    difference of the end and the start angle modulo [2 * PI], brought
    into the range from 0 to [2 * PI]; [endpoint] is the point of the arc
    at an angle, with the cosine and sine rounded to two decimals as the
    code rounds them. *)
Definition swept (start stop : float) : float :=
  Num.rem (Num.rem (stop - start) (Num.Math_PI * 2) + Num.Math_PI * 2)
          (Num.Math_PI * 2).

Definition endpoint (x y sizeX sizeY angle : float) : float * float :=
  ((x + sizeX / 2 * Num.toFixed2 (Math_cos angle))%float,
   (y + sizeY / 2 * Num.toFixed2 (Math_sin angle))%float).

Definition triangle_area (a b c : float * float) : float :=
  (Num.Math_abs (fst a * (snd b - snd c) + fst b * (snd c - snd a)
                 + fst c * (snd a - snd b)) / 2)%float.

Definition arc_area (x y sizeX sizeY start stop : float) (mode : jsval)
  : float :=
  let base := (swept start stop * sizeX * sizeY / 8)%float in
  let extra := triangle_area (x, y) (endpoint x y sizeX sizeY start)
                             (endpoint x y sizeX sizeY stop) in
  if strict_eq mode (JStr "open") || strict_eq mode (JStr "chord")
  then if (Num.Math_PI <? swept start stop)%float
       then (base + extra)%float
       else (base - extra)%float
  else base.

Definition percent_of_canvas (area canvasWidth canvasHeight : float) : float :=
  Num.Math_round (area * 100 / (canvasWidth * canvasHeight))%float.

(** An instance for the examples: a canvas of the given size, an empty
    registry and snapshot, white background and fill, black stroke, and
    the text and grid outputs switched on. *)
Definition example_sketch (w h : float) : p5 :=
  mkP5 w h "defaultCanvas0"
       (mkIngredients []
          (mkColors "white" (mkRgba 0 [255; 255; 255; 255]%float)
                    "white" (mkRgba 1 [255; 255; 255; 255]%float)
                    "black" (mkRgba 2 [0; 0; 0; 255]%float))
          [])
       (mkOutputs true true false false) [].

(** What stands in, in the examples, for the functions the module calls:
    the Euclidean distance, a palette of two names, and no cosine or sine
    (no example draws an arc). *)
Definition example_dist (x1 y1 x2 y2 : float) : float :=
  sqrt ((x2 - x1) * (x2 - x1) + (y2 - y1) * (y2 - y1))%float.

Definition example_name (c : rgba) : string :=
  match levels c with
  | r :: _ => if (r <? 128)%float then "black" else "red"
  | [] => "black"
  end.

Definition no_trig (x : float) : float := nan.

(** A float that is a zero or a positive finite number. *)
Definition finite_not_negative (f : spec_float) : Prop :=
  match f with
  | S754_zero false | S754_finite false _ _ => True
  | _ => False
  end.

Definition is_background (c : call) : bool :=
  match c with
  | Background _ => true
  | _ => false
  end.

Definition is_drawing (c : call) : bool :=
  match c with
  | Output _ _ => true
  | _ => false
  end.

(** [_addAccsOutput()]: returns true when accessible outputs are on.  An
    instance that has no [_accessibleOutputs] yet (here [None]) is given
    the four flags, all false.  The result is the value of the field after
    the call and the value returned, [grid || text]. *)
Definition _addAccsOutput (outputs : option AccessibleOutputs)
  : AccessibleOutputs * bool :=
  let outputs := match outputs with
                 | None => mkOutputs false false false false
                 | Some o => o
                 end in
  (outputs, grid outputs || text outputs).

(** One frame of a sketch: the background call that starts it, the calls
    of its drawing code, and the update that ends it. *)
Definition frame (a : rgba) (cs : list call) (this : p5) : p5 :=
  run (Background a :: cs ++ [UpdateOutput]) this.

(** A call of the drawing code that leaves the snapshot and the outputs
    alone: a shape or a colour. *)
Definition is_painting (c : call) : bool :=
  match c with
  | Output _ _ | CanvasColors _ _ => true
  | _ => false
  end.

(** The calls of [_updateTextOutput] and [_updateGridOutput] for the two
    labels. *)
Definition label_updates (this : p5) : list update :=
  (if textLabel (_accessibleOutputs this)
   then [TextOutput (canvas_id this ++ "textOutputLabel")] else [])
  ++ (if gridLabel (_accessibleOutputs this)
      then [GridOutput (canvas_id this ++ "gridOutputLabel")] else []).

(** Two values print the same. *)
Definition same_value (v w : propval) : Prop := JSON.value v = JSON.value w.

(** Two records print the same members: the same keys in the same order,
    each with a value that prints the same. *)
Definition same_members (r r' : include) : Prop :=
  Forall2 (fun kv kv' =>
             fst kv = fst kv' /\ same_value (snd kv) (snd kv'))
          r r'.

(** The drawing code of a static sketch: the shapes it draws, in order. *)
Definition drawing (ds : list (kind * list jsval)) : list call :=
  map (fun d => Output (fst d) (snd d)) ds.

(** Whether [_accsOutput] adds the record [i] of kind [f] to the registry:
    the kind is new, or no record of the kind prints like [i]. *)
Definition adds (f : kind) (i : include) (sh : registry) : bool :=
  match lookup f sh with
  | None => true
  | Some l => add i l
  end.

(** The number of lexemes in the text of an array of records. *)
Definition array_length (l : list include) : nat :=
  List.length (JSON.array (map JSON.stringify_record l)).

(** A number that [JSON.stringify] prints as [null]: NaN or an infinity. *)
Definition prints_null (x : float) : bool := is_nan x || is_infinity x.

(** The members of a record as [JSON.stringify] prints them, and what
    follows a member in the text: the closing brace, or a comma and the
    members that are left. *)
Definition members (r : include) : list json_text :=
  map (fun kv => JSON.member (fst kv) (JSON.value (snd kv))) r.

Definition after_member (r : include) : json_text :=
  match r with
  | [] => [RBrace]
  | _ => Comma :: JSON.commas (members r) ++ [RBrace]
  end.

(** The nine names [_getPos] gives a position. *)
Definition positions : list string :=
  [ "top left"; "mid left"; "bottom left";
    "top middle"; "middle"; "bottom middle";
    "top right"; "mid right"; "bottom right" ].

(** The number of update calls in a run. *)
Definition updates (cs : list call) : nat :=
  List.length
    (filter (fun c => match c with UpdateOutput => true | _ => false end)
            cs).

(** The outputs that are on: between none and four. *)
Definition outputs_on (this : p5) : nat := List.length (enabled_updates this).

(** * Properties *)

(** ** Texts, records and the registry *)

Lemma lexeme_eqb_eq (a b : lexeme) : JSON.lexeme_eqb a b = true <-> a = b.
Proof.
  destruct a, b; simpl; split; intro H;
    try reflexivity; try discriminate.
  - apply String.eqb_eq in H. now subst.
  - inversion H. apply String.eqb_refl.
  - apply FloatAxioms.Leibniz.eqb_spec in H. now subst.
  - inversion H. now apply FloatAxioms.Leibniz.eqb_spec.
Qed.

Lemma json_eqb_eq (s t : json_text) : JSON.eqb s t = true <-> s = t.
Proof.
  revert t. induction s as [|a s IH]; intros [|b t]; simpl;
    split; intro H; try reflexivity; try discriminate.
  - apply andb_true_iff in H. destruct H as [Hab Hst].
    apply lexeme_eqb_eq in Hab. apply IH in Hst. now subst.
  - inversion H. subst. apply andb_true_iff. split.
    + now apply lexeme_eqb_eq.
    + now apply IH.
Qed.

Lemma json_eqb_refl (s : json_text) : JSON.eqb s s = true.
Proof. now apply json_eqb_eq. Qed.

Lemma json_eqb_neq (s t : json_text) : JSON.eqb s t = false <-> s <> t.
Proof.
  split.
  - intros H E. apply json_eqb_eq in E. congruence.
  - intro H. destruct (JSON.eqb s t) eqn:E; [|reflexivity].
    apply json_eqb_eq in E. contradiction.
Qed.

(** The loop that sets [add] is a search for a record that prints like the
    new one. *)
Lemma scan_fold (A : Type) (p : A -> bool) (l : list A) (b : bool) :
  fold_left (fun add r => if p r then false else add) l b
  = b && negb (existsb p l).
Proof.
  revert b. induction l as [|r l IH]; intro b; simpl.
  - now rewrite andb_true_r.
  - rewrite IH. destruct (p r); simpl; [now destruct b | reflexivity].
Qed.

Lemma add_true_iff (i : include) (l : list include) :
  add i l = true <->
  forall r, In r l -> JSON.stringify_record r <> JSON.stringify_record i.
Proof.
  unfold add.
  rewrite (scan_fold include
             (fun r => JSON.eqb (JSON.stringify_record r)
                                (JSON.stringify_record i))).
  rewrite andb_true_l, negb_true_iff.
  split.
  - intros H r Hr E.
    assert (X : existsb (fun r => JSON.eqb (JSON.stringify_record r)
                                           (JSON.stringify_record i)) l = true).
    { apply existsb_exists. exists r. split; [assumption|].
      now apply json_eqb_eq. }
    congruence.
  - intro H.
    destruct (existsb _ l) eqn:E; [|reflexivity].
    apply existsb_exists in E. destruct E as [r [Hr Hp]].
    apply json_eqb_eq in Hp. now apply H in Hr.
Qed.

(** A record that is already in the array is never added again. *)
Lemma add_present (i : include) (l : list include) :
  In i l -> add i l = false.
Proof.
  intro H. destruct (add i l) eqn:E; [|reflexivity].
  exfalso. exact (proj1 (add_true_iff i l) E i H eq_refl).
Qed.

Lemma add_absent (i : include) (l : list include) :
  add i l = true -> ~ In i l.
Proof.
  intros E H. rewrite (add_present i l H) in E. discriminate.
Qed.

Lemma kind_eqb_refl (k : kind) : kind_eqb k k = true.
Proof. unfold kind_eqb. destruct (kind_eq_dec k k); congruence. Qed.

Lemma kind_eqb_eq (a b : kind) : kind_eqb a b = true <-> a = b.
Proof.
  unfold kind_eqb. destruct (kind_eq_dec a b); split; congruence.
Qed.

Lemma kind_eqb_neq (a b : kind) : kind_eqb a b = false <-> a <> b.
Proof.
  unfold kind_eqb. destruct (kind_eq_dec a b); split; congruence.
Qed.

Lemma lookup_app_new (f k : kind) (i : include) (sh : registry) :
  lookup f sh = None ->
  lookup k (sh ++ [(f, [i])]) = if kind_eqb f k then Some [i] else lookup k sh.
Proof.
  induction sh as [|[k0 l0] sh IH]; simpl; intro H.
  - reflexivity.
  - destruct (kind_eqb k0 f) eqn:E0; [discriminate|].
    destruct (kind_eqb k0 k) eqn:E1.
    + apply kind_eqb_eq in E1. subst k0.
      apply kind_eqb_neq in E0.
      destruct (kind_eqb f k) eqn:E2; [|reflexivity].
      apply kind_eqb_eq in E2. congruence.
    + now apply IH.
Qed.

Lemma lookup_push (f k : kind) (i : include) (sh : registry) :
  lookup k (push f i sh)
  = if kind_eqb f k
    then option_map (fun l => l ++ [i]) (lookup k sh)
    else lookup k sh.
Proof.
  induction sh as [|[k0 l0] sh IH]; simpl.
  - now destruct (kind_eqb f k).
  - destruct (kind_eqb k0 f) eqn:E0; simpl.
    + apply kind_eqb_eq in E0. subst k0.
      now destruct (kind_eqb f k).
    + destruct (kind_eqb k0 k) eqn:E1.
      * apply kind_eqb_eq in E1. subst k0.
        destruct (kind_eqb f k) eqn:E2; [|reflexivity].
        apply kind_eqb_eq in E2. subst f.
        rewrite kind_eqb_refl in E0. discriminate.
      * exact IH.
Qed.

(** What [store] does to the array of each kind. *)
Lemma lookup_store (f k : kind) (i : include) (sh : registry) :
  lookup k (store f i sh)
  = if kind_eqb f k
    then match lookup f sh with
         | None => Some [i]
         | Some l => if add i l then Some (l ++ [i]) else Some l
         end
    else lookup k sh.
Proof.
  unfold store. destruct (lookup f sh) as [l|] eqn:E.
  - destruct (add i l) eqn:Ea.
    + rewrite lookup_push. destruct (kind_eqb f k) eqn:Ek; [|reflexivity].
      apply kind_eqb_eq in Ek. subst k. now rewrite E.
    + destruct (kind_eqb f k) eqn:Ek; [|reflexivity].
      apply kind_eqb_eq in Ek. now subst k.
  - now apply lookup_app_new.
Qed.

Lemma NoDup_snoc (A : Type) (l : list A) (a : A) :
  NoDup l -> ~ In a l -> NoDup (l ++ [a]).
Proof.
  intros Hl Ha. induction Hl as [|b l Hb Hl IH]; simpl.
  - constructor; [intros []|constructor].
  - constructor.
    + intro H. apply in_app_or in H. destruct H as [H|[H|[]]].
      * contradiction.
      * subst. apply Ha. now left.
    + apply IH. intro H. apply Ha. now right.
Qed.

Lemma distinct_push (f : kind) (i : include) (sh : registry) (l : list include) :
  lookup f sh = Some l -> ~ In i l ->
  distinct_records sh -> distinct_records (push f i sh).
Proof.
  unfold distinct_records.
  induction sh as [|[k0 l0] sh IH]; simpl; intros Hl Hi Hd.
  - constructor.
  - inversion Hd as [|? ? H0 Hrest]; subst.
    destruct (kind_eqb k0 f) eqn:E0.
    + inversion Hl; subst. constructor; [|assumption].
      simpl in *. now apply NoDup_snoc.
    + constructor; [assumption|]. now apply IH.
Qed.

Lemma distinct_store (f : kind) (i : include) (sh : registry) :
  distinct_records sh -> distinct_records (store f i sh).
Proof.
  intro Hd. unfold store. destruct (lookup f sh) as [l|] eqn:E.
  - destruct (add i l) eqn:Ea; [|assumption].
    apply (distinct_push f i sh l E); [|assumption].
    now apply add_absent.
  - unfold distinct_records in *. apply Forall_app. split; [assumption|].
    constructor; [|constructor]. simpl.
    constructor; [intros []|constructor].
Qed.

Lemma set_shapes_same (this : p5) :
  set_shapes (shapes (ingredients this)) this = this.
Proof. now destruct this as [w h c [sh col p] o r]. Qed.

Lemma store_twice (f : kind) (i : include) (sh : registry) :
  store f i (store f i sh) = store f i sh.
Proof.
  assert (L := lookup_store f f i sh). rewrite kind_eqb_refl in L.
  unfold store at 1. rewrite L.
  destruct (lookup f sh) as [l|] eqn:E.
  - destruct (add i l) eqn:Ea.
    + rewrite add_present; [reflexivity|].
      apply in_or_app. right. now left.
    + rewrite Ea. reflexivity.
  - rewrite add_present; [reflexivity|]. now left.
Qed.

(** [store] keeps the names of the registry in their order, and adds at
    most one at the end. *)
Lemma names_push (f : kind) (i : include) (sh : registry) :
  map fst (push f i sh) = map fst sh.
Proof.
  induction sh as [|[k0 l0] sh IH]; simpl; [reflexivity|].
  destruct (kind_eqb k0 f); simpl; [reflexivity|]. now rewrite IH.
Qed.

Lemma names_store (f : kind) (i : include) (sh : registry) :
  map fst (store f i sh)
  = map fst sh ++ match lookup f sh with None => [f] | Some _ => [] end.
Proof.
  unfold store. destruct (lookup f sh) as [l|].
  - rewrite app_nil_r. destruct (add i l); [apply names_push|reflexivity].
  - now rewrite map_app.
Qed.

(** The array of every kind is kept as a prefix. *)
Lemma records_store (f k : kind) (i : include) (sh : registry) :
  exists l', records k (store f i sh) = records k sh ++ l'
             /\ (l' = [] \/ (l' = [i] /\ k = f)).
Proof.
  unfold records. rewrite lookup_store.
  destruct (kind_eqb f k) eqn:Ek.
  - apply kind_eqb_eq in Ek. subst k.
    destruct (lookup f sh) as [l|].
    + destruct (add i l).
      * exists [i]. auto.
      * exists []. rewrite app_nil_r. auto.
    + exists [i]. auto.
  - exists []. rewrite app_nil_r. auto.
Qed.

(** [_updateAccsOutput] in one step: when the registry has changed, the
    snapshot is replaced and the enabled outputs are regenerated. *)
Lemma updateAccsOutput_unfold (this : p5) :
  _updateAccsOutput this
  = if changed this
    then mkP5 (width this) (height this) (canvas_id this)
              (mkIngredients (shapes (ingredients this))
                             (colors (ingredients this))
                             (JSON.stringify (shapes (ingredients this))))
              (_accessibleOutputs this)
              (regenerated this ++ enabled_updates this)
    else this.
Proof.
  unfold _updateAccsOutput, changed, enabled_updates.
  destruct this as [w h c [sh col p] [t g tl gl] r].
  cbn [width height canvas_id ingredients _accessibleOutputs regenerated
       shapes colors pShapes text grid textLabel gridLabel].
  destruct (negb (JSON.eqb (JSON.stringify sh) p)); [|reflexivity].
  destruct t, g, tl, gl;
    cbv [set_pShapes set_ingredients _updateTextOutput _updateGridOutput
         width height canvas_id ingredients _accessibleOutputs regenerated
         shapes colors pShapes text grid textLabel gridLabel];
    rewrite <- ?app_assoc; rewrite ?app_nil_r; reflexivity.
Qed.

(** A record is built from the arguments, the canvas size and the colours;
    it does not depend on the registry. *)
Lemma describe_set_shapes (k : kind) (args : list jsval) (sh : registry)
  (this : p5) :
  describe k args (set_shapes sh this) = describe k args this.
Proof. reflexivity. Qed.

Lemma describe_accsOutput (k f : kind) (args args' : list jsval) (this : p5) :
  describe k args (_accsOutput f args' this) = describe k args this.
Proof. reflexivity. Qed.

Lemma shapes_accsOutput (f : kind) (args : list jsval) (this : p5) :
  shapes (ingredients (_accsOutput f args this))
  = store (reclassify f args) (describe (reclassify f args) args this)
          (shapes (ingredients this)).
Proof. reflexivity. Qed.

Lemma accsOutput_twice (f : kind) (args : list jsval) (this : p5) :
  _accsOutput f args (_accsOutput f args this) = _accsOutput f args this.
Proof.
  unfold _accsOutput at 1. cbv zeta.
  rewrite describe_accsOutput.
  rewrite shapes_accsOutput, store_twice.
  rewrite <- shapes_accsOutput. apply set_shapes_same.
Qed.

Lemma shapes_accsCanvasColors (f : string) (args : rgba) (this : p5) :
  shapes (ingredients (_accsCanvasColors f args this))
  = shapes (ingredients this).
Proof.
  unfold _accsCanvasColors.
  destruct (String.eqb f "fill").
  - now destruct (negb (same_array _ _)).
  - destruct (String.eqb f "stroke"); [|reflexivity].
    now destruct (negb (same_array _ _)).
Qed.

Lemma shapes_accsBackground (args : rgba) (this : p5) :
  shapes (ingredients (_accsBackground args this)) = [].
Proof.
  unfold _accsBackground. simpl.
  now destruct (negb (same_array _ _)).
Qed.

Lemma shapes_updateAccsOutput (this : p5) :
  shapes (ingredients (_updateAccsOutput this)) = shapes (ingredients this).
Proof.
  rewrite updateAccsOutput_unfold. now destruct (changed this).
Qed.

Lemma distinct_step (this : p5) (c : call) :
  distinct_records (shapes (ingredients this)) ->
  distinct_records (shapes (ingredients (step this c))).
Proof.
  intro H. destruct c as [f args|f args|args|]; cbv [step].
  - rewrite shapes_accsOutput. now apply distinct_store.
  - now rewrite shapes_accsCanvasColors.
  - rewrite shapes_accsBackground. constructor.
  - now rewrite shapes_updateAccsOutput.
Qed.

Lemma distinct_run (cs : list call) (this : p5) :
  distinct_records (shapes (ingredients this)) ->
  distinct_records (shapes (ingredients (run cs this))).
Proof.
  revert this. induction cs as [|c cs IH]; intros this H; simpl.
  - exact H.
  - apply IH. now apply distinct_step.
Qed.

Lemma accsOutput_frame (f : kind) (args : list jsval) (this : p5) :
  _accsOutput f args this
  = set_shapes (shapes (ingredients (_accsOutput f args this))) this.
Proof. reflexivity. Qed.

(** The text of a record starts with its colour. *)
Lemma stringify_record_color (c : string) (v : propval) (o : include) :
  nth 3 (JSON.stringify_record (("color", PStr c) :: ("area", v) :: o)) LNull
  = LString c.
Proof. reflexivity. Qed.

(** C1. Registry deduplication.  Along every run of calls that starts from
    a registry without repeated records (the empty one in particular), no
    array of the registry ever holds the same record twice.  A call of
    [_accsOutput] whose record is already in the array of its kind changes
    nothing; whether the record is pushed is decided by scanning that array
    for a record that prints the same; the first record of a kind the
    registry does not have is stored.  Drawing the same shape twice in a
    row stores it once, and a rectangle drawn a third time after the fill
    colour got another name is stored as a second record that differs in
    its colour only. *)
Theorem accsOutput_deduplicates :
  (forall (cs : list call) (this : p5),
      distinct_records (shapes (ingredients this)) ->
      distinct_records (shapes (ingredients (run cs this))))
  /\ (forall (cs : list call) (this : p5),
      shapes (ingredients this) = [] ->
      distinct_records (shapes (ingredients (run cs this))))
  /\ (forall (this : p5) (f : kind) (args : list jsval) (l : list include),
      lookup (reclassify f args) (shapes (ingredients this)) = Some l ->
      In (describe (reclassify f args) args this) l ->
      _accsOutput f args this = this)
  /\ (forall (this : p5) (f : kind) (args : list jsval) (l : list include),
      lookup (reclassify f args) (shapes (ingredients this)) = Some l ->
      lookup (reclassify f args)
             (shapes (ingredients (_accsOutput f args this)))
      = Some (if existsb
                   (fun r => JSON.eqb
                               (JSON.stringify_record r)
                               (JSON.stringify_record
                                  (describe (reclassify f args) args this)))
                   l
              then l
              else l ++ [describe (reclassify f args) args this]))
  /\ (forall (this : p5) (f : kind) (args : list jsval),
      lookup (reclassify f args) (shapes (ingredients this)) = None ->
      lookup (reclassify f args)
             (shapes (ingredients (_accsOutput f args this)))
      = Some [describe (reclassify f args) args this])
  /\ (forall (this : p5) (f : kind) (args : list jsval),
      _accsOutput f args (_accsOutput f args this) = _accsOutput f args this)
  /\ (forall (this : p5) (args : list jsval) (newfill : rgba),
      reclassify rectangle args = rectangle ->
      lookup rectangle (shapes (ingredients this)) = None ->
      same_array (fillRGBA (colors (ingredients this))) newfill = false ->
      _rgbColorName newfill <> fill (colors (ingredients this)) ->
      let record c :=
        [ ("color", PStr c);
          ("area", PNum (_getArea Math_cos Math_sin rectangle args
                                  (width this) (height this)));
          ("pos", PStr (_getPos (_getMiddle rectangle args)
                                (width this) (height this)));
          ("loc", PLoc (_canvasLocator (_getMiddle rectangle args)
                                       (width this) (height this))) ] in
      let twice :=
        _accsOutput rectangle args (_accsOutput rectangle args this) in
      let third :=
        _accsOutput rectangle args (_accsCanvasColors "fill" newfill twice) in
      lookup rectangle (shapes (ingredients twice))
      = Some [record (fill (colors (ingredients this)))]
      /\ lookup rectangle (shapes (ingredients third))
         = Some [record (fill (colors (ingredients this)));
                 record (_rgbColorName newfill)]).
Proof.
  split; [exact distinct_run|].
  split.
  { intros cs this H. apply distinct_run. rewrite H. constructor. }
  split.
  { intros this f args l Hl Hin.
    rewrite accsOutput_frame, shapes_accsOutput.
    unfold store. rewrite Hl, (add_present _ _ Hin).
    apply set_shapes_same. }
  split.
  { intros this f args l Hl.
    rewrite shapes_accsOutput, lookup_store, kind_eqb_refl, Hl.
    unfold add.
    rewrite (scan_fold include
               (fun r => JSON.eqb (JSON.stringify_record r)
                           (JSON.stringify_record
                              (describe (reclassify f args) args this)))).
    rewrite andb_true_l.
    now destruct (existsb _ l). }
  split.
  { intros this f args Hl.
    now rewrite shapes_accsOutput, lookup_store, kind_eqb_refl, Hl. }
  split; [intros this f args; apply accsOutput_twice|].
  intros this args newfill Hk Hnone Hnew Hname record twice third.
  assert (H1 : lookup rectangle (shapes (ingredients twice))
               = Some [record (fill (colors (ingredients this)))]).
  { unfold twice. rewrite accsOutput_twice.
    rewrite shapes_accsOutput, Hk, lookup_store, kind_eqb_refl, Hnone.
    reflexivity. }
  split; [exact H1|].
  unfold third.
  rewrite shapes_accsOutput, Hk, lookup_store, kind_eqb_refl.
  rewrite shapes_accsCanvasColors, H1.
  assert (Hd : describe rectangle args (_accsCanvasColors "fill" newfill twice)
               = record (_rgbColorName newfill)).
  { unfold _accsCanvasColors.
    cbn [String.eqb Ascii.eqb Bool.eqb].
    change (fillRGBA (colors (ingredients twice)))
      with (fillRGBA (colors (ingredients this))).
    rewrite Hnew. reflexivity. }
  rewrite Hd.
  replace (add (record (_rgbColorName newfill))
               [record (fill (colors (ingredients this)))]) with true.
  { reflexivity. }
  symmetry. apply add_true_iff. intros r [Hr|[]] E. subst r.
  apply (f_equal (fun t => nth 3 t LNull)) in E.
  unfold record in E. rewrite !stringify_record_color in E.
  inversion E. congruence.
Qed.

(** Between two background calls the array of every kind only grows at
    its end. *)
Lemma lookup_step_grows (this : p5) (c : call) (k : kind) (l : list include) :
  is_background c = false ->
  lookup k (shapes (ingredients this)) = Some l ->
  exists l', lookup k (shapes (ingredients (step this c))) = Some (l ++ l').
Proof.
  intros Hc Hl. destruct c as [f args|f args|args|]; cbv [step].
  - rewrite shapes_accsOutput, lookup_store.
    destruct (kind_eqb (reclassify f args) k) eqn:Ek.
    + apply kind_eqb_eq in Ek. rewrite Ek, Hl.
      destruct (add _ l).
      * now exists [describe k args this].
      * exists []. now rewrite app_nil_r.
    + exists []. now rewrite app_nil_r.
  - rewrite shapes_accsCanvasColors. exists []. now rewrite app_nil_r.
  - discriminate.
  - rewrite shapes_updateAccsOutput. exists []. now rewrite app_nil_r.
Qed.

Lemma lookup_run_grows (cs : list call) (this : p5) (k : kind)
  (l : list include) :
  forallb (fun c => negb (is_background c)) cs = true ->
  lookup k (shapes (ingredients this)) = Some l ->
  exists l', lookup k (shapes (ingredients (run cs this))) = Some (l ++ l').
Proof.
  revert this l. induction cs as [|c cs IH]; intros this l Hcs Hl.
  - exists []. now rewrite app_nil_r.
  - simpl in Hcs. apply andb_true_iff in Hcs. destruct Hcs as [Hc Hcs].
    apply negb_true_iff in Hc.
    destruct (lookup_step_grows this c k l Hc Hl) as [l1 H1].
    destruct (IH (step this c) (l ++ l1) Hcs H1) as [l2 H2].
    exists (l1 ++ l2). unfold run in *. simpl. now rewrite app_assoc.
Qed.

(** C10. Append-only growth of the registry.  A call of [_accsOutput]
    leaves the instance as it is, or appends its record at the end of the
    array of its (reclassified) kind and changes nothing else: the arrays
    of the other kinds are the same, every array that existed is a prefix
    of the array the kind has afterwards, the kinds keep their order with
    at most one new kind at the end, and nothing but the registry changes.
    Along a run of calls without a background call every array only grows
    at its end. *)
Theorem accsOutput_appends :
  (forall (this : p5) (f : kind) (args : list jsval),
      let k := reclassify f args in
      let after := _accsOutput f args this in
      (after = this
       \/ records k (shapes (ingredients after))
          = records k (shapes (ingredients this)) ++ [describe k args this])
      /\ (forall k', k' <> k ->
            lookup k' (shapes (ingredients after))
            = lookup k' (shapes (ingredients this)))
      /\ (forall k' l, lookup k' (shapes (ingredients this)) = Some l ->
            exists l', lookup k' (shapes (ingredients after)) = Some (l ++ l')
                       /\ (l' = [] \/ l' = [describe k args this]))
      /\ (exists ks, map fst (shapes (ingredients after))
                     = map fst (shapes (ingredients this)) ++ ks
                     /\ (ks = [] \/ ks = [k]))
      /\ after = set_shapes (shapes (ingredients after)) this)
  /\ (forall (cs : list call) (this : p5) (k : kind) (l : list include),
      forallb (fun c => negb (is_background c)) cs = true ->
      lookup k (shapes (ingredients this)) = Some l ->
      exists l', lookup k (shapes (ingredients (run cs this)))
                 = Some (l ++ l')).
Proof.
  split; [|exact lookup_run_grows].
  intros this f args k after.
  assert (Hs : shapes (ingredients after)
               = store k (describe k args this) (shapes (ingredients this)))
    by reflexivity.
  repeat split.
  - unfold records. rewrite Hs, lookup_store, kind_eqb_refl.
    destruct (lookup k (shapes (ingredients this))) as [l|] eqn:E.
    + destruct (add (describe k args this) l) eqn:Ea.
      * now right.
      * left. unfold after. rewrite accsOutput_frame, shapes_accsOutput.
        fold k. unfold store. rewrite E, Ea. apply set_shapes_same.
    + now right.
  - intros k' Hk. rewrite Hs, lookup_store.
    destruct (kind_eqb k k') eqn:E; [|reflexivity].
    apply kind_eqb_eq in E. congruence.
  - intros k' l Hl. rewrite Hs, lookup_store.
    destruct (kind_eqb k k') eqn:E.
    + apply kind_eqb_eq in E. subst k'. rewrite Hl.
      destruct (add _ l).
      * exists [describe k args this]. auto.
      * exists []. rewrite app_nil_r. auto.
    + exists []. rewrite app_nil_r. auto.
  - rewrite Hs, names_store.
    destruct (lookup k (shapes (ingredients this))).
    + exists []. auto.
    + exists [k]. auto.
Qed.

Lemma changed_unchanged (this : p5) :
  changed this = false <->
  JSON.stringify (shapes (ingredients this)) = pShapes (ingredients this).
Proof.
  unfold changed. rewrite negb_false_iff. apply json_eqb_eq.
Qed.

Lemma changed_after_update (this : p5) :
  changed (_updateAccsOutput this) = false.
Proof.
  rewrite updateAccsOutput_unfold. destruct (changed this) eqn:E.
  - apply changed_unchanged. reflexivity.
  - exact E.
Qed.

Lemma updateAccsOutput_unchanged (this : p5) :
  changed this = false -> _updateAccsOutput this = this.
Proof. intro H. now rewrite updateAccsOutput_unfold, H. Qed.

Lemma changed_accsCanvasColors (f : string) (args : rgba) (this : p5) :
  changed (_accsCanvasColors f args this) = changed this.
Proof.
  unfold _accsCanvasColors.
  destruct (String.eqb f "fill").
  - now destruct (negb (same_array _ _)).
  - destruct (String.eqb f "stroke"); [|reflexivity].
    now destruct (negb (same_array _ _)).
Qed.

(** A run without drawing or background calls leaves an up-to-date snapshot
    up to date. *)
Lemma changed_run_quiet (cs : list call) (this : p5) :
  forallb (fun c => negb (is_drawing c || is_background c)) cs = true ->
  changed this = false -> changed (run cs this) = false.
Proof.
  revert this. induction cs as [|c cs IH]; intros this Hcs H.
  - exact H.
  - simpl in Hcs. apply andb_true_iff in Hcs. destruct Hcs as [Hc Hcs].
    unfold run. simpl. apply IH; [exact Hcs|].
    destruct c as [f args|f args|args|]; try discriminate; cbv [step].
    + now rewrite changed_accsCanvasColors.
    + apply changed_after_update.
Qed.

(** C3. Regeneration check.  [_updateAccsOutput] regenerates exactly when
    the text of the registry differs from the snapshot [pShapes]: then the
    snapshot becomes that text and the update function of each of the four
    outputs whose flag is set is called, in the order text, grid, text
    label, grid label; when the two are equal the call changes nothing.
    Hence a second call right after the first changes nothing and
    regenerates nothing, and the same holds after any calls in between that
    neither draw a shape nor clear the background. *)
Theorem updateAccsOutput_idempotent :
  (forall this : p5,
      JSON.stringify (shapes (ingredients this)) <> pShapes (ingredients this) ->
      _updateAccsOutput this
      = mkP5 (width this) (height this) (canvas_id this)
             (mkIngredients (shapes (ingredients this))
                            (colors (ingredients this))
                            (JSON.stringify (shapes (ingredients this))))
             (_accessibleOutputs this)
             (regenerated this ++ enabled_updates this))
  /\ (forall this : p5,
      JSON.stringify (shapes (ingredients this)) = pShapes (ingredients this) ->
      _updateAccsOutput this = this)
  /\ (forall this : p5,
      _updateAccsOutput (_updateAccsOutput this) = _updateAccsOutput this)
  /\ (forall (this : p5) (cs : list call),
      forallb (fun c => negb (is_drawing c || is_background c)) cs = true ->
      _updateAccsOutput (run cs (_updateAccsOutput this))
      = run cs (_updateAccsOutput this)).
Proof.
  split.
  { intros this H. apply json_eqb_neq in H.
    rewrite updateAccsOutput_unfold. unfold changed. now rewrite H. }
  split.
  { intros this H. apply updateAccsOutput_unchanged.
    now apply changed_unchanged. }
  split.
  { intro this. apply updateAccsOutput_unchanged, changed_after_update. }
  intros this cs Hcs. apply updateAccsOutput_unchanged.
  apply changed_run_quiet; [exact Hcs|apply changed_after_update].
Qed.

(** C8. Background call.  [_accsBackground] stores the text of the registry
    it finds as the snapshot [pShapes] and then empties the registry.  The
    background levels and the name cached for them are replaced, by the new
    array and its name, when the new array is not the stored one ([!==]),
    and kept otherwise.  The fill and stroke colours, the canvas, the flags
    and the outputs are as before. *)
Theorem accsBackground_effect :
  forall (args : rgba) (this : p5),
    let c := colors (ingredients this) in
    let after := _accsBackground args this in
    let c' := colors (ingredients after) in
    pShapes (ingredients after) = JSON.stringify (shapes (ingredients this))
    /\ shapes (ingredients after) = []
    /\ backgroundRGBA c'
       = (if same_array (backgroundRGBA c) args then backgroundRGBA c else args)
    /\ background c'
       = (if same_array (backgroundRGBA c) args then background c
          else _rgbColorName args)
    /\ (fill c' = fill c /\ fillRGBA c' = fillRGBA c
        /\ stroke c' = stroke c /\ strokeRGBA c' = strokeRGBA c)
    /\ (width after = width this /\ height after = height this
        /\ canvas_id after = canvas_id this
        /\ _accessibleOutputs after = _accessibleOutputs this
        /\ regenerated after = regenerated this).
Proof.
  intros args this c after c'.
  unfold c', after, _accsBackground.
  cbn [set_pShapes set_shapes set_ingredients ingredients colors shapes pShapes].
  fold c.
  destruct (same_array (backgroundRGBA c) args); cbn; repeat split;
    destruct c; reflexivity.
Qed.

(** C4. Reclassification.  An ellipse whose two sizes are equal ([===]) is
    recorded as a circle and a rectangle whose two sizes are equal as a
    square: the call does what a call with the new kind does, the record is
    stored in the array of the new kind and the array of the old kind is
    left alone; and the record is built for the new kind, its position and
    grid cell from [_getMiddle] of the new kind and its area from
    [_getArea] of the new kind. *)
Theorem accsOutput_reclassifies :
  forall (this : p5) (args : list jsval),
    strict_eq (get args 2) (get args 3) = true ->
    let w := width this in
    let h := height this in
    let record k :=
      [ ("color", PStr (fill (colors (ingredients this))));
        ("area", PNum (_getArea Math_cos Math_sin k args w h));
        ("pos", PStr (_getPos (_getMiddle k args) w h));
        ("loc", PLoc (_canvasLocator (_getMiddle k args) w h)) ] in
    (_accsOutput ellipse args this = _accsOutput circle args this
     /\ shapes (ingredients (_accsOutput ellipse args this))
        = store circle (record circle) (shapes (ingredients this))
     /\ lookup ellipse (shapes (ingredients (_accsOutput ellipse args this)))
        = lookup ellipse (shapes (ingredients this)))
    /\ (_accsOutput rectangle args this = _accsOutput square args this
        /\ shapes (ingredients (_accsOutput rectangle args this))
           = store square (record square) (shapes (ingredients this))
        /\ lookup rectangle
             (shapes (ingredients (_accsOutput rectangle args this)))
           = lookup rectangle (shapes (ingredients this))).
Proof.
  intros this args H w h record.
  assert (He : reclassify ellipse args = circle)
    by (unfold reclassify; now rewrite H).
  assert (Hr : reclassify rectangle args = square)
    by (unfold reclassify; now rewrite H).
  split; split.
  - unfold _accsOutput. now rewrite He.
  - split.
    + rewrite shapes_accsOutput, He. reflexivity.
    + rewrite shapes_accsOutput, He, lookup_store. reflexivity.
  - unfold _accsOutput. now rewrite Hr.
  - split.
    + rewrite shapes_accsOutput, Hr. reflexivity.
    + rewrite shapes_accsOutput, Hr, lookup_store. reflexivity.
Qed.

(** C2. The record of a line.  Its colour is the stroke colour and its
    length the rounded distance of the two end points, as claimed.  Its
    position is not: the two calls of [_getPos] are handed the first and
    third argument with the constants 1 and 3 in place of the second and
    fourth, so the ordinates of the end points are never read.  On a canvas
    of 100 by 100 the line from (10,10) to (10,90) is recorded "at top
    left", although [_getPos] puts its end points in "top left" and
    "bottom left". *)
Theorem line_position_ignores_ordinates :
  (forall (this : p5) (args : list jsval),
      let x1 := num (get args 0) in
      let y1 := num (get args 1) in
      let x2 := num (get args 2) in
      let y2 := num (get args 3) in
      let p1 := _getPos (x1, 1%float) (width this) (height this) in
      let p2 := _getPos (x2, 3%float) (width this) (height this) in
      prop "color" (describe line args this)
      = Some (PStr (stroke (colors (ingredients this))))
      /\ prop "length" (describe line args this)
         = Some (PNum (Num.Math_round (dist x1 y1 x2 y2)))
      /\ prop "pos" (describe line args this)
         = Some (PStr (if String.eqb p1 p2
                       then ("at " ++ p1)%string
                       else ("from " ++ p1 ++ " to " ++ p2)%string)))
  /\ (prop "pos" (describe line [JNum 10; JNum 10; JNum 10; JNum 90]
                           (example_sketch 100 100))
      = Some (PStr "at top left")
      /\ _getPos (10, 10)%float 100 100 = "top left"
      /\ _getPos (10, 90)%float 100 100 = "bottom left").
Proof.
  split.
  - intros this args. repeat split; reflexivity.
  - repeat split; reflexivity.
Qed.

(** ** Reclassification, colours and frames *)

(** X1.  Reclassification changes the name a shape is recorded under and
    nothing else: the middle, the area and the whole record are the ones of
    the kind that was drawn, and a reclassified kind is not reclassified
    again. *)
Theorem reclassify_keeps_record :
  forall (f : kind) (args : list jsval) (this : p5),
    _getMiddle (reclassify f args) args = _getMiddle f args
    /\ (forall w h : float,
          _getArea Math_cos Math_sin (reclassify f args) args w h
          = _getArea Math_cos Math_sin f args w h)
    /\ describe (reclassify f args) args this = describe f args this
    /\ reclassify (reclassify f args) args = reclassify f args
    /\ shapes (ingredients (_accsOutput f args this))
       = store (reclassify f args) (describe f args this)
               (shapes (ingredients this)).
Proof.
  intros f args this.
  assert (D : describe (reclassify f args) args this = describe f args this).
  { destruct f; try reflexivity; unfold reclassify;
      destruct (strict_eq (get args 2) (get args 3)); reflexivity. }
  repeat split.
  - destruct f; try reflexivity; unfold reclassify;
      destruct (strict_eq (get args 2) (get args 3)); reflexivity.
  - intros w h. destruct f; try reflexivity; unfold reclassify;
      destruct (strict_eq (get args 2) (get args 3)); reflexivity.
  - exact D.
  - destruct f; try reflexivity; unfold reclassify;
      destruct (strict_eq (get args 2) (get args 3)); reflexivity.
  - now rewrite shapes_accsOutput, D.
Qed.

Lemma set_colors_same (this : p5) :
  set_colors (colors (ingredients this)) this = this.
Proof. destruct this as [w h i [sh c p] o r]. reflexivity. Qed.

Lemma same_array_refl (a : rgba) : same_array a a = true.
Proof. apply Nat.eqb_refl. Qed.

(** X2.  [_accsCanvasColors] replaces the fill colour, or the stroke colour,
    and the name cached for it when it is handed an array that is not the
    stored one, and changes nothing otherwise: not for the stored array
    (whatever it holds now), and not for a name other than fill and stroke.
    The background colour, the registry, the snapshot, the flags and the
    outputs are never touched, and a second call with the same arguments
    changes nothing. *)
Theorem accsCanvasColors_effect :
  forall (f : string) (args : rgba) (this : p5),
    let c := colors (ingredients this) in
    let after := _accsCanvasColors f args this in
    let c' := colors (ingredients after) in
    (f = "fill" ->
     fillRGBA c' = (if same_array (fillRGBA c) args then fillRGBA c else args)
     /\ fill c' = (if same_array (fillRGBA c) args then fill c
                   else _rgbColorName args)
     /\ stroke c' = stroke c /\ strokeRGBA c' = strokeRGBA c)
    /\ (f = "stroke" ->
        strokeRGBA c'
        = (if same_array (strokeRGBA c) args then strokeRGBA c else args)
        /\ stroke c' = (if same_array (strokeRGBA c) args then stroke c
                        else _rgbColorName args)
        /\ fill c' = fill c /\ fillRGBA c' = fillRGBA c)
    /\ (f <> "fill" -> f <> "stroke" -> after = this)
    /\ (f = "fill" -> same_array (fillRGBA c) args = true -> after = this)
    /\ (f = "stroke" -> same_array (strokeRGBA c) args = true -> after = this)
    /\ (background c' = background c /\ backgroundRGBA c' = backgroundRGBA c)
    /\ after = set_colors c' this
    /\ _accsCanvasColors f args after = after.
Proof.
  intros f args this c after c'. unfold c', after, _accsCanvasColors.
  fold c.
  destruct (String.eqb_spec f "fill") as [Ef|Ef];
    [|destruct (String.eqb_spec f "stroke") as [Es|Es]].
  - subst f. destruct (same_array (fillRGBA c) args) eqn:S; cbn [negb].
    + fold c. rewrite S. cbn [negb].
      repeat match goal with
             | |- _ /\ _ => split
             | |- _ -> _ => intro
             end; try reflexivity; try congruence.
      symmetry. apply set_colors_same.
    + cbn [set_colors set_ingredients ingredients colors fillRGBA].
      rewrite same_array_refl. cbn [negb].
      repeat match goal with
             | |- _ /\ _ => split
             | |- _ -> _ => intro
             end; try reflexivity; congruence.
  - subst f. destruct (same_array (strokeRGBA c) args) eqn:S; cbn [negb].
    + fold c. rewrite S. cbn [negb].
      repeat match goal with
             | |- _ /\ _ => split
             | |- _ -> _ => intro
             end; try reflexivity; try congruence.
      symmetry. apply set_colors_same.
    + cbn [set_colors set_ingredients ingredients colors strokeRGBA].
      rewrite same_array_refl. cbn [negb].
      repeat match goal with
             | |- _ /\ _ => split
             | |- _ -> _ => intro
             end; try reflexivity; congruence.
  - repeat match goal with
           | |- _ /\ _ => split
           | |- _ -> _ => intro
           end; try reflexivity; try congruence.
    symmetry. apply set_colors_same.
Qed.

(** X3.  The colour of a record is the stroke colour for a line and a point
    and the fill colour for every other shape. A fill call with a new array
    gives the shapes drawn after it the name of the new colour and leaves
    lines and points as they were; a stroke call does the converse. The
    records already in the registry keep the colour they were drawn with. *)
Theorem record_colour :
  forall (k : kind) (args : list jsval) (newc : rgba) (this : p5),
    let c := colors (ingredients this) in
    let filled := _accsCanvasColors "fill" newc this in
    let stroked := _accsCanvasColors "stroke" newc this in
    let outlined := match k with line | point => true | _ => false end in
    prop "color" (describe k args this)
    = Some (PStr (if outlined then stroke c else fill c))
    /\ prop "color" (describe k args filled)
       = Some (PStr (if outlined then stroke c
                     else if same_array (fillRGBA c) newc then fill c
                          else _rgbColorName newc))
    /\ prop "color" (describe k args stroked)
       = Some (PStr (if outlined
                     then if same_array (strokeRGBA c) newc then stroke c
                          else _rgbColorName newc
                     else fill c))
    /\ (outlined = true -> describe k args filled = describe k args this)
    /\ (outlined = false -> describe k args stroked = describe k args this)
    /\ shapes (ingredients filled) = shapes (ingredients this)
    /\ shapes (ingredients stroked) = shapes (ingredients this).
Proof.
  intros k args newc this c filled stroked outlined.
  unfold filled, stroked, outlined, _accsCanvasColors. fold c.
  cbn [String.eqb Ascii.eqb Bool.eqb andb].
  destruct (same_array (fillRGBA c) newc), (same_array (strokeRGBA c) newc);
    cbn [negb]; (repeat split; try (destruct k; reflexivity);
                 try (destruct k; intro Q; (discriminate Q || reflexivity))).
Qed.

(** X4.  [_addAccsOutput] gives an instance without output flags the four
    flags, all false, and leaves existing flags as they are; a second call
    returns what the first returned. It returns true exactly when the text
    or the grid output is on, so not for the labels alone: after it returned
    false [_updateAccsOutput] regenerates the labels that are on and no
    other output, and on a fresh instance nothing at all. *)
Theorem addAccsOutput_flags :
  (forall o : AccessibleOutputs, fst (_addAccsOutput (Some o)) = o)
  /\ _addAccsOutput None = (mkOutputs false false false false, false)
  /\ (forall o : option AccessibleOutputs,
        _addAccsOutput (Some (fst (_addAccsOutput o))) = _addAccsOutput o)
  /\ (forall o : option AccessibleOutputs,
        snd (_addAccsOutput o)
        = text (fst (_addAccsOutput o)) || grid (fst (_addAccsOutput o)))
  /\ (forall this : p5,
        snd (_addAccsOutput (Some (_accessibleOutputs this))) = false ->
        regenerated (_updateAccsOutput this)
        = regenerated this
          ++ (if changed this then label_updates this else []))
  /\ (forall this : p5,
        _accessibleOutputs this = fst (_addAccsOutput None) ->
        regenerated (_updateAccsOutput this) = regenerated this).
Proof.
  split; [reflexivity|]. split; [reflexivity|].
  split; [intros [o|]; reflexivity|].
  split; [intros [[t g tl gl]|]; cbn; [apply orb_comm|reflexivity]|].
  split.
  - intros this H. rewrite updateAccsOutput_unfold.
    destruct (changed this); [|now rewrite app_nil_r].
    cbn [regenerated]. f_equal. unfold enabled_updates, label_updates.
    cbn in H. apply orb_false_iff in H. destruct H as [Hg Ht].
    now rewrite Hg, Ht.
  - intros this H. rewrite updateAccsOutput_unfold.
    destruct (changed this); [|reflexivity].
    cbn [regenerated]. unfold enabled_updates. rewrite H. cbn.
    apply app_nil_r.
Qed.

(** *** Frames *)

Lemma accsCanvasColors_frame (f : string) (args : rgba) (this : p5) :
  _accsCanvasColors f args this = this
  \/ exists c, _accsCanvasColors f args this = set_colors c this.
Proof.
  unfold _accsCanvasColors.
  destruct (String.eqb f "fill");
    [|destruct (String.eqb f "stroke"); [|now left]].
  - destruct (negb _); [right; eexists; reflexivity|now left].
  - destruct (negb _); [right; eexists; reflexivity|now left].
Qed.

Lemma accsBackground_frame (a : rgba) (this : p5) :
  pShapes (ingredients (_accsBackground a this))
  = JSON.stringify (shapes (ingredients this))
  /\ regenerated (_accsBackground a this) = regenerated this
  /\ _accessibleOutputs (_accsBackground a this) = _accessibleOutputs this
  /\ canvas_id (_accsBackground a this) = canvas_id this.
Proof.
  unfold _accsBackground.
  cbn [set_pShapes set_shapes set_ingredients ingredients colors].
  destruct (negb _); repeat split; reflexivity.
Qed.

Lemma run_app (cs cs' : list call) (this : p5) :
  run (cs ++ cs') this = run cs' (run cs this).
Proof. apply fold_left_app. Qed.

Lemma frame_unfold (a : rgba) (cs : list call) (this : p5) :
  frame a cs this = _updateAccsOutput (run cs (_accsBackground a this)).
Proof. unfold frame. cbn [run fold_left step]. fold (run (cs ++ [UpdateOutput])
  (_accsBackground a this)). now rewrite run_app. Qed.

(** Shapes and colours leave the snapshot, the flags, the canvas and the
    outputs alone. *)
Lemma painting_step (this : p5) (c : call) :
  is_painting c = true ->
  pShapes (ingredients (step this c)) = pShapes (ingredients this)
  /\ regenerated (step this c) = regenerated this
  /\ _accessibleOutputs (step this c) = _accessibleOutputs this
  /\ canvas_id (step this c) = canvas_id this
  /\ width (step this c) = width this
  /\ height (step this c) = height this.
Proof.
  destruct c as [f args|f args|args|]; try discriminate; intros _;
    cbv [step].
  - rewrite accsOutput_frame. repeat split; reflexivity.
  - destruct (accsCanvasColors_frame f args this) as [-> | [c ->]];
      repeat split; reflexivity.
Qed.

Lemma painting_run (cs : list call) (this : p5) :
  forallb is_painting cs = true ->
  pShapes (ingredients (run cs this)) = pShapes (ingredients this)
  /\ regenerated (run cs this) = regenerated this
  /\ _accessibleOutputs (run cs this) = _accessibleOutputs this
  /\ canvas_id (run cs this) = canvas_id this
  /\ width (run cs this) = width this
  /\ height (run cs this) = height this.
Proof.
  revert this. induction cs as [|c cs IH]; intros this H.
  - repeat split; reflexivity.
  - simpl in H. apply andb_true_iff in H. destruct H as [Hc Hcs].
    destruct (painting_step this c Hc) as (P & R & O & I & W & Hh).
    destruct (IH (step this c) Hcs) as (P' & R' & O' & I' & W' & Hh').
    unfold run in *. cbn [fold_left].
    repeat split; congruence.
Qed.

Lemma frame_effect :
  forall (a : rgba) (cs : list call) (this : p5),
    forallb is_painting cs = true ->
    let before := shapes (ingredients this) in
    let drawn := run cs (_accsBackground a this) in
    let after := frame a cs this in
    pShapes (ingredients drawn) = JSON.stringify before
    /\ shapes (ingredients after) = shapes (ingredients drawn)
    /\ regenerated after
       = regenerated this
         ++ (if JSON.eqb (JSON.stringify (shapes (ingredients drawn)))
                         (JSON.stringify before)
             then [] else enabled_updates this)
    /\ pShapes (ingredients after)
       = JSON.stringify (shapes (ingredients after)).
Proof.
  intros a cs this H before drawn after.
  destruct (painting_run cs (_accsBackground a this) H)
    as (P & R & O & I & _ & _).
  fold drawn in P, R, O, I.
  destruct (accsBackground_frame a this) as (Bp & Br & Bo & Bi).
  assert (Pd : pShapes (ingredients drawn) = JSON.stringify before)
    by (now rewrite P, Bp).
  unfold after. rewrite frame_unfold. fold drawn.
  split; [exact Pd|]. split; [apply shapes_updateAccsOutput|]. split.
  - rewrite updateAccsOutput_unfold. unfold changed. rewrite Pd.
    destruct (JSON.eqb _ _); cbn [negb regenerated].
    + now rewrite app_nil_r, R, Br.
    + rewrite R, Br. f_equal. unfold enabled_updates. now rewrite O, I, Bo, Bi.
  - symmetry. apply changed_unchanged, changed_after_update.
Qed.


(** X5.  A frame regenerates the outputs exactly when the registry its
    drawing code builds prints differently from the registry of the frame
    before: the background call takes the snapshot of the old registry, the
    shapes and colours of the frame leave it alone, and the update compares. *)
Theorem frame_regenerates :
  forall (a : rgba) (cs : list call) (this : p5),
    forallb is_painting cs = true ->
    let before := shapes (ingredients this) in
    let drawn := run cs (_accsBackground a this) in
    let after := frame a cs this in
    pShapes (ingredients drawn) = JSON.stringify before
    /\ shapes (ingredients after) = shapes (ingredients drawn)
    /\ regenerated after
       = regenerated this
         ++ (if JSON.eqb (JSON.stringify (shapes (ingredients drawn)))
                         (JSON.stringify before)
             then [] else enabled_updates this)
    /\ pShapes (ingredients after)
       = JSON.stringify (shapes (ingredients after)).
Proof. exact frame_effect. Qed.

(** A record is built from the canvas size and the colours alone. *)
Lemma describe_view (k : kind) (args : list jsval) (s s' : p5) :
  width s = width s' -> height s = height s' ->
  colors (ingredients s) = colors (ingredients s') ->
  describe k args s = describe k args s'.
Proof. intros W H C. unfold describe. now rewrite W, H, C. Qed.

Lemma drawing_run (ds : list (kind * list jsval)) :
  forall s s' : p5,
    width s = width s' -> height s = height s' ->
    colors (ingredients s) = colors (ingredients s') ->
    shapes (ingredients s) = shapes (ingredients s') ->
    run (drawing ds) s = set_shapes (shapes (ingredients (run (drawing ds) s))) s
    /\ shapes (ingredients (run (drawing ds) s))
       = shapes (ingredients (run (drawing ds) s')).
Proof.
  induction ds as [|[f args] ds IH]; intros s s' W H C S.
  - split; [symmetry; apply set_shapes_same|exact S].
  - unfold drawing, run. cbn [map fold_left step fst snd].
    fold (drawing ds).
    fold (run (drawing ds) (_accsOutput f args s)).
    fold (run (drawing ds) (_accsOutput f args s')).
    assert (D : describe (reclassify f args) args s
                = describe (reclassify f args) args s')
      by now apply describe_view.
    destruct (IH (_accsOutput f args s) (_accsOutput f args s')) as [F E].
    + now rewrite (accsOutput_frame f args s), (accsOutput_frame f args s').
    + now rewrite (accsOutput_frame f args s), (accsOutput_frame f args s').
    + now rewrite (accsOutput_frame f args s), (accsOutput_frame f args s').
    + now rewrite !shapes_accsOutput, D, S.
    + split; [|exact E]. rewrite F at 1.
      rewrite (accsOutput_frame f args s) at 2. reflexivity.
Qed.

Lemma accsBackground_twice (a : rgba) (this : p5) :
  same_array (backgroundRGBA (colors (ingredients (_accsBackground a this))))
             a = true.
Proof.
  unfold _accsBackground.
  cbn [set_pShapes set_shapes set_ingredients ingredients colors].
  destruct (same_array (backgroundRGBA (colors (ingredients this))) a) eqn:S;
    cbn [negb].
  - exact S.
  - apply same_array_refl.
Qed.

Lemma updateAccsOutput_view (s : p5) :
  colors (ingredients (_updateAccsOutput s)) = colors (ingredients s)
  /\ width (_updateAccsOutput s) = width s
  /\ height (_updateAccsOutput s) = height s.
Proof.
  rewrite updateAccsOutput_unfold.
  destruct (changed s); repeat split; reflexivity.
Qed.

(** X6.  A sketch that draws the same shapes in every frame settles after
    the first frame: a second frame leaves the instance exactly as the first
    left it, so the outputs are regenerated in the first frame at most and
    never again. *)
Theorem frame_fixed_point :
  forall (a : rgba) (ds : list (kind * list jsval)) (this : p5),
    let once := frame a (drawing ds) this in
    frame a (drawing ds) once = once
    /\ regenerated (frame a (drawing ds) once) = regenerated once
    /\ (regenerated once = regenerated this
        \/ regenerated once = regenerated this ++ enabled_updates this).
Proof.
  intros a ds this once.
  assert (Q : forallb is_painting (drawing ds) = true).
  { unfold drawing. induction ds as [|d ds IH]; [reflexivity|exact IH]. }
  assert (F : frame a (drawing ds) once = once).
  { set (B := _accsBackground a this).
    set (D := run (drawing ds) B).
    assert (HO : once = _updateAccsOutput D)
      by (unfold once; apply frame_unfold).
    clearbody once.
    assert (Ch : changed once = false)
      by (rewrite HO; apply changed_after_update).
    assert (Ps : pShapes (ingredients once)
                 = JSON.stringify (shapes (ingredients once)))
      by (symmetry; now apply changed_unchanged).
    destruct (drawing_run ds B B eq_refl eq_refl eq_refl eq_refl) as [FD _].
    fold D in FD.
    (* the instance after the first frame, field by field *)
    assert (So : shapes (ingredients once) = shapes (ingredients D))
      by (rewrite HO; apply shapes_updateAccsOutput).
    assert (Cd : colors (ingredients D) = colors (ingredients B)
                 /\ width D = width B /\ height D = height B)
      by (rewrite FD; repeat split; reflexivity).
    destruct (updateAccsOutput_view D) as (Cu & Wu & Hu).
    assert (Co : colors (ingredients once) = colors (ingredients B))
      by (rewrite HO, Cu; apply Cd).
    assert (Wo : width once = width B /\ height once = height B)
      by (rewrite HO, Wu, Hu; split; apply Cd).
    (* the second background call *)
    set (B2 := _accsBackground a once).
    assert (HB2 : B2 = set_shapes [] once).
    { unfold B2, _accsBackground.
      assert (T := accsBackground_twice a this). fold B in T.
      cbn [set_pShapes set_shapes set_ingredients ingredients colors].
      rewrite Co, T. cbn [negb]. rewrite <- Ps.
      destruct once as [w h i [sh c p] o r]. reflexivity. }
    destruct (drawing_run ds B2 B) as [FD2 E2].
    - rewrite HB2. apply Wo.
    - rewrite HB2. apply Wo.
    - rewrite HB2. exact Co.
    - rewrite HB2. unfold B. symmetry. apply shapes_accsBackground.
    - fold D in E2.
      assert (D2 : run (drawing ds) B2 = once).
      { rewrite FD2, E2, <- So, HB2.
        destruct once as [w h i [sh c p] o r]. reflexivity. }
      rewrite frame_unfold. fold B2. rewrite D2.
      now apply updateAccsOutput_unchanged. }
  split; [exact F|]. split; [now rewrite F|].
  destruct (frame_effect a (drawing ds) this Q) as (_ & _ & R & _).
  fold once in R. rewrite R.
  destruct (JSON.eqb _ _); [left; apply app_nil_r|right; reflexivity].
Qed.

(** X11.  A background call with nothing drawn after it makes the update
    regenerate when the registry held a shape and not when it was empty. A
    second background call right after the first takes its snapshot of the
    registry the first one emptied, so the update that follows finds nothing
    changed and regenerates nothing, whatever the registry held before the
    two calls. *)
Theorem background_clears :
  (forall (a : rgba) (this : p5),
      let after := _updateAccsOutput (_accsBackground a this) in
      shapes (ingredients after) = []
      /\ pShapes (ingredients after) = JSON.stringify []
      /\ regenerated after
         = regenerated this
           ++ match shapes (ingredients this) with
              | [] => []
              | _ :: _ => enabled_updates this
              end)
  /\ (forall (a b : rgba) (this : p5),
        let cleared := _accsBackground b (_accsBackground a this) in
        _updateAccsOutput cleared = cleared
        /\ regenerated (_updateAccsOutput cleared) = regenerated this
        /\ shapes (ingredients cleared) = []).
Proof.
  split.
  - intros a this after.
    destruct (frame_effect a [] this eq_refl) as (_ & S & R & P).
    unfold frame in S, R, P. cbn [app] in S, R, P.
    change (run [Background a; UpdateOutput] this) with after in S, R, P.
    change (run [] (_accsBackground a this))
      with (_accsBackground a this) in S, R.
    rewrite shapes_accsBackground in S, R.
    split; [exact S|]. split; [now rewrite P, S|].
    rewrite R. f_equal.
    destruct (shapes (ingredients this)) as [|[k l] [|kl sh]]; reflexivity.
  - intros a b this cleared.
    assert (C : changed cleared = false).
    { apply changed_unchanged. unfold cleared.
      destruct (accsBackground_frame b (_accsBackground a this)) as (P & _).
      now rewrite P, !shapes_accsBackground. }
    rewrite (updateAccsOutput_unchanged _ C).
    split; [reflexivity|]. split; [|apply shapes_accsBackground].
    unfold cleared.
    destruct (accsBackground_frame b (_accsBackground a this)) as (_ & R & _).
    destruct (accsBackground_frame a this) as (_ & R' & _).
    now rewrite R, R'.
Qed.

(** *** The text of a registry grows with the registry *)

Lemma commas_length (items : list json_text) :
  List.length (JSON.commas items)
  = list_sum (map (@List.length lexeme) items) + pred (List.length items).
Proof.
  induction items as [|v rest IH]; [reflexivity|].
  destruct rest as [|w rest].
  - cbn [JSON.commas map list_sum fold_right List.length pred]. lia.
  - change (JSON.commas (v :: w :: rest))
      with (v ++ Comma :: JSON.commas (w :: rest)).
    rewrite length_app. cbn [List.length]. rewrite IH.
    cbn [map list_sum fold_right List.length pred]. lia.
Qed.

Lemma array_length_snoc (l : list include) (i : include) :
  array_length l < array_length (l ++ [i]).
Proof.
  unfold array_length, JSON.array. cbn [List.length].
  rewrite !length_app, !commas_length, !length_map, map_app, map_app.
  rewrite list_sum_app, length_app. cbn [map list_sum fold_right List.length].
  assert (2 <= List.length (JSON.stringify_record i)).
  { unfold JSON.stringify_record, JSON.object. cbn [List.length].
    rewrite length_app. cbn [List.length]. lia. }
  assert (P := Nat.le_pred_l (List.length l)).
  rewrite (Nat.add_1_r (List.length l)), Nat.pred_succ.
  unfold json_text in *. lia.
Qed.

Lemma stringify_length (sh : registry) :
  List.length (JSON.stringify sh)
  = 2 + list_sum (map (fun kl => 2 + array_length (snd kl)) sh)
    + pred (List.length sh).
Proof.
  unfold JSON.stringify, JSON.object. cbn [List.length].
  rewrite length_app, commas_length, map_map, length_map. cbn [List.length].
  replace (map (fun x => List.length (JSON.member (kind_name (fst x))
                   (JSON.array (map JSON.stringify_record (snd x))))) sh)
    with (map (fun kl => 2 + array_length (snd kl)) sh); [lia|].
  apply map_ext. intros [k l]. reflexivity.
Qed.

Lemma stringify_length_new (f : kind) (i : include) (sh : registry) :
  List.length (JSON.stringify sh) < List.length (JSON.stringify (sh ++ [(f, [i])])).
Proof.
  rewrite !stringify_length, map_app, list_sum_app, length_app.
  cbn [map list_sum fold_right List.length snd]. lia.
Qed.

Lemma stringify_length_push (f : kind) (i : include) (sh : registry)
  (l : list include) :
  lookup f sh = Some l ->
  List.length (JSON.stringify sh) < List.length (JSON.stringify (push f i sh)).
Proof.
  intro H. rewrite !stringify_length.
  assert (L : List.length (push f i sh) = List.length sh).
  { rewrite <- (length_map fst (push f i sh)), names_push. apply length_map. }
  rewrite L.
  assert (S : list_sum (map (fun kl => 2 + array_length (snd kl)) sh)
              < list_sum (map (fun kl => 2 + array_length (snd kl))
                              (push f i sh))); [|lia].
  clear L. revert H. induction sh as [|[k l'] sh IH]; [discriminate|].
  cbn [lookup push]. destruct (kind_eqb k f); intro H.
  - cbn [map list_sum fold_right snd]. assert (A := array_length_snoc l' i).
    unfold list_sum. lia.
  - cbn [map list_sum fold_right snd]. specialize (IH H).
    unfold list_sum in *. lia.
Qed.

(** A registry that [store] changed prints differently. *)
Lemma stringify_store (f : kind) (i : include) (sh : registry) :
  JSON.eqb (JSON.stringify (store f i sh)) (JSON.stringify sh)
  = negb (adds f i sh).
Proof.
  unfold store, adds. destruct (lookup f sh) as [l|] eqn:H.
  - destruct (add i l); cbn [negb]; [|apply json_eqb_refl].
    apply json_eqb_neq. intro E.
    assert (A := stringify_length_push f i sh l H). rewrite E in A. lia.
  - cbn [negb]. apply json_eqb_neq. intro E.
    assert (A := stringify_length_new f i sh). rewrite E in A. lia.
Qed.

(** X7.  After an update, a shape that adds a record to the registry makes
    the next update regenerate every output that is on, and a shape whose
    record is already there makes it do nothing: a new record is always
    announced and a repeated one never is. *)
Theorem new_record_regenerates :
  forall (f : kind) (args : list jsval) (this : p5),
    let synced := _updateAccsOutput this in
    let k := reclassify f args in
    let drawn := _accsOutput f args synced in
    let after := _updateAccsOutput drawn in
    let added := adds k (describe k args synced) (shapes (ingredients synced)) in
    changed drawn = added
    /\ (added = false <-> drawn = synced)
    /\ regenerated after
       = regenerated synced ++ (if added then enabled_updates synced else [])
    /\ (added = false -> after = synced)
    /\ pShapes (ingredients after) = JSON.stringify (shapes (ingredients drawn)).
Proof.
  intros f args this synced k drawn after added.
  assert (Sy : changed synced = false) by apply changed_after_update.
  assert (Ps : pShapes (ingredients synced)
               = JSON.stringify (shapes (ingredients synced)))
    by (symmetry; now apply changed_unchanged).
  assert (Fr : drawn = set_shapes (shapes (ingredients drawn)) synced)
    by apply accsOutput_frame.
  assert (Sh : shapes (ingredients drawn)
               = store k (describe k args synced) (shapes (ingredients synced)))
    by apply shapes_accsOutput.
  assert (Ch : changed drawn = added).
  { unfold changed. rewrite Fr at 2. cbn [set_shapes set_ingredients
      ingredients pShapes]. rewrite Ps, Sh, stringify_store.
    apply negb_involutive. }
  assert (Eq : added = false <-> drawn = synced).
  { split; intro H.
    - rewrite Fr, Sh. unfold store. unfold added, adds in H.
      destruct (lookup k (shapes (ingredients synced))); [|discriminate].
      rewrite H. apply set_shapes_same.
    - rewrite <- Ch, H. exact Sy. }
  clearbody synced.
  split; [exact Ch|]. split; [exact Eq|]. split; [|split].
  - unfold after. rewrite updateAccsOutput_unfold, Ch.
    destruct added; cbn [regenerated].
    + rewrite Fr. reflexivity.
    + rewrite (proj1 Eq eq_refl). now rewrite app_nil_r.
  - intro H. unfold after. rewrite (proj1 Eq H).
    now apply updateAccsOutput_unchanged.
  - unfold after. rewrite <- (shapes_updateAccsOutput drawn).
    symmetry. apply changed_unchanged, changed_after_update.
Qed.

(** *** Which records print the same *)

Lemma number_singleton (x : float) :
  exists a, JSON.number x = [a] /\ (a = LNull \/ exists y, a = LNumber y).
Proof.
  unfold JSON.number.
  destruct (is_nan x || is_infinity x); [exists LNull; now split; [|left]|].
  destruct (is_zero x); eexists; (split; [reflexivity|right; eexists; reflexivity]).
Qed.

Lemma value_prefix (v w : propval) (rest rest' : json_text) :
  JSON.value v ++ rest = JSON.value w ++ rest' ->
  JSON.value v = JSON.value w /\ rest = rest'.
Proof.
  destruct v as [s|x|[x y]], w as [t|x'|[x' y']];
    cbn [JSON.value JSON.object JSON.member JSON.commas locX locY app];
    try destruct (number_singleton x) as (a & -> & Ha);
    try destruct (number_singleton y) as (b & -> & Hb);
    try destruct (number_singleton x') as (a' & -> & Ha');
    try destruct (number_singleton y') as (b' & -> & Hb');
    cbn [app]; intro H;
    try (injection H; intros; subst; now split);
    try discriminate H;
    repeat match goal with
           | Q : _ \/ _ |- _ => destruct Q as [Q|[? Q]]; subst
           end;
    discriminate H.
Qed.

Lemma commas_members (kv : string * propval) (r : include) :
  JSON.commas (members (kv :: r)) ++ [RBrace]
  = LString (fst kv) :: Colon :: JSON.value (snd kv) ++ after_member r.
Proof.
  destruct r as [|kv' r].
  - reflexivity.
  - change (JSON.commas (members (kv :: kv' :: r)))
      with (JSON.member (fst kv) (JSON.value (snd kv))
            ++ Comma :: JSON.commas (members (kv' :: r))).
    unfold JSON.member. cbn [app after_member].
    now rewrite <- app_assoc.
Qed.

Lemma members_injective (r : include) :
  forall r' : include,
    JSON.commas (members r) ++ [RBrace] = JSON.commas (members r') ++ [RBrace] ->
    same_members r r'.
Proof.
  induction r as [|kv r IH]; intros [|kv' r'] H.
  - constructor.
  - rewrite commas_members in H. discriminate H.
  - rewrite commas_members in H. discriminate H.
  - rewrite !commas_members in H. injection H as Hk Hv.
    apply value_prefix in Hv. destruct Hv as [Hv Ht].
    constructor; [split; assumption|].
    apply IH. destruct r as [|a r], r' as [|a' r']; cbn [after_member] in Ht.
    + reflexivity.
    + discriminate Ht.
    + discriminate Ht.
    + now injection Ht.
Qed.

Lemma stringify_record_same (r r' : include) :
  JSON.stringify_record r = JSON.stringify_record r' <-> same_members r r'.
Proof.
  change (JSON.stringify_record r)
    with (LBrace :: JSON.commas (members r) ++ [RBrace]).
  change (JSON.stringify_record r')
    with (LBrace :: JSON.commas (members r') ++ [RBrace]).
  split; intro H.
  - apply members_injective. now injection H.
  - assert (M : members r = members r'); [|now rewrite M].
    unfold members.
    induction H as [|[k v] [k' v'] r r' [Hk Hv] _ IH]; [reflexivity|].
    cbn [map fst snd] in *. unfold same_value in Hv. now rewrite Hk, Hv, IH.
Qed.

(** A zero is neither NaN nor infinite. *)
Lemma zero_not_null (x : float) :
  is_zero x = true -> is_nan x || is_infinity x = true -> False.
Proof.
  unfold is_zero, is_nan, is_infinity.
  rewrite !eqb_spec, abs_spec. 
  destruct (Prim2SF x) as [s|s| |s m e]; cbn; try discriminate;
    destruct s; discriminate.
Qed.

(** X8.  A record is discarded exactly when the array of its kind holds a
    record with the same keys in the same order whose values print the same.
    Numbers print the same when they are equal, when both are zeros (of
    either sign) and when both are NaN or infinite, which all print as
    [null]; a string, a number and a grid cell never print alike. *)
Theorem discarded_when_printed_alike :
  (forall (i : include) (l : list include),
      add i l = false <-> exists r, In r l /\ same_members r i)
  /\ (forall r r' : include,
        JSON.stringify_record r = JSON.stringify_record r'
        <-> same_members r r')
  /\ (forall x y : float,
        same_value (PNum x) (PNum y)
        <-> (x = y
             \/ (is_zero x = true /\ is_zero y = true)
             \/ (prints_null x = true /\ prints_null y = true)))
  /\ (forall s t : string, same_value (PStr s) (PStr t) <-> s = t)
  /\ (forall a b : locxy,
        same_value (PLoc a) (PLoc b)
        <-> (same_value (PNum (locX a)) (PNum (locX b))
             /\ same_value (PNum (locY a)) (PNum (locY b))))
  /\ (forall (s : string) (x : float) (a : locxy),
        ~ same_value (PStr s) (PNum x) /\ ~ same_value (PStr s) (PLoc a)
        /\ ~ same_value (PNum x) (PLoc a)).
Proof.
  split; [|split; [exact stringify_record_same|]].
  { intros i l. unfold add. rewrite scan_fold. cbn [andb].
    rewrite negb_false_iff, existsb_exists.
    split; intros (r & Hr & E); exists r; (split; [exact Hr|]).
    - now apply stringify_record_same, json_eqb_eq.
    - now apply json_eqb_eq, stringify_record_same. }
  split.
  { intros x y. unfold same_value, prints_null. cbn [JSON.value].
    unfold JSON.number.
    destruct (is_nan x || is_infinity x) eqn:Nx,
             (is_nan y || is_infinity y) eqn:Ny.
    - split; [intros _; right; right; now split|reflexivity].
    - split; [destruct (is_zero y); discriminate|].
      intros [E|[[Zx Zy]|[_ F]]]; [|exfalso|discriminate F].
      + subst y. rewrite Nx in Ny. discriminate Ny.
      + apply (zero_not_null x Zx Nx).
    - split; [destruct (is_zero x); discriminate|].
      intros [E|[[Zx Zy]|[F _]]]; [|exfalso|discriminate F].
      + subst y. rewrite Nx in Ny. discriminate Ny.
      + apply (zero_not_null y Zy Ny).
    - destruct (is_zero x) eqn:Zx, (is_zero y) eqn:Zy.
      + split; [intros _; right; left; now split|reflexivity].
      + split; [intro E; injection E as E; subst y; discriminate Zy|].
        intros [E|[[_ F]|[F _]]]; [|discriminate F|discriminate F].
        subst y. rewrite Zx in Zy. discriminate Zy.
      + split; [intro E; injection E as E; subst x; discriminate Zx|].
        intros [E|[[F _]|[F _]]]; [|discriminate F|discriminate F].
        subst y. rewrite Zx in Zy. discriminate Zy.
      + split; [intro E; injection E as E; now left|].
        intros [E|[[F _]|[F _]]]; [now subst|discriminate F|discriminate F]. }
  split.
  { intros s t. unfold same_value. cbn [JSON.value].
    split; [intro E; now injection E|now intros ->]. }
  split.
  { intros [x y] [x' y']. unfold same_value.
    cbn [JSON.value JSON.object JSON.member JSON.commas locX locY app].
    destruct (number_singleton x) as (a & -> & _).
    destruct (number_singleton y) as (b & -> & _).
    destruct (number_singleton x') as (a' & -> & _).
    destruct (number_singleton y') as (b' & -> & _).
    cbn [app]. split.
    - intro E. injection E as -> ->. now split.
    - intros [E1 E2]. injection E1 as ->. injection E2 as ->. reflexivity. }
  intros s x [lx ly]. unfold same_value.
  cbn [JSON.value JSON.object JSON.member JSON.commas locX locY app].
  destruct (number_singleton x) as (a & -> & [->|[y ->]]);
    repeat split; discriminate.
Qed.

(** *** What no call changes *)

Lemma step_frame (this : p5) (c : call) :
  width (step this c) = width this
  /\ height (step this c) = height this
  /\ canvas_id (step this c) = canvas_id this
  /\ _accessibleOutputs (step this c) = _accessibleOutputs this
  /\ exists l, regenerated (step this c) = regenerated this ++ l
               /\ (l = []
                   \/ (c = UpdateOutput /\ l = enabled_updates this)).
Proof.
  destruct c as [f args|f args|args|]; cbv [step].
  - rewrite accsOutput_frame.
    repeat split; try reflexivity. exists []. split; [|now left].
    symmetry. apply app_nil_r.
  - destruct (accsCanvasColors_frame f args this) as [-> | [c ->]];
      (repeat split; try reflexivity; exists []; split; [|now left];
       symmetry; apply app_nil_r).
  - destruct (accsBackground_frame args this) as (_ & R & O & I).
    assert (W : width (_accsBackground args this) = width this
                /\ height (_accsBackground args this) = height this).
    { unfold _accsBackground.
      cbn [set_pShapes set_shapes set_ingredients ingredients colors].
      destruct (negb _); split; reflexivity. }
    repeat split; try tauto. exists []. split; [|now left].
    now rewrite app_nil_r.
  - rewrite updateAccsOutput_unfold.
    destruct (changed this); repeat split; try reflexivity.
    + exists (enabled_updates this). split; [reflexivity|now right].
    + exists []. split; [|now left]. symmetry. apply app_nil_r.
Qed.

(** X13.  No call into the module changes the size or the identifier of the
    canvas or switches an output on or off, and the record of regenerations
    only grows at its end: by the outputs that are on, at an update call,
    and by nothing at any other call. A run regenerates at most as many
    times as it holds update calls. *)
Theorem module_frame :
  forall (cs : list call) (this : p5),
    width (run cs this) = width this
    /\ height (run cs this) = height this
    /\ canvas_id (run cs this) = canvas_id this
    /\ _accessibleOutputs (run cs this) = _accessibleOutputs this
    /\ exists l, regenerated (run cs this) = regenerated this ++ l
                 /\ List.length l <= updates cs * outputs_on this.
Proof.
  induction cs as [|c cs IH]; intro this.
  - repeat split. exists []. split; [symmetry; apply app_nil_r|].
    cbn. lia.
  - destruct (step_frame this c) as (W & H & I & O & l & R & Hl).
    destruct (IH (step this c)) as (W' & H' & I' & O' & l' & R' & Hl').
    unfold run in *. cbn [fold_left].
    split; [congruence|]. split; [congruence|]. split; [congruence|].
    split; [congruence|].
    exists (l ++ l'). split; [now rewrite R', R, app_assoc|].
    assert (E : outputs_on (step this c) = outputs_on this).
    { unfold outputs_on, enabled_updates. now rewrite O, I. }
    rewrite E in Hl'. rewrite length_app. unfold updates in *.
    destruct Hl as [->|[-> ->]].
    + cbn [List.length]. destruct c; cbn [filter]; cbn [List.length]; lia.
    + cbn [filter List.length]. fold (outputs_on this). lia.
Qed.

(** X14.  Colours are compared by name: a fill or stroke call with an array
    whose name is the one already recorded leaves every record that is built
    afterwards as it was before the call, so a shape drawn again after such
    a call is a duplicate and is discarded. *)
Theorem same_name_same_record :
  forall (g : string) (newc : rgba) (this : p5),
    let c := colors (ingredients this) in
    let recoloured := _accsCanvasColors g newc this in
    (g = "fill" -> _rgbColorName newc = fill c)
    /\ (g = "stroke" -> _rgbColorName newc = stroke c) ->
    (forall (k : kind) (args : list jsval),
        describe k args recoloured = describe k args this)
    /\ (forall (f : kind) (args : list jsval),
          shapes (ingredients
                    (_accsOutput f args
                       (_accsCanvasColors g newc (_accsOutput f args this))))
          = shapes (ingredients (_accsOutput f args this))).
Proof.
  intros g newc this c recoloured [Hf Hs].
  assert (N : forall s : p5,
             fill (colors (ingredients s)) = fill c ->
             stroke (colors (ingredients s)) = stroke c ->
             width s = width this -> height s = height this ->
             forall k args,
               describe k args (_accsCanvasColors g newc s)
               = describe k args this).
  { intros s Ef Es W H k args. unfold describe, _accsCanvasColors.
    destruct (String.eqb_spec g "fill") as [Eg|Eg];
      [|destruct (String.eqb_spec g "stroke") as [Eg'|Eg']].
    - destruct (negb _);
        cbn [set_colors set_ingredients ingredients colors fill stroke
             width height];
        rewrite ?(Hf Eg), ?Ef, Es, W, H; reflexivity.
    - destruct (negb _);
        cbn [set_colors set_ingredients ingredients colors fill stroke
             width height];
        rewrite ?(Hs Eg'), Ef, ?Es, W, H; reflexivity.
    - now rewrite Ef, Es, W, H. }
  split.
  - intros k args. now apply N.
  - intros f args.
    set (once := _accsOutput f args this).
    assert (Fr : once = set_shapes (shapes (ingredients once)) this)
      by apply accsOutput_frame.
    rewrite shapes_accsOutput, shapes_accsCanvasColors.
    rewrite (N once); try (rewrite Fr; reflexivity).
    unfold once at 2. rewrite shapes_accsOutput.
    apply store_twice.
Qed.

End Sketch.

(** ** Facts about binary64 numbers *)

Lemma SFcompare_refl (x : spec_float) :
  SFcompare x x = match x with S754_nan => None | _ => Some Eq end.
Proof.
  destruct x as [s|s| |s m e]; simpl; try reflexivity.
  - now destruct s.
  - rewrite Z.compare_refl, Pos.compare_cont_refl. now destruct s.
Qed.

Lemma SFcompare_antisym (x y : spec_float) :
  SFcompare y x = option_map CompOpp (SFcompare x y).
Proof.
  destruct x as [s|s| |s m e], y as [s'|s'| |s' m' e']; simpl;
    try reflexivity;
    try (destruct s; reflexivity);
    try (destruct s'; reflexivity);
    try (destruct s, s'; reflexivity).
  rewrite (Z.compare_antisym e e').
  change (Pos.compare_cont Eq m' m)
    with (Pos.compare_cont (CompOpp Eq) m' m).
  rewrite <- (Pos.compare_cont_antisym m m' Eq).
  destruct s, s'; simpl; try reflexivity;
    destruct (e ?= e')%Z; simpl; try reflexivity;
    now destruct (Pos.compare_cont Eq m m').
Qed.

Lemma ltb_irrefl (x : float) : (x <? x)%float = false.
Proof.
  rewrite ltb_spec. unfold SFltb. rewrite SFcompare_refl.
  now destruct (Prim2SF x).
Qed.

Lemma leb_ltb_false (x y : float) :
  (x <=? y)%float = true -> (y <? x)%float = false.
Proof.
  rewrite leb_spec, ltb_spec. unfold SFleb, SFltb.
  rewrite (SFcompare_antisym (Prim2SF x) (Prim2SF y)).
  now destruct (SFcompare (Prim2SF x) (Prim2SF y)) as [[]|].
Qed.

(** A number that [=?] finds equal to a finite nonzero number is that
    number. *)
Lemma SFeqb_finite (x : spec_float) (s : bool) (m : positive) (e : Z) :
  SFeqb x (S754_finite s m e) = true -> x = S754_finite s m e.
Proof.
  unfold SFeqb. destruct x as [s'|s'| |s' m' e']; simpl;
    try discriminate; try (destruct s'; discriminate);
    try (destruct s; discriminate).
  intro H.
  assert (He : (e' ?= e)%Z = Eq)
    by (destruct s', s, (e' ?= e)%Z; (reflexivity || discriminate)).
  assert (Hm : Pos.compare_cont Eq m' m = Eq)
    by (rewrite He in H;
        destruct s', s, (Pos.compare_cont Eq m' m);
        (reflexivity || discriminate)).
  assert (Hs : s' = s) by (destruct s', s; (reflexivity || discriminate)).
  apply Z.compare_eq in He. apply Pos.compare_eq in Hm. now subst.
Qed.

Lemma digits2_pos_bounds (p : positive) :
  (2 ^ (Z.pos (digits2_pos p) - 1) <= Z.pos p < 2 ^ Z.pos (digits2_pos p))%Z.
Proof.
  induction p as [p IH|p IH|]; simpl digits2_pos.
  - rewrite Pos2Z.inj_succ, (Pos2Z.inj_xI p).
    replace (Z.succ (Z.pos (digits2_pos p)) - 1)%Z
      with (Z.succ (Z.pos (digits2_pos p) - 1))%Z by lia.
    rewrite !Z.pow_succ_r by lia. lia.
  - rewrite Pos2Z.inj_succ, (Pos2Z.inj_xO p).
    replace (Z.succ (Z.pos (digits2_pos p)) - 1)%Z
      with (Z.succ (Z.pos (digits2_pos p) - 1))%Z by lia.
    rewrite !Z.pow_succ_r by lia. lia.
  - simpl. lia.
Qed.

(** The number of binary digits of a positive integer is determined by the
    powers of two around it. *)
Lemma digits2_pos_unique (p : positive) (d : Z) :
  (2 ^ (d - 1) <= Z.pos p < 2 ^ d)%Z -> (0 < d)%Z -> Z.pos (digits2_pos p) = d.
Proof.
  intros [Hlo Hhi] Hd.
  destruct (digits2_pos_bounds p) as [Glo Ghi].
  assert (A : (d - 1 < Z.pos (digits2_pos p))%Z).
  { apply (Z.pow_lt_mono_r_iff 2); lia. }
  assert (B : (Z.pos (digits2_pos p) - 1 < d)%Z).
  { apply (Z.pow_lt_mono_r_iff 2); lia. }
  lia.
Qed.

(** The mantissa and exponent of a finite nonzero float: at most 53 digits,
    and exactly 53 unless the exponent is the least one. *)
Lemma finite_canonical (x : float) (s : bool) (m : positive) (e : Z) :
  Prim2SF x = S754_finite s m e ->
  (Z.pos (digits2_pos m) <= 53 /\ -1074 <= e <= 971
   /\ (-1074 < e -> Z.pos (digits2_pos m) = 53))%Z.
Proof.
  intro H. assert (V := Prim2SF_valid x). rewrite H in V.
  unfold SpecFloat.valid_binary, bounded, canonical_mantissa, fexp,
    SpecFloat.emin, prec, emax in V.
  apply andb_true_iff in V. destruct V as [V1 V2].
  apply Z.eqb_eq in V1. apply Z.leb_le in V2. lia.
Qed.

Lemma finite_mantissa (x : float) (s : bool) (m : positive) (e : Z) :
  Prim2SF x = S754_finite s m e ->
  (Z.pos m < 2 ^ 53 /\ (-1074 < e -> 2 ^ 52 <= Z.pos m))%Z.
Proof.
  intro H. destruct (finite_canonical x s m e H) as (Hd & He & Hn).
  destruct (digits2_pos_bounds m) as [Glo Ghi]. split.
  - apply (Z.lt_le_trans _ _ _ Ghi). apply Z.pow_le_mono_r; lia.
  - intro L. rewrite (Hn L) in Glo. exact Glo.
Qed.

Lemma iter_xO_value (p k : positive) :
  Z.pos (Pos.iter xO p k) = (Z.pos p * 2 ^ Z.pos k)%Z.
Proof.
  induction k as [|k IH] using Pos.peano_ind.
  - simpl. lia.
  - rewrite Pos.iter_succ, Pos2Z.inj_xO, IH, Pos2Z.inj_succ.
    rewrite Z.pow_succ_r by lia. lia.
Qed.

Lemma iter_xO_digits (p k : positive) :
  digits2_pos (Pos.iter xO p k) = (digits2_pos p + k)%positive.
Proof.
  induction k as [|k IH] using Pos.peano_ind.
  - simpl. lia.
  - rewrite Pos.iter_succ. simpl. rewrite IH. lia.
Qed.

(** Rounding a mantissa of 53 digits changes nothing. *)
Lemma binary_round_aux_exact (s : bool) (m : positive) (e : Z) :
  Z.pos (digits2_pos m) = 53%Z -> (-1074 <= e <= 971)%Z ->
  binary_round_aux prec emax s (Z.pos m) e loc_Exact = S754_finite s m e.
Proof.
  intros Hd He.
  assert (F : (fexp prec emax (Zdigits2 (Z.pos m) + e) - e = 0)%Z).
  { unfold fexp, SpecFloat.emin, prec, emax. simpl Zdigits2. lia. }
  unfold binary_round_aux, shr_fexp.
  cbn [shr_record_of_loc]. rewrite F. cbn [shr shr_m loc_of_shr_record round_nearest_even].
  rewrite F. cbn [shr shr_m].
  replace (e <=? emax - prec)%Z with true; [reflexivity|].
  symmetry. apply Z.leb_le. unfold prec, emax. lia.
Qed.

Lemma valid_normal (s : bool) (m : positive) (e : Z) :
  Z.pos (digits2_pos m) = 53%Z -> (-1074 <= e <= 971)%Z ->
  valid_binary (S754_finite s m e) = true.
Proof.
  intros Hd He.
  unfold SpecFloat.valid_binary, bounded, canonical_mantissa, fexp,
    SpecFloat.emin, prec, emax.
  apply andb_true_iff. split; [apply Z.eqb_eq | apply Z.leb_le]; lia.
Qed.

Lemma digits2_pos_le (p : positive) (n : Z) :
  (Z.pos p < 2 ^ n)%Z -> (0 <= n)%Z -> (Z.pos (digits2_pos p) <= n)%Z.
Proof.
  intros Hp Hn. destruct (digits2_pos_bounds p) as [Glo Ghi].
  assert (A : (Z.pos (digits2_pos p) - 1 < n)%Z)
    by (apply (Z.pow_lt_mono_r_iff 2); lia).
  lia.
Qed.

(** An integer below [2^53] in magnitude is a float: [of_Z] loses
    nothing. *)
Lemma binary_round_integer (s : bool) (p : positive) :
  (Z.pos p < 2 ^ 53)%Z ->
  exists mz : positive,
    binary_round prec emax s p 0
    = S754_finite s mz (Z.pos (digits2_pos p) - 53)
    /\ Z.pos mz = (Z.pos p * 2 ^ (53 - Z.pos (digits2_pos p)))%Z
    /\ Z.pos (digits2_pos mz) = 53%Z.
Proof.
  intro Hp.
  destruct (digits2_pos_bounds p) as [Glo Ghi].
  assert (Hd : (Z.pos (digits2_pos p) <= 53)%Z)
    by (apply digits2_pos_le; lia).
  assert (F : (fexp prec emax (Z.pos (digits2_pos p) + 0) - 0
               = Z.pos (digits2_pos p) - 53)%Z).
  { unfold fexp, SpecFloat.emin, prec, emax. lia. }
  unfold binary_round, shl_align. rewrite F.
  destruct (Z.pos (digits2_pos p) - 53)%Z as [|k|k] eqn:E; [|lia|].
  - exists p. split; [|split].
    + apply binary_round_aux_exact; lia.
    + replace (53 - Z.pos (digits2_pos p))%Z with 0%Z by lia. lia.
    + lia.
  - exists (Pos.iter xO p k). split; [|split].
    + replace (fexp prec emax (Z.pos (digits2_pos p) + 0)) with (Z.neg k)
        by (unfold fexp, SpecFloat.emin, prec, emax; lia).
      apply binary_round_aux_exact; [|lia].
      rewrite iter_xO_digits. lia.
    + rewrite iter_xO_value. f_equal. f_equal. lia.
    + rewrite iter_xO_digits. lia.
Qed.

Lemma of_Z_pos (p : positive) :
  (Z.pos p < 2 ^ 53)%Z ->
  exists mz : positive,
    Prim2SF (Num.of_Z (Z.pos p))
    = S754_finite false mz (Z.pos (digits2_pos p) - 53)
    /\ Z.pos mz = (Z.pos p * 2 ^ (53 - Z.pos (digits2_pos p)))%Z.
Proof.
  intro Hp. destruct (binary_round_integer false p Hp) as (mz & H1 & H2 & H3).
  exists mz. split; [|exact H2].
  unfold Num.of_Z, binary_normalize. rewrite H1.
  apply Prim2SF_SF2Prim. apply valid_normal; [exact H3|].
  assert (Hd : (Z.pos (digits2_pos p) <= 53)%Z)
    by (apply digits2_pos_le; lia).
  lia.
Qed.

Lemma of_Z_neg (p : positive) :
  (Z.pos p < 2 ^ 53)%Z ->
  exists mz : positive,
    Prim2SF (Num.of_Z (Z.neg p))
    = S754_finite true mz (Z.pos (digits2_pos p) - 53).
Proof.
  intro Hp. destruct (binary_round_integer true p Hp) as (mz & H1 & H2 & H3).
  exists mz.
  unfold Num.of_Z, binary_normalize. rewrite H1.
  apply Prim2SF_SF2Prim. apply valid_normal; [exact H3|].
  assert (Hd : (Z.pos (digits2_pos p) <= 53)%Z)
    by (apply digits2_pos_le; lia).
  lia.
Qed.

Lemma SFcompare_positive (m m' : positive) (e e' : Z) :
  SFcompare (S754_finite false m e) (S754_finite false m' e')
  = Some match (e ?= e')%Z with
         | Eq => (Z.pos m ?= Z.pos m')%Z
         | r => r
         end.
Proof. simpl. now destruct (e ?= e')%Z. Qed.

Lemma Prim2SF_9 : Prim2SF 9 = S754_finite false 5066549580791808 (-49).
Proof. reflexivity. Qed.

Lemma Prim2SF_10 : Prim2SF 10 = S754_finite false 5629499534213120 (-49).
Proof. reflexivity. Qed.

Lemma Prim2SF_11 : Prim2SF 11 = S754_finite false 6192449487634432 (-49).
Proof. reflexivity. Qed.

Lemma Prim2SF_0 : Prim2SF 0 = S754_zero false.
Proof. reflexivity. Qed.

(** A float that [=?] finds equal to 10 is 10, and one less is 9. *)
Lemma eqb_10 (i : float) : (i =? 10)%float = true -> i = 10%float.
Proof.
  rewrite eqb_spec, Prim2SF_10. intro H.
  apply SFeqb_finite in H. apply Prim2SF_inj. now rewrite H, Prim2SF_10.
Qed.

Lemma clamp_10 (i : float) :
  clamp i = if (i =? 10)%float then 9%float else i.
Proof.
  unfold clamp. destruct (i =? 10)%float eqn:E; [|reflexivity].
  apply eqb_10 in E. now subst.
Qed.

(** Comparisons of a positive finite float with 0, 9, 10 and 11, by its
    mantissa and exponent. *)
Section PositiveFinite.

Variable v : float.
Variable m : positive.
Variable e : Z.
Hypothesis Hv : Prim2SF v = S754_finite false m e.

Lemma positive_leb_0 : (0 <=? v)%float = true.
Proof. now rewrite leb_spec, Prim2SF_0, Hv. Qed.

Lemma positive_leb_9 :
  (v <=? 9)%float
  = match (e ?= -49)%Z with
    | Lt => true
    | Eq => (Z.pos m <=? 5066549580791808)%Z
    | Gt => false
    end.
Proof.
  rewrite leb_spec, Prim2SF_9, Hv. unfold SFleb.
  rewrite SFcompare_positive. destruct (e ?= -49)%Z.
  - unfold Z.leb. now destruct (Z.pos m ?= 5066549580791808)%Z.
  - reflexivity.
  - reflexivity.
Qed.

Lemma positive_eqb_10 :
  (v =? 10)%float
  = match (e ?= -49)%Z with
    | Eq => (Z.pos m =? 5629499534213120)%Z
    | _ => false
    end.
Proof.
  rewrite eqb_spec, Prim2SF_10, Hv. unfold SFeqb.
  rewrite SFcompare_positive. destruct (e ?= -49)%Z.
  - destruct (Z.eqb_spec (Z.pos m) 5629499534213120) as [E|E].
    + now rewrite E, Z.compare_refl.
    + destruct (Z.compare_spec (Z.pos m) 5629499534213120);
        [contradiction | reflexivity | reflexivity].
  - reflexivity.
  - reflexivity.
Qed.

Lemma positive_ltb_11 :
  (v <? 11)%float
  = match (e ?= -49)%Z with
    | Lt => true
    | Eq => (Z.pos m <? 6192449487634432)%Z
    | Gt => false
    end.
Proof.
  rewrite ltb_spec, Prim2SF_11, Hv. unfold SFltb.
  rewrite SFcompare_positive. destruct (e ?= -49)%Z.
  - unfold Z.ltb. now destruct (Z.pos m ?= 6192449487634432)%Z.
  - reflexivity.
  - reflexivity.
Qed.

Lemma positive_eqb_refl : (v =? v)%float = true.
Proof.
  rewrite eqb_spec, Hv. unfold SFeqb. now rewrite SFcompare_refl.
Qed.

End PositiveFinite.

(** [Math.floor] of a finite nonzero float. *)
Lemma Math_floor_finite (q : float) (s : bool) (m : positive) (e : Z) :
  Prim2SF q = S754_finite s m e ->
  Num.Math_floor q
  = if (0 <=? e)%Z then q
    else if ((if s then Z.neg m else Z.pos m) / 2 ^ (- e) =? 0)%Z then zero
         else Num.of_Z ((if s then Z.neg m else Z.pos m) / 2 ^ (- e)).
Proof. intro H. unfold Num.Math_floor. now rewrite H. Qed.

(** The floor of a positive float that is at least 1: the mantissa with
    its fractional bits cleared, at the same exponent. *)
Lemma Math_floor_positive (q : float) (m : positive) (e : Z) :
  Prim2SF q = S754_finite false m e -> (e < 0)%Z ->
  (0 < Z.pos m / 2 ^ (- e))%Z ->
  (-53 < e)%Z
  /\ exists mz : positive,
       Prim2SF (Num.Math_floor q) = S754_finite false mz e
       /\ Z.pos mz = (Z.pos m / 2 ^ (- e) * 2 ^ (- e))%Z
       /\ Num.Math_floor (Num.Math_floor q) = Num.Math_floor q.
Proof.
  intros Hq He Hz.
  destruct (finite_mantissa q false m e Hq) as [Hm Hn].
  assert (Hk : (0 < 2 ^ (- e))%Z) by (apply Z.pow_pos_nonneg; lia).
  assert (Hge : (2 ^ (- e) <= Z.pos m)%Z).
  { destruct (Z.le_gt_cases (2 ^ (- e)) (Z.pos m)) as [L|G]; [exact L|].
    rewrite Z.div_small in Hz; lia. }
  assert (He' : (- e < 53)%Z).
  { apply (Z.pow_lt_mono_r_iff 2); lia. }
  split; [lia|].
  assert (Hlo : (2 ^ 52 <= Z.pos m)%Z) by (apply Hn; lia).
  assert (P52 : (2 ^ 52 = 2 ^ (52 + e) * 2 ^ (- e))%Z).
  { rewrite <- Z.pow_add_r by lia. f_equal. lia. }
  assert (P53 : (2 ^ 53 = 2 ^ (53 + e) * 2 ^ (- e))%Z).
  { rewrite <- Z.pow_add_r by lia. f_equal. lia. }
  assert (Zlo : (2 ^ (52 + e) <= Z.pos m / 2 ^ (- e))%Z).
  { apply Z.div_le_lower_bound; [exact Hk|]. rewrite Z.mul_comm. lia. }
  assert (Zhi : (Z.pos m / 2 ^ (- e) < 2 ^ (53 + e))%Z).
  { apply Z.div_lt_upper_bound; [exact Hk|]. rewrite Z.mul_comm. lia. }
  rewrite (Math_floor_finite q false m e Hq).
  destruct (Z.leb_spec 0 e) as [L|_]; [lia|].
  destruct (Z.pos m / 2 ^ (- e))%Z as [|p|p] eqn:Ep; [lia| |lia].
  cbn [Z.eqb].
  assert (Hp : (Z.pos p < 2 ^ 53)%Z).
  { apply (Z.lt_le_trans _ _ _ Zhi). apply Z.pow_le_mono_r; lia. }
  assert (Hd : Z.pos (digits2_pos p) = (53 + e)%Z).
  { apply digits2_pos_unique; [|lia].
    replace (53 + e - 1)%Z with (52 + e)%Z by lia. lia. }
  destruct (of_Z_pos p Hp) as (mz & H1 & H2).
  rewrite Hd in H1, H2.
  replace (53 + e - 53)%Z with e in H1 by lia.
  replace (53 - (53 + e))%Z with (- e)%Z in H2 by lia.
  exists mz. split; [exact H1|]. split; [exact H2|].
  rewrite (Math_floor_finite _ false mz e H1).
  destruct (Z.leb_spec 0 e) as [L|_]; [lia|].
  rewrite H2, Z.div_mul by lia. reflexivity.
Qed.

(** A negative finite float is not a grid index, clamped or not. *)
Lemma negative_not_grid (v : float) (m : positive) (e : Z) :
  Prim2SF v = S754_finite true m e -> grid_index (clamp v) = false.
Proof.
  intro Hv.
  assert (H10 : (v =? 10)%float = false)
    by now rewrite eqb_spec, Prim2SF_10, Hv.
  assert (H0 : (0 <=? v)%float = false)
    by now rewrite leb_spec, Prim2SF_0, Hv.
  rewrite clamp_10, H10. unfold grid_index. now rewrite H0.
Qed.

(** Which floats the locator turns into a grid index: those from 0 up to,
    but not including, 11. *)
Lemma grid_index_clamp_floor (q : float) :
  grid_index (clamp (Num.Math_floor q)) = ((0 <=? q) && (q <? 11))%float.
Proof.
  destruct (Prim2SF q) as [s|s| |s m e] eqn:Hq.
  - assert (E : q = SF2Prim (S754_zero s))
      by (rewrite <- Hq; symmetry; apply SF2Prim_Prim2SF).
    clear Hq. subst q. now destruct s.
  - assert (E : q = SF2Prim (S754_infinity s))
      by (rewrite <- Hq; symmetry; apply SF2Prim_Prim2SF).
    clear Hq. subst q. now destruct s.
  - assert (E : q = SF2Prim S754_nan)
      by (rewrite <- Hq; symmetry; apply SF2Prim_Prim2SF).
    clear Hq. subst q. reflexivity.
  - assert (Hk : (0 < 2 ^ (- e))%Z \/ (0 <= e)%Z).
    { destruct (Z.le_gt_cases 0 e); [now right|left].
      apply Z.pow_pos_nonneg; lia. }
    destruct (finite_mantissa q s m e Hq) as [Hm Hn].
    destruct s.
    + (* negative *)
      replace (0 <=? q)%float with false
        by now rewrite leb_spec, Prim2SF_0, Hq.
      rewrite andb_false_l.
      rewrite (Math_floor_finite q true m e Hq).
      destruct (Z.leb_spec 0 e) as [L|L].
      * exact (negative_not_grid q m e Hq).
      * destruct Hk as [Hk|]; [|lia].
        assert (Zhi : (Z.neg m / 2 ^ (- e) < 0)%Z)
          by (apply Z.div_lt_upper_bound; lia).
        assert (Zlo : (Z.neg m <= Z.neg m / 2 ^ (- e))%Z)
          by (apply Z.div_le_lower_bound; nia).
        destruct (Z.neg m / 2 ^ (- e))%Z as [|p|p] eqn:Ep; try lia.
        cbn [Z.eqb].
        assert (Hp : (Z.pos p < 2 ^ 53)%Z) by lia.
        destruct (of_Z_neg p Hp) as (mz & H1).
        exact (negative_not_grid _ mz _ H1).
    + (* positive *)
      rewrite (positive_leb_0 q m e Hq), andb_true_l.
      rewrite (positive_ltb_11 q m e Hq).
      destruct (Z.leb_spec 0 e) as [L|L].
      * rewrite (Math_floor_finite q false m e Hq).
        destruct (Z.leb_spec 0 e) as [_|L']; [|lia].
        rewrite clamp_10, (positive_eqb_10 q m e Hq).
        assert (G := positive_leb_9 q m e Hq).
        destruct (Z.compare_spec e (-49)); try lia.
        unfold grid_index. rewrite G. now rewrite andb_false_r.
      * destruct Hk as [Hk|]; [|lia].
        destruct (Z.eq_dec (Z.pos m / 2 ^ (- e)) 0) as [Z0|Z0].
        { rewrite (Math_floor_finite q false m e Hq).
          destruct (Z.leb_spec 0 e) as [L'|_]; [lia|].
          rewrite Z0. cbn [Z.eqb].
          assert (Hlt : (Z.pos m < 2 ^ (- e))%Z).
          { apply Z.div_small_iff in Z0; lia. }
          assert (He : (e < -49)%Z).
          { destruct (Z.le_gt_cases e (-1074)); [lia|].
            assert (- e > 52)%Z; [|lia].
            assert (52 < - e)%Z; [|lia].
            apply (Z.pow_lt_mono_r_iff 2); lia. }
          destruct (Z.compare_spec e (-49)); try lia. reflexivity. }
        assert (Zpos : (0 < Z.pos m / 2 ^ (- e))%Z).
        { assert (0 <= Z.pos m / 2 ^ (- e))%Z
            by (apply Z.div_pos; lia).
          lia. }
        destruct (Math_floor_positive q m e Hq L Zpos)
          as (He & mz & Hv & Hmz & Hidem).
        set (v := Num.Math_floor q) in *.
        set (z := (Z.pos m / 2 ^ (- e))%Z) in *.
        assert (Hdiv : (z * 2 ^ (- e) <= Z.pos m < (z + 1) * 2 ^ (- e))%Z).
        { unfold z.
          assert (M := Z.div_mod (Z.pos m) (2 ^ (- e))).
          assert (R := Z.mod_pos_bound (Z.pos m) (2 ^ (- e)) Hk).
          nia. }
        rewrite clamp_10, (positive_eqb_10 v mz e Hv).
        assert (G := positive_leb_9 v mz e Hv).
        destruct (Z.compare_spec e (-49)) as [E|E|E].
        -- subst e. change (2 ^ (- -49))%Z with 562949953421312%Z in *.
           destruct (Z.eqb_spec (Z.pos mz) 5629499534213120) as [T|T].
           ++ destruct (Z.ltb_spec (Z.pos m) 6192449487634432); [reflexivity|lia].
           ++ unfold grid_index.
              rewrite (positive_leb_0 v mz _ Hv), Hidem.
              rewrite (positive_eqb_refl v mz _ Hv), andb_true_r, andb_true_l.
              rewrite G.
              destruct (Z.leb_spec (Z.pos mz) 5066549580791808);
                destruct (Z.ltb_spec (Z.pos m) 6192449487634432);
                try reflexivity; lia.
        -- unfold grid_index.
           rewrite (positive_leb_0 v mz _ Hv), Hidem.
           rewrite (positive_eqb_refl v mz _ Hv), andb_true_r, andb_true_l.
           exact G.
        -- unfold grid_index. rewrite G. now rewrite andb_false_r.
Qed.

Lemma positive_geb_10 (v : float) (m : positive) (e : Z) :
  Prim2SF v = S754_finite false m e ->
  (10 <=? v)%float
  = match (e ?= -49)%Z with
    | Lt => false
    | Eq => (5629499534213120 <=? Z.pos m)%Z
    | Gt => true
    end.
Proof.
  intro Hv. rewrite leb_spec, Prim2SF_10, Hv. unfold SFleb.
  rewrite SFcompare_positive, (Z.compare_antisym e (-49)).
  destruct (e ?= -49)%Z; cbn [CompOpp].
  - unfold Z.leb. now destruct (5629499534213120 ?= Z.pos m)%Z.
  - reflexivity.
  - reflexivity.
Qed.

(** Which floats have the floor 10: those from 10 up to, but not
    including, 11. *)
Lemma floor_is_10 (q : float) :
  (Num.Math_floor q =? 10)%float = ((10 <=? q) && (q <? 11))%float.
Proof.
  destruct (Prim2SF q) as [s|s| |s m e] eqn:Hq.
  - assert (E : q = SF2Prim (S754_zero s))
      by (rewrite <- Hq; symmetry; apply SF2Prim_Prim2SF).
    clear Hq. subst q. now destruct s.
  - assert (E : q = SF2Prim (S754_infinity s))
      by (rewrite <- Hq; symmetry; apply SF2Prim_Prim2SF).
    clear Hq. subst q. now destruct s.
  - assert (E : q = SF2Prim S754_nan)
      by (rewrite <- Hq; symmetry; apply SF2Prim_Prim2SF).
    clear Hq. subst q. reflexivity.
  - assert (Hk : (0 < 2 ^ (- e))%Z \/ (0 <= e)%Z).
    { destruct (Z.le_gt_cases 0 e); [now right|left].
      apply Z.pow_pos_nonneg; lia. }
    destruct (finite_mantissa q s m e Hq) as [Hm Hn].
    destruct s.
    + (* negative *)
      replace (10 <=? q)%float with false
        by now rewrite leb_spec, Prim2SF_10, Hq.
      rewrite andb_false_l.
      rewrite (Math_floor_finite q true m e Hq).
      destruct (Z.leb_spec 0 e) as [L|L].
      * now rewrite eqb_spec, Prim2SF_10, Hq.
      * destruct Hk as [Hk|]; [|lia].
        assert (Zhi : (Z.neg m / 2 ^ (- e) < 0)%Z)
          by (apply Z.div_lt_upper_bound; lia).
        assert (Zlo : (Z.neg m <= Z.neg m / 2 ^ (- e))%Z)
          by (apply Z.div_le_lower_bound; nia).
        destruct (Z.neg m / 2 ^ (- e))%Z as [|p|p] eqn:Ep; try lia.
        cbn [Z.eqb].
        assert (Hp : (Z.pos p < 2 ^ 53)%Z) by lia.
        destruct (of_Z_neg p Hp) as (mz & H1).
        now rewrite eqb_spec, Prim2SF_10, H1.
    + (* positive *)
      rewrite (positive_geb_10 q m e Hq), (positive_ltb_11 q m e Hq).
      destruct (Z.leb_spec 0 e) as [L|L].
      * rewrite (Math_floor_finite q false m e Hq).
        destruct (Z.leb_spec 0 e) as [_|L']; [|lia].
        rewrite (positive_eqb_10 q m e Hq).
        destruct (Z.compare_spec e (-49)); (lia || reflexivity).
      * destruct Hk as [Hk|]; [|lia].
        destruct (Z.eq_dec (Z.pos m / 2 ^ (- e)) 0) as [Z0|Z0].
        { rewrite (Math_floor_finite q false m e Hq).
          destruct (Z.leb_spec 0 e) as [L'|_]; [lia|].
          rewrite Z0. cbn [Z.eqb].
          assert (Hlt : (Z.pos m < 2 ^ (- e))%Z).
          { apply Z.div_small_iff in Z0; lia. }
          assert (He : (e < -49)%Z).
          { destruct (Z.le_gt_cases e (-1074)); [lia|].
            assert (52 < - e)%Z; [|lia].
            apply (Z.pow_lt_mono_r_iff 2); lia. }
          destruct (Z.compare_spec e (-49)); (lia || reflexivity). }
        assert (Zpos : (0 < Z.pos m / 2 ^ (- e))%Z).
        { assert (0 <= Z.pos m / 2 ^ (- e))%Z
            by (apply Z.div_pos; lia).
          lia. }
        destruct (Math_floor_positive q m e Hq L Zpos)
          as (He & mz & Hv & Hmz & Hidem).
        set (v := Num.Math_floor q) in *.
        set (z := (Z.pos m / 2 ^ (- e))%Z) in *.
        assert (Hdiv : (z * 2 ^ (- e) <= Z.pos m < (z + 1) * 2 ^ (- e))%Z).
        { unfold z.
          assert (M := Z.div_mod (Z.pos m) (2 ^ (- e))).
          assert (R := Z.mod_pos_bound (Z.pos m) (2 ^ (- e)) Hk).
          nia. }
        rewrite (positive_eqb_10 v mz e Hv).
        destruct (Z.compare_spec e (-49)) as [E|E|E]; try reflexivity.
        subst e. change (2 ^ (- -49))%Z with 562949953421312%Z in *.
        destruct (Z.eqb_spec (Z.pos mz) 5629499534213120);
          destruct (Z.leb_spec 5629499534213120 (Z.pos m));
          destruct (Z.ltb_spec (Z.pos m) 6192449487634432);
          try reflexivity; lia.
Qed.

(** ** The remainder and the swept angle of an arc *)

(** Rounding a mantissa that already has the digits and the exponent of a
    float changes nothing. *)
Lemma binary_round_aux_canonical (s : bool) (m : positive) (e : Z) :
  fexp prec emax (Z.pos (digits2_pos m) + e) = e -> (e <= 971)%Z ->
  binary_round_aux prec emax s (Z.pos m) e loc_Exact = S754_finite s m e.
Proof.
  intros Hc He.
  assert (F : (fexp prec emax (Zdigits2 (Z.pos m) + e) - e = 0)%Z).
  { simpl Zdigits2. lia. }
  unfold binary_round_aux, shr_fexp.
  cbn [shr_record_of_loc]. rewrite F.
  cbn [shr shr_m loc_of_shr_record round_nearest_even].
  rewrite F. cbn [shr shr_m].
  replace (e <=? emax - prec)%Z with true; [reflexivity|].
  symmetry. apply Z.leb_le. unfold prec, emax. lia.
Qed.

Lemma shl_align_value (m : positive) (e e' : Z) :
  (e' <= e)%Z ->
  Z.pos (fst (shl_align m e e')) = (Z.pos m * 2 ^ (e - e'))%Z
  /\ snd (shl_align m e e') = e'.
Proof.
  intro H. unfold shl_align.
  destruct (e' - e)%Z as [|k|k] eqn:E; cbn [fst snd].
  - replace (e - e')%Z with 0%Z by lia. split; lia.
  - lia.
  - rewrite iter_xO_value. split; [|reflexivity].
    f_equal. f_equal. lia.
Qed.

Lemma shl_align_digits (m : positive) (e e' : Z) :
  (e' <= e)%Z ->
  Z.pos (digits2_pos (fst (shl_align m e e')))
  = (Z.pos (digits2_pos m) + (e - e'))%Z.
Proof.
  intro H. unfold shl_align.
  destruct (e' - e)%Z as [|k|k] eqn:E; cbn [fst snd].
  - lia.
  - lia.
  - rewrite iter_xO_digits. lia.
Qed.

(** A number [p * 2^e] with [p] below [2^53] and [e] an exponent of the
    format is a float. *)
Lemma binary_round_exact (s : bool) (p : positive) (e : Z) :
  (Z.pos p < 2 ^ 53)%Z -> (-1074 <= e <= 971)%Z ->
  exists (mz : positive) (ez : Z),
    binary_round prec emax s p e = S754_finite s mz ez
    /\ valid_binary (S754_finite s mz ez) = true
    /\ (-1074 <= ez <= e)%Z
    /\ Z.pos mz = (Z.pos p * 2 ^ (e - ez))%Z.
Proof.
  intros Hp He.
  assert (Hd : (Z.pos (digits2_pos p) <= 53)%Z)
    by (apply digits2_pos_le; lia).
  set (t := fexp prec emax (Z.pos (digits2_pos p) + e)).
  assert (Ht : (-1074 <= t <= e)%Z).
  { unfold t, fexp, SpecFloat.emin, prec, emax. lia. }
  destruct (shl_align_value p e t) as [Hv Hs]; [lia|].
  assert (Hg := shl_align_digits p e t (proj2 Ht)).
  unfold binary_round. fold t.
  destruct (shl_align p e t) as [mz ez]. cbn [fst snd] in *. subst ez.
  assert (Hc : fexp prec emax (Z.pos (digits2_pos mz) + t) = t).
  { rewrite Hg. replace (Z.pos (digits2_pos p) + (e - t) + t)%Z
      with (Z.pos (digits2_pos p) + e)%Z by lia. reflexivity. }
  exists mz, t. split; [|split; [|split]].
  - apply binary_round_aux_canonical; [exact Hc|lia].
  - unfold SpecFloat.valid_binary, bounded, canonical_mantissa.
    rewrite Hc, Z.eqb_refl. apply Z.leb_le. unfold prec, emax. lia.
  - exact Ht.
  - exact Hv.
Qed.

(** The order of two positive floats is the order of the numbers they
    stand for. *)
Lemma positive_ltb (a b : float) (m1 m2 : positive) (e1 e2 : Z) :
  Prim2SF a = S754_finite false m1 e1 ->
  Prim2SF b = S754_finite false m2 e2 ->
  (Z.pos m1 * 2 ^ (e1 + 1074) < Z.pos m2 * 2 ^ (e2 + 1074))%Z ->
  (a <? b)%float = true.
Proof.
  intros Ha Hb H.
  destruct (finite_canonical a _ _ _ Ha) as (Da & Ea & Na).
  destruct (finite_canonical b _ _ _ Hb) as (Db & Eb & Nb).
  destruct (finite_mantissa a _ _ _ Ha) as (Ma & La).
  destruct (finite_mantissa b _ _ _ Hb) as (Mb & Lb).
  rewrite ltb_spec, Ha, Hb. unfold SFltb. rewrite SFcompare_positive.
  destruct (Z.compare_spec e1 e2) as [E|E|E].
  - subst e2.
    assert (0 < 2 ^ (e1 + 1074))%Z by (apply Z.pow_pos_nonneg; lia).
    destruct (Z.compare_spec (Z.pos m1) (Z.pos m2)); [nia|reflexivity|nia].
  - reflexivity.
  - exfalso.
    assert (P : (2 ^ (e1 + 1074) = 2 ^ (e1 - e2) * 2 ^ (e2 + 1074))%Z).
    { rewrite <- Z.pow_add_r by lia. f_equal. lia. }
    assert (Q : (2 <= 2 ^ (e1 - e2))%Z).
    { change 2%Z with (2 ^ 1)%Z at 1. apply Z.pow_le_mono_r; lia. }
    assert (0 < 2 ^ (e2 + 1074))%Z by (apply Z.pow_pos_nonneg; lia).
    assert (2 ^ 52 <= Z.pos m1)%Z by (apply La; lia).
    rewrite P in H.
    assert (Z.pos m2 * 2 ^ (e2 + 1074) < 2 ^ 53 * 2 ^ (e2 + 1074))%Z by nia.
    assert (2 ^ 53 * 2 ^ (e2 + 1074)
            <= Z.pos m1 * (2 ^ (e1 - e2) * 2 ^ (e2 + 1074)))%Z; [|lia].
    replace (2 ^ 53)%Z with (2 ^ 52 * 2)%Z by reflexivity.
    rewrite Z.mul_assoc.
    apply Z.mul_le_mono_nonneg_r; [lia|].
    apply Z.mul_le_mono_nonneg; lia.
Qed.

(** The remainder by a positive finite float [y]: NaN when [x] is NaN or
    infinite, [x] when [x] is a zero, and otherwise a zero or a finite
    number with the sign of [x] that is smaller than [y] in magnitude. *)
Lemma rem_by_positive (x y : float) (my : positive) (ey : Z) :
  Prim2SF y = S754_finite false my ey ->
  match Prim2SF x with
  | S754_finite sx _ _ =>
      Prim2SF (Num.rem x y) = S754_zero sx
      \/ exists (m : positive) (e : Z),
           Prim2SF (Num.rem x y) = S754_finite sx m e
           /\ (Z.pos m * 2 ^ (e + 1074) < Z.pos my * 2 ^ (ey + 1074))%Z
  | S754_zero _ => Num.rem x y = x
  | _ => Prim2SF (Num.rem x y) = S754_nan
  end.
Proof.
  intro Hy. unfold Num.rem. rewrite Hy.
  destruct (Prim2SF x) as [s|s| |sx mx ex] eqn:Hx; try reflexivity.
  destruct (finite_canonical x _ _ _ Hx) as (Dx & Ex & Nx).
  destruct (finite_canonical y _ _ _ Hy) as (Dy & Ey & Ny).
  destruct (finite_mantissa x _ _ _ Hx) as (Mx & _).
  destruct (finite_mantissa y _ _ _ Hy) as (My & _).
  set (e := Z.min ex ey).
  set (X := (Z.pos mx * 2 ^ (ex - e))%Z).
  set (Y := (Z.pos my * 2 ^ (ey - e))%Z).
  assert (He : (-1074 <= e <= 971)%Z) by (unfold e; lia).
  assert (HY : (0 < Y)%Z).
  { unfold Y. apply Z.mul_pos_pos; [lia|]. apply Z.pow_pos_nonneg; lia. }
  assert (HR := Z.mod_pos_bound X Y HY).
  assert (HR53 : (X mod Y < 2 ^ 53)%Z).
  { destruct (Z.le_ge_cases ex ey) as [L|L].
    - assert (e = ex) by (unfold e; lia).
      assert (X = Z.pos mx) by (unfold X; replace (ex - e)%Z with 0%Z by lia; lia).
      assert (X mod Y <= X)%Z by (apply Z.mod_le; lia).
      lia.
    - assert (e = ey) by (unfold e; lia).
      assert (Y = Z.pos my) by (unfold Y; replace (ey - e)%Z with 0%Z by lia; lia).
      lia. }
  destruct (X mod Y)%Z as [|r|r] eqn:ER; [| |lia].
  - left. now destruct sx.
  - right. cbn [Z.eqb].
    destruct (binary_round_exact sx r e HR53 He) as (mz & ez & B1 & B2 & B3 & B4).
    exists mz, ez. split.
    + replace (binary_normalize prec emax (if sx then (- Z.pos r)%Z else Z.pos r)
                                e false)
        with (binary_round prec emax sx r e) by now destruct sx.
      rewrite B1. now apply Prim2SF_SF2Prim.
    + rewrite B4.
      assert (P : (2 ^ (e - ez) * 2 ^ (ez + 1074) = 2 ^ (e + 1074))%Z).
      { rewrite <- Z.pow_add_r by lia. f_equal. lia. }
      assert (Q : (2 ^ (ey - e) * 2 ^ (e + 1074) = 2 ^ (ey + 1074))%Z).
      { rewrite <- Z.pow_add_r by (unfold e; lia). f_equal. lia. }
      rewrite <- Z.mul_assoc, P, <- Q, Z.mul_assoc. fold Y.
      apply Z.mul_lt_mono_pos_r; [apply Z.pow_pos_nonneg; lia|lia].
Qed.


(** Shifting a mantissa to the right divides it. *)
Lemma shr_1_m (mrs : shr_record) :
  (0 <= shr_m mrs)%Z -> shr_m (shr_1 mrs) = (shr_m mrs / 2)%Z.
Proof.
  destruct mrs as [m r s]. cbn [shr_m]. intro H.
  destruct m as [|[p|p|]|p]; try lia; cbn [shr_1 shr_m].
  - reflexivity.
  - rewrite (Pos2Z.inj_xI p).
    apply (Z.div_unique_pos _ _ _ 1); lia.
  - rewrite (Pos2Z.inj_xO p).
    apply (Z.div_unique_pos _ _ _ 0); lia.
  - reflexivity.
Qed.

Lemma iter_shr_1_m (n : positive) (mrs : shr_record) :
  (0 <= shr_m mrs)%Z ->
  shr_m (iter_pos shr_1 n mrs) = (shr_m mrs / 2 ^ Z.pos n)%Z.
Proof.
  revert mrs. induction n as [n IH|n IH|]; intros mrs H; cbn [iter_pos].
  - assert (H1 : (0 <= shr_m (shr_1 mrs))%Z)
      by (rewrite shr_1_m by exact H; apply Z.div_pos; lia).
    assert (H2 : (0 <= shr_m (iter_pos shr_1 n (shr_1 mrs)))%Z)
      by (rewrite IH by exact H1; apply Z.div_pos; lia).
    rewrite IH, IH, shr_1_m by assumption.
    rewrite !Z.div_div by lia. f_equal.
    rewrite (Pos2Z.inj_xI n), <- !Z.pow_add_r by lia.
    replace (1 + Z.pos n + Z.pos n)%Z with (2 * Z.pos n + 1)%Z by lia.
    rewrite <- Z.pow_succ_r by lia. f_equal. lia.
  - assert (H2 : (0 <= shr_m (iter_pos shr_1 n mrs))%Z)
      by (rewrite IH by exact H; apply Z.div_pos; lia).
    rewrite IH, IH by assumption.
    rewrite !Z.div_div by lia. f_equal.
    rewrite (Pos2Z.inj_xO n), <- Z.pow_add_r by lia. f_equal. lia.
  - rewrite shr_1_m by exact H. reflexivity.
Qed.

Lemma Zdigits2_le (m k : Z) :
  (0 <= m < 2 ^ k)%Z -> (0 <= k)%Z -> (Zdigits2 m <= k)%Z.
Proof.
  intros Hm Hk. destruct m as [|p|p]; cbn [Zdigits2]; try lia.
  apply digits2_pos_le; lia.
Qed.

Lemma round_nearest_even_bounds (m : Z) (l : location) :
  (m <= round_nearest_even m l <= m + 1)%Z.
Proof.
  destruct l as [|[]]; cbn [round_nearest_even]; try lia.
  destruct (Z.even m); lia.
Qed.

(** Rounding a number whose magnitude is below [2^1023] does not
    overflow. *)
Lemma binary_round_aux_finite (M : positive) (E : Z) :
  (Z.pos (digits2_pos M) + E <= 1023)%Z -> (E <= 971)%Z ->
  finite_not_negative (binary_round_aux prec emax false (Z.pos M) E loc_Exact).
Proof.
  intros HD HE.
  destruct (digits2_pos_bounds M) as [_ HM].
  set (D := Z.pos (digits2_pos M)) in *.
  unfold binary_round_aux, shr_fexp. cbn [Zdigits2 shr_record_of_loc]. fold D.
  set (n1 := (fexp prec emax (D + E) - E)%Z).
  assert (Hn1 : (n1 = Z.max (D - 53) (-1074 - E))%Z)
    by (unfold n1, fexp, SpecFloat.emin, prec, emax; lia).
  destruct n1 as [|p1|p1] eqn:En1; cbn [shr].
  - (* no shift: the mantissa stays *)
    cbn [shr_m loc_of_shr_record round_nearest_even Zdigits2].
    fold D. fold n1. rewrite En1. cbn [shr shr_m].
    replace (E <=? emax - prec)%Z with true; [exact I|].
    symmetry. apply Z.leb_le. unfold emax, prec. lia.
  - (* a shift to the right *)
    set (mrs' := iter_pos shr_1 p1 _).
    assert (P1 : (0 < 2 ^ Z.pos p1)%Z) by (apply Z.pow_pos_nonneg; lia).
    assert (Hm1 : (0 <= shr_m mrs' < 2 ^ 53)%Z).
    { unfold mrs'. rewrite iter_shr_1_m by (cbn; lia). cbn [shr_m]. split.
      - apply Z.div_pos; lia.
      - apply Z.div_lt_upper_bound; [exact P1|].
        rewrite <- Z.pow_add_r by lia.
        apply (Z.lt_le_trans _ _ _ HM). apply Z.pow_le_mono_r; lia. }
    assert (Hr := round_nearest_even_bounds (shr_m mrs')
                                            (loc_of_shr_record mrs')).
    set (m2 := round_nearest_even (shr_m mrs') (loc_of_shr_record mrs')) in *.
    assert (Hd2 : (Zdigits2 m2 <= 54)%Z).
    { apply Zdigits2_le; [|lia].
      change (2 ^ 54)%Z with (2 ^ 53 + 2 ^ 53)%Z. lia. }
    set (e' := (E + Z.pos p1)%Z).
    assert (He' : (-1074 <= e' <= 970)%Z) by (unfold e'; lia).
    set (n2 := (fexp prec emax (Zdigits2 m2 + e') - e')%Z).
    assert (Hn2 : (n2 = Z.max (Zdigits2 m2 - 53) (-1074 - e'))%Z)
      by (unfold n2, fexp, SpecFloat.emin, prec, emax; lia).
    unfold shr. destruct n2 as [|p|p] eqn:En.
    + cbn [shr_m]. destruct m2 as [|q|q]; [exact I| |lia].
      replace (e' <=? emax - prec)%Z with true; [exact I|].
      symmetry. apply Z.leb_le. unfold emax, prec. lia.
    + rewrite iter_shr_1_m by (cbn [shr_m]; lia). cbn [shr_m].
      assert (P : (0 < 2 ^ Z.pos p)%Z) by (apply Z.pow_pos_nonneg; lia).
      assert (Q : (0 <= m2 / 2 ^ Z.pos p)%Z) by (apply Z.div_pos; lia).
      destruct (m2 / 2 ^ Z.pos p)%Z as [|q|q]; [exact I| |lia].
      replace (e' + Z.pos p <=? emax - prec)%Z with true; [exact I|].
      symmetry. apply Z.leb_le. unfold emax, prec. lia.
    + cbn [shr_m]. destruct m2 as [|q|q]; [exact I| |lia].
      replace (e' <=? emax - prec)%Z with true; [exact I|].
      symmetry. apply Z.leb_le. unfold emax, prec. lia.
  - (* no shift: the mantissa stays *)
    cbn [shr_m loc_of_shr_record round_nearest_even Zdigits2].
    fold D. fold n1. rewrite En1. cbn [shr shr_m].
    replace (E <=? emax - prec)%Z with true; [exact I|].
    symmetry. apply Z.leb_le. unfold emax, prec. lia.
Qed.

Lemma binary_round_finite (p : positive) (e : Z) :
  (Z.pos (digits2_pos p) + e <= 1023)%Z -> (e <= 971)%Z ->
  finite_not_negative (binary_round prec emax false p e).
Proof.
  intros HD HE. unfold binary_round, shl_align.
  destruct (fexp prec emax (Z.pos (digits2_pos p) + e) - e)%Z as [|k|k] eqn:K;
    try (apply binary_round_aux_finite; assumption).
  apply binary_round_aux_finite.
  - rewrite iter_xO_digits. lia.
  - lia.
Qed.

(** Adding a positive finite float [y] to a finite number smaller than [y]
    in magnitude gives a zero or a positive finite number. *)
Lemma add_finite_not_negative (r y : float) (s : bool) (m my : positive)
  (e ey : Z) :
  Prim2SF y = S754_finite false my ey -> (ey <= 968)%Z ->
  Prim2SF r = S754_finite s m e ->
  (Z.pos m * 2 ^ (e + 1074) < Z.pos my * 2 ^ (ey + 1074))%Z ->
  finite_not_negative (Prim2SF (r + y)).
Proof.
  intros Hy Hey Hr H.
  destruct (finite_canonical r _ _ _ Hr) as (_ & Er & _).
  destruct (finite_canonical y _ _ _ Hy) as (_ & Ey & _).
  destruct (finite_mantissa y _ _ _ Hy) as (My & _).
  rewrite add_spec, Hr, Hy. unfold SF64add, SFadd.
  set (ez := Z.min e ey).
  destruct (shl_align_value m e ez) as [Va _]; [unfold ez; lia|].
  destruct (shl_align_value my ey ez) as [Vb _]; [unfold ez; lia|].
  rewrite Va, Vb.
  assert (P : (2 ^ (e - ez) * 2 ^ (ez + 1074) = 2 ^ (e + 1074))%Z).
  { rewrite <- Z.pow_add_r by (unfold ez; lia). f_equal. lia. }
  assert (Q : (2 ^ (ey - ez) * 2 ^ (ez + 1074) = 2 ^ (ey + 1074))%Z).
  { rewrite <- Z.pow_add_r by (unfold ez; lia). f_equal. lia. }
  assert (K : (0 < 2 ^ (ez + 1074))%Z)
    by (apply Z.pow_pos_nonneg; unfold ez; lia).
  assert (L : (Z.pos m * 2 ^ (e - ez) < Z.pos my * 2 ^ (ey - ez))%Z).
  { rewrite <- P, <- Q, !Z.mul_assoc in H.
    apply Z.mul_lt_mono_pos_r in H; assumption. }
  assert (A : (0 < Z.pos m * 2 ^ (e - ez))%Z).
  { apply Z.mul_pos_pos; [lia|]. apply Z.pow_pos_nonneg; unfold ez; lia. }
  assert (B : (Z.pos my * 2 ^ (ey - ez) < 2 ^ (53 + (ey - ez)))%Z).
  { rewrite Z.pow_add_r by (unfold ez; lia).
    apply Z.mul_lt_mono_pos_r; [apply Z.pow_pos_nonneg; unfold ez; lia|lia]. }
  unfold cond_Zopp.
  match goal with
  | |- context [binary_normalize _ _ ?z _ _] => destruct z as [|p|p] eqn:S
  end.
  - exact I.
  - cbn [binary_normalize]. apply binary_round_finite; [|unfold ez; lia].
    assert (Hp : (Z.pos p < 2 ^ (54 + (ey - ez)))%Z).
    { replace (54 + (ey - ez))%Z with (Z.succ (53 + (ey - ez)))%Z by lia.
      rewrite Z.pow_succ_r by (unfold ez; lia). destruct s; lia. }
    apply digits2_pos_le in Hp; [|unfold ez; lia]. lia.
  - destruct s; lia.
Qed.

Lemma is_nan_spec (x : float) :
  is_nan x = match Prim2SF x with S754_nan => true | _ => false end.
Proof.
  unfold is_nan. rewrite eqb_spec. unfold SFeqb. rewrite SFcompare_refl.
  now destruct (Prim2SF x).
Qed.

Lemma is_finite_spec (x : float) :
  is_finite x = match Prim2SF x with
                | S754_zero _ | S754_finite _ _ _ => true
                | _ => false
                end.
Proof.
  unfold is_finite, is_infinity. rewrite is_nan_spec, eqb_spec, abs_spec.
  destruct (Prim2SF x) as [s|s| |s m e]; reflexivity.
Qed.

Lemma Prim2SF_2PI :
  Prim2SF (Num.Math_PI * 2) = S754_finite false 7074237752028440 (-50).
Proof. reflexivity. Qed.

(** The remainder of a zero or a positive finite number by a positive
    finite float [y] is at least 0 and less than [y]. *)
Lemma rem_not_negative_range (x y : float) (my : positive) (ey : Z) :
  Prim2SF y = S754_finite false my ey ->
  finite_not_negative (Prim2SF x) ->
  ((0 <=? Num.rem x y) && (Num.rem x y <? y))%float = true.
Proof.
  intros Hy Hx. assert (R := rem_by_positive x y my ey Hy).
  destruct (Prim2SF x) as [[]|[]| |[] mx ex] eqn:E; try contradiction.
  - rewrite R.
    now rewrite leb_spec, ltb_spec, Prim2SF_0, E, Hy.
  - destruct R as [R|(m & e & R & Hb)].
    + now rewrite leb_spec, ltb_spec, Prim2SF_0, R, Hy.
    + rewrite (positive_leb_0 _ m e R), (positive_ltb _ _ _ _ _ _ R Hy Hb).
      reflexivity.
Qed.

(** The swept angle of an arc is at least 0 and less than [2 * PI]
    whenever the difference of the two angles is a finite number, and NaN
    otherwise. *)
Lemma swept_range (start stop : float) :
  if is_finite (stop - start)
  then ((0 <=? swept start stop)
        && (swept start stop <? Num.Math_PI * 2))%float = true
  else is_nan (swept start stop) = true.
Proof.
  unfold swept. set (d := (stop - start)%float).
  set (y := (Num.Math_PI * 2)%float).
  assert (Hy := Prim2SF_2PI). fold y in Hy.
  assert (R := rem_by_positive d y _ _ Hy).
  rewrite is_finite_spec.
  assert (Z0 : forall s, Prim2SF (Num.rem d y) = S754_zero s ->
                         finite_not_negative (Prim2SF (Num.rem d y + y))).
  { intros s Hs. rewrite add_spec, Hs, Hy. exact I. }
  assert (N : Prim2SF (Num.rem d y) = S754_nan ->
              is_nan (Num.rem (Num.rem d y + y) y) = true).
  { intro Hn.
    assert (Hx : Prim2SF (Num.rem d y + y) = S754_nan)
      by now rewrite add_spec, Hn, Hy.
    rewrite is_nan_spec. unfold Num.rem at 1. now rewrite Hx. }
  destruct (Prim2SF d) as [s|s| |s md ed] eqn:Ed.
  - apply (rem_not_negative_range _ y _ _ Hy).
    apply (Z0 s). now rewrite R.
  - now apply N.
  - now apply N.
  - apply (rem_not_negative_range _ y _ _ Hy).
    destruct R as [R|(m & e & R & Hb)].
    + now apply (Z0 s).
    + apply (add_finite_not_negative _ y s m _ e _ Hy); [lia|exact R|exact Hb].
Qed.

(** C9. The area of an arc.  For the arguments of an arc, [_getArea]
    returns the percentage of the canvas, rounded, that [arc_area] is of
    it: the swept angle times the two sizes divided by 8, plus the area of
    the triangle of the centre and the two end points when the mode is
    "open" or "chord" and the swept angle exceeds [PI], minus that area
    when the mode is one of the two and the angle does not exceed [PI], and
    as it is for any other mode.  The swept angle is the difference of the
    end and the start angle modulo [2 * PI], and it is at least 0 and less
    than [2 * PI] whenever that difference is a finite number (and NaN
    otherwise). *)
Theorem getArea_arc :
  forall (Math_cos Math_sin : float -> float),
    (forall (args : list jsval) (canvasWidth canvasHeight : float),
        let a i := num (get args i) in
        _getArea Math_cos Math_sin arc args canvasWidth canvasHeight
        = percent_of_canvas
            (arc_area Math_cos Math_sin (a 0%nat) (a 1%nat) (a 2%nat)
                      (a 3%nat) (a 4%nat) (a 5%nat) (get args 6))
            canvasWidth canvasHeight)
    /\ (forall start stop : float,
        if is_finite (stop - start)
        then ((0 <=? swept start stop)
              && (swept start stop <? Num.Math_PI * 2))%float = true
        else is_nan (swept start stop) = true)
    /\ (swept 0 Num.Math_PI = Num.Math_PI
        /\ swept Num.Math_PI 0 = Num.Math_PI
        /\ swept 0 (Num.Math_PI * 2) = 0)%float.
Proof.
  intros Math_cos Math_sin. split; [|split].
  - intros args canvasWidth canvasHeight a.
    unfold _getArea, percent_of_canvas, arc_area, arcSizeInRadians,
      areaOfExtraTriangle, triangle_area, endpoint, swept.
    cbn [fst snd]. fold a. reflexivity.
  - exact swept_range.
  - repeat split; reflexivity.
Qed.

(** ** The helpers: grid cells *)

Lemma canvasLocator_clamp (x y w h : float) :
  _canvasLocator (x, y) w h
  = {| locX := clamp (Num.Math_floor (scaled x w));
       locY := clamp (Num.Math_floor (scaled y h)) |}.
Proof. reflexivity. Qed.

(** C6, as stated, fails: the index 10 is not computed at the edge only.
    On a width of 100 the coordinate 105 gives 10 as well. *)
Lemma canvasLocator_ten_beyond_edge :
  ~ (forall x w : float,
        (Num.Math_floor (x / w * 10) =? 10)%float = true ->
        (x =? w)%float = true).
Proof.
  intro H. specialize (H 105%float 100%float eq_refl). discriminate H.
Qed.

(** C6, amended.  [_canvasLocator] returns, along each axis, the floor of
    the coordinate divided by the size and multiplied by 10, with 10
    replaced by 9.  The index is 10 before the replacement exactly for the
    scaled coordinates from 10 up to, but not including, 11: at the edge
    ([x = w]) on a 100 by 100 canvas, and beyond it as well, as for 105.
    On that canvas (95,95) and (100,100) are both in cell (9,9). *)
Theorem canvasLocator_cells :
  (forall x y w h : float,
      _canvasLocator (x, y) w h
      = {| locX := let i := Num.Math_floor (x / w * 10) in
                   if (i =? 10) then 9 else i;
           locY := let i := Num.Math_floor (y / h * 10) in
                   if (i =? 10) then 9 else i |})%float
  /\ (forall q : float,
      (Num.Math_floor q =? 10) = (10 <=? q) && (q <? 11))%float
  /\ (_canvasLocator (95, 95) 100 100 = {| locX := 9; locY := 9 |}
      /\ _canvasLocator (100, 100) 100 100 = {| locX := 9; locY := 9 |}
      /\ Num.Math_floor (100 / 100 * 10) = 10
      /\ Num.Math_floor (105 / 100 * 10) = 10
      /\ _canvasLocator (105, 50) 100 100 = {| locX := 9; locY := 5 |})%float.
Proof.
  split.
  { intros x y w h. rewrite canvasLocator_clamp, !clamp_10. reflexivity. }
  split; [exact floor_is_10|].
  repeat split; reflexivity.
Qed.

(** ** Coordinates on the canvas

    Division and multiplication round to nearest; the bounds below follow
    the value of a float, scaled by a power of two large enough to make
    every exponent positive. *)

Lemma Zdigits2_bounds (m : Z) :
  (0 <= m)%Z -> (0 <= Zdigits2 m /\ m < 2 ^ Zdigits2 m)%Z.
Proof.
  intro H. destruct m as [|p|p]; cbn [Zdigits2]; try lia.
  destruct (digits2_pos_bounds p). lia.
Qed.

(** What rounding can add: the result of rounding [M * 2^E] (with whatever
    was cut off below [M]) is a zero or a positive finite float that
    exceeds [M * 2^E] by at most one unit of the exponent [t] the mantissa
    is first shifted to.  Numbers are scaled by [2^2200] to stay
    integers. *)
Lemma binary_round_aux_value (M E : Z) (l : location) :
  (0 <= M)%Z -> (Zdigits2 M + E <= 1023)%Z -> (-2200 <= E <= 971)%Z ->
  match binary_round_aux prec emax false M E l with
  | S754_zero false => True
  | S754_finite false m e =>
      (Z.pos m * 2 ^ (e + 2200)
       <= M * 2 ^ (E + 2200)
          + 2 ^ (Z.max E (fexp prec emax (Zdigits2 M + E)) + 2200))%Z
  | _ => False
  end.
Proof.
  intros HM0 HD HE.
  destruct (Zdigits2_bounds M HM0) as [HD0 HM].
  set (D := Zdigits2 M) in *.
  unfold binary_round_aux, shr_fexp. fold D.
  set (n1 := (fexp prec emax (D + E) - E)%Z).
  assert (Hn1 : (n1 = Z.max (D - 53) (-1074 - E))%Z)
    by (unfold n1, fexp, SpecFloat.emin, prec, emax; lia).
  set (t := Z.max E (fexp prec emax (D + E))).
  assert (Ht : (t = Z.max E (E + n1))%Z) by (unfold t, n1; lia).
  (* the first shift: mantissa [m1] at exponent [t] *)
  assert (S1 : exists mrs',
             shr (shr_record_of_loc M l) E n1 = (mrs', t)
             /\ (0 <= shr_m mrs')%Z
             /\ (shr_m mrs' * 2 ^ (t - E) <= M)%Z
             /\ (shr_m mrs' < 2 ^ 53)%Z
             /\ (-1074 <= t \/ (n1 <= 0 /\ t = E))%Z).
  { assert (Hl : shr_m (shr_record_of_loc M l) = M)
      by (now destruct l as [|[]]).
    unfold shr. destruct n1 as [|p|p] eqn:En.
    - exists (shr_record_of_loc M l).
      replace t with E by lia. rewrite Hl, Z.sub_diag.
      split; [reflexivity|]. repeat split; try lia.
      apply (Z.lt_le_trans _ _ _ HM). apply Z.pow_le_mono_r; lia.
    - exists (iter_pos shr_1 p (shr_record_of_loc M l)).
      replace (E + Z.pos p)%Z with t by lia.
      split; [reflexivity|].
      rewrite iter_shr_1_m by (rewrite Hl; lia). rewrite Hl.
      replace (t - E)%Z with (Z.pos p) by lia.
      assert (P : (0 < 2 ^ Z.pos p)%Z) by (apply Z.pow_pos_nonneg; lia).
      repeat split.
      + apply Z.div_pos; lia.
      + rewrite Z.mul_comm. apply Z.mul_div_le. exact P.
      + apply Z.div_lt_upper_bound; [exact P|].
        rewrite <- Z.pow_add_r by lia.
        apply (Z.lt_le_trans _ _ _ HM). apply Z.pow_le_mono_r; lia.
      + lia.
    - exists (shr_record_of_loc M l).
      replace t with E by lia. rewrite Hl, Z.sub_diag.
      split; [reflexivity|]. repeat split; try lia.
      apply (Z.lt_le_trans _ _ _ HM). apply Z.pow_le_mono_r; lia. }
  destruct S1 as (mrs' & -> & Hm0 & Hm1 & Hm53 & Hte).
  assert (Hr := round_nearest_even_bounds (shr_m mrs')
                                          (loc_of_shr_record mrs')).
  set (m2 := round_nearest_even (shr_m mrs') (loc_of_shr_record mrs')) in *.
  assert (HtE : (E <= t <= 970 \/ (t = E /\ D <= 53))%Z) by lia.
  assert (Hd2 : (Zdigits2 m2 <= 54)%Z).
  { apply Zdigits2_le; [|lia].
    change (2 ^ 54)%Z with (2 ^ 53 + 2 ^ 53)%Z. lia. }
  assert (Hd2' : (t = E -> Zdigits2 m2 <= D + 1)%Z).
  { intro Q. apply Zdigits2_le; [|lia].
    rewrite Q, Z.sub_diag, Z.mul_1_r in Hm1.
    rewrite Z.pow_add_r by lia. lia. }
  set (n2 := (fexp prec emax (Zdigits2 m2 + t) - t)%Z).
  assert (Hn2 : (n2 = Z.max (Zdigits2 m2 - 53) (-1074 - t))%Z)
    by (unfold n2, fexp, SpecFloat.emin, prec, emax; lia).
  assert (K : (0 < 2 ^ (t + 2200))%Z) by (apply Z.pow_pos_nonneg; lia).
  assert (V : (m2 * 2 ^ (t + 2200)
               <= M * 2 ^ (E + 2200) + 2 ^ (t + 2200))%Z).
  { assert (P : (2 ^ (t + 2200) = 2 ^ (t - E) * 2 ^ (E + 2200))%Z).
    { rewrite <- Z.pow_add_r by lia. f_equal. lia. }
    assert (0 < 2 ^ (E + 2200))%Z by (apply Z.pow_pos_nonneg; lia).
    assert (shr_m mrs' * 2 ^ (t + 2200) <= M * 2 ^ (E + 2200))%Z.
    { rewrite P, Z.mul_assoc. apply Z.mul_le_mono_nonneg_r; lia. }
    nia. }
  unfold shr. cbn [shr_record_of_loc]. destruct n2 as [|p|p] eqn:En.
  - cbn [shr_m]. destruct m2 as [|q|q]; [exact I| |lia].
    replace (t <=? emax - prec)%Z with true; [exact V|].
    symmetry. apply Z.leb_le. unfold emax, prec. lia.
  - rewrite iter_shr_1_m by (cbn [shr_m]; lia). cbn [shr_m].
    assert (P : (0 < 2 ^ Z.pos p)%Z) by (apply Z.pow_pos_nonneg; lia).
    assert (Q : (0 <= m2 / 2 ^ Z.pos p)%Z) by (apply Z.div_pos; lia).
    assert (Q' : (m2 / 2 ^ Z.pos p * 2 ^ Z.pos p <= m2)%Z)
      by (rewrite Z.mul_comm; apply Z.mul_div_le; exact P).
    destruct (m2 / 2 ^ Z.pos p)%Z as [|q|q]; [exact I| |lia].
    replace (t + Z.pos p <=? emax - prec)%Z with true.
    + replace (t + Z.pos p + 2200)%Z with (Z.pos p + (t + 2200))%Z by lia.
      rewrite Z.pow_add_r, Z.mul_assoc by lia.
      apply (Z.le_trans _ (m2 * 2 ^ (t + 2200))); [|exact V].
      apply Z.mul_le_mono_nonneg_r; lia.
    + symmetry. apply Z.leb_le. unfold emax, prec. lia.
  - cbn [shr_m]. destruct m2 as [|q|q]; [exact I| |lia].
    replace (t <=? emax - prec)%Z with true; [exact V|].
    symmetry. apply Z.leb_le. unfold emax, prec. lia.
Qed.

(** The quotient the division starts from is not above the exact one. *)
Lemma SFdiv_core_bound (mx mw : positive) (ex ew : Z) :
  let '(mz, ez, _) :=
    SFdiv_core_binary prec emax (Z.pos mx) ex (Z.pos mw) ew in
  (0 <= mz
   /\ ez = Z.min (fexp prec emax (Z.pos (digits2_pos mx) + ex
                                  - (Z.pos (digits2_pos mw) + ew)))
                 (ex - ew)
   /\ mz * Z.pos mw <= Z.pos mx * 2 ^ (ex - ew - ez))%Z.
Proof.
  unfold SFdiv_core_binary. cbn [Zdigits2].
  set (e' := Z.min _ (ex - ew)).
  assert (Hs : (0 <= ex - ew - e')%Z) by (unfold e'; lia).
  set (m' := match (ex - ew - e')%Z with
             | 0%Z => Z.pos mx
             | Z.pos _ => Z.shiftl (Z.pos mx) (ex - ew - e')
             | Z.neg _ => 0%Z
             end).
  assert (Hm' : m' = (Z.pos mx * 2 ^ (ex - ew - e'))%Z).
  { unfold m'. destruct (ex - ew - e')%Z as [|p|p] eqn:E.
    - simpl. lia.
    - now rewrite Z.shiftl_mul_pow2 by lia.
    - lia. }
  assert (Hq : Z.div_eucl m' (Z.pos mw) = (m' / Z.pos mw, m' mod Z.pos mw)%Z).
  { unfold Z.div, Z.modulo. now destruct (Z.div_eucl m' (Z.pos mw)). }
  rewrite Hq. split; [|split].
  - apply Z.div_pos; [|lia]. rewrite Hm'.
    apply Z.mul_nonneg_nonneg; [lia|]. apply Z.pow_nonneg. lia.
  - reflexivity.
  - rewrite <- Hm', Z.mul_comm. apply Z.mul_div_le. lia.
Qed.

Lemma positive_leb_value (a b : float) (m1 m2 : positive) (e1 e2 : Z) :
  Prim2SF a = S754_finite false m1 e1 ->
  Prim2SF b = S754_finite false m2 e2 ->
  (a <=? b)%float = true ->
  (Z.pos m1 * 2 ^ (e1 + 1074) <= Z.pos m2 * 2 ^ (e2 + 1074))%Z.
Proof.
  intros Ha Hb H.
  destruct (Z.le_gt_cases (Z.pos m1 * 2 ^ (e1 + 1074))
                          (Z.pos m2 * 2 ^ (e2 + 1074))) as [L|G];
    [exact L|].
  assert (C := positive_ltb b a _ _ _ _ Hb Ha G).
  rewrite (leb_ltb_false _ _ H) in C. discriminate.
Qed.

(** The quotient of two positive finite floats, the first not above the
    second, is at most [1 + 2^-52] (scaled by [2^2200]). *)
Lemma div_at_most_one (x w : float) (mx mw : positive) (ex ew : Z) :
  Prim2SF x = S754_finite false mx ex ->
  Prim2SF w = S754_finite false mw ew ->
  (x <=? w)%float = true ->
  match Prim2SF (x / w) with
  | S754_zero false => True
  | S754_finite false mq eq =>
      (Z.pos mq * 2 ^ (eq + 2200) <= 2 ^ 2200 + 2 ^ 2148)%Z
  | _ => False
  end.
Proof.
  intros Hx Hw Hle.
  assert (V := positive_leb_value x w _ _ _ _ Hx Hw Hle).
  destruct (finite_canonical x _ _ _ Hx) as (Dx & Ex & _).
  destruct (finite_canonical w _ _ _ Hw) as (Dw & Ew & _).
  destruct (digits2_pos_bounds mx) as [Lx _].
  destruct (digits2_pos_bounds mw) as [_ Uw].
  set (dx := Z.pos (digits2_pos mx)) in *.
  set (dw := Z.pos (digits2_pos mw)) in *.
  assert (Hmag : (dx + ex <= dw + ew)%Z).
  { assert (A : (2 ^ (dx - 1) * 2 ^ (ex + 1074)
                 < 2 ^ dw * 2 ^ (ew + 1074))%Z).
    { assert (0 < 2 ^ (ex + 1074))%Z by (apply Z.pow_pos_nonneg; lia).
      assert (0 < 2 ^ (ew + 1074))%Z by (apply Z.pow_pos_nonneg; lia).
      nia. }
    rewrite <- !Z.pow_add_r in A by lia.
    apply Z.pow_lt_mono_r_iff in A; lia. }
  rewrite div_spec, Hx, Hw. unfold SF64div, SFdiv.
  assert (B := SFdiv_core_bound mx mw ex ew). fold dx dw in B.
  destruct (SFdiv_core_binary prec emax (Z.pos mx) ex (Z.pos mw) ew)
    as [[mz ez] lz].
  destruct B as (Hz0 & Hez & Hq).
  assert (Hez' : (-2045 <= ez <= -53)%Z).
  { rewrite Hez. unfold fexp, SpecFloat.emin, prec, emax. lia. }
  assert (Hmz : (mz <= 2 ^ (- ez))%Z).
  { assert (K : (0 < Z.pos mw * 2 ^ (ew + 1074))%Z).
    { apply Z.mul_pos_pos; [lia|]. apply Z.pow_pos_nonneg; lia. }
    assert (P : (2 ^ (ex - ew - ez) * 2 ^ (ew + 1074)
                 = 2 ^ (ex + 1074) * 2 ^ (- ez))%Z).
    { rewrite <- !Z.pow_add_r by lia. f_equal. lia. }
    assert (0 <= 2 ^ (- ez))%Z by (apply Z.pow_nonneg; lia).
    assert (0 <= 2 ^ (ew + 1074))%Z by (apply Z.pow_nonneg; lia).
    assert (A : (mz * (Z.pos mw * 2 ^ (ew + 1074))
                 <= 2 ^ (- ez) * (Z.pos mw * 2 ^ (ew + 1074)))%Z).
    { apply (Z.le_trans _ (Z.pos mx * 2 ^ (ex - ew - ez) * 2 ^ (ew + 1074))).
      - rewrite Z.mul_assoc. apply Z.mul_le_mono_nonneg_r; lia.
      - rewrite <- Z.mul_assoc, P, Z.mul_assoc, (Z.mul_comm (2 ^ (- ez))).
        apply Z.mul_le_mono_nonneg_r; lia. }
    apply Z.mul_le_mono_pos_r in A; assumption. }
  assert (Hdz : (Zdigits2 mz <= - ez + 1)%Z).
  { apply Zdigits2_le; [|lia]. rewrite Z.pow_add_r by lia. lia. }
  assert (R := binary_round_aux_value mz ez lz Hz0).
  cbn [xorb].
  destruct (binary_round_aux prec emax false mz ez lz) as [[]|[]| |[] mq eq];
    try (apply R; lia).
  assert (R' := R ltac:(lia) ltac:(lia)). cbv beta iota in R'.
  apply (Z.le_trans _ _ _ R').
  apply Z.add_le_mono.
  - replace 2200%Z with (- ez + (ez + 2200))%Z at 2 by (clear; lia).
    rewrite (Z.pow_add_r 2 (- ez) (ez + 2200)) by (clear - Hez'; lia).
    apply Z.mul_le_mono_nonneg_r;
      [apply Z.pow_nonneg; reflexivity || discriminate|exact Hmz].
  - apply Z.pow_le_mono_r; [reflexivity|].
    clear - Hez' Hdz. unfold fexp, SpecFloat.emin, prec, emax. lia.
Qed.

Lemma pow_le_mantissa (m : positive) (k : Z) :
  (2 ^ k <= Z.pos m * 2 ^ k)%Z.
Proof.
  assert (0 <= 2 ^ k)%Z by (apply Z.pow_nonneg; lia). nia.
Qed.

Lemma pow_lt_inv (a b : Z) : (0 <= b)%Z -> (2 ^ a < 2 ^ b)%Z -> (a < b)%Z.
Proof.
  intros Hb H. destruct (Z.lt_ge_cases a b) as [L|G]; [exact L|exfalso].
  assert (2 ^ b <= 2 ^ a)%Z by (apply Z.pow_le_mono_r; lia). lia.
Qed.

(** Ten times a positive finite float that is at most [1 + 2^-52] is a
    float below 11. *)
Lemma times_10_below_11 (q : float) (mq : positive) (eq : Z) :
  Prim2SF q = S754_finite false mq eq ->
  (Z.pos mq * 2 ^ (eq + 2200) <= 2 ^ 2200 + 2 ^ 2148)%Z ->
  ((0 <=? q * 10) && (q * 10 <? 11))%float = true.
Proof.
  intros Hq V0.
  destruct (finite_canonical q _ _ _ Hq) as (_ & Eq & _).
  (* [V0] and what follows from it are kept away from [lia], which would
     expand the powers *)
  assert (V : True -> (Z.pos mq * 2 ^ (eq + 2200) <= 2 ^ 2200 + 2 ^ 2148)%Z)
    by (intros _; exact V0).
  clear V0.
  assert (Heq : (eq <= 0)%Z).
  { assert (A : (eq + 2200 < 2201)%Z); [|clear - A; lia].
    apply pow_lt_inv; [apply Pos2Z.is_nonneg|].
    apply (Z.le_lt_trans _ _ _ (pow_le_mantissa mq _)).
    apply (Z.le_lt_trans _ _ _ (V I)). reflexivity. }
  set (M := Z.pos (mq * 5629499534213120)).
  set (E := (eq + -49)%Z).
  assert (HM : (M * 2 ^ (E + 2200) = 10 * (Z.pos mq * 2 ^ (eq + 2200)))%Z).
  { unfold M, E. rewrite Pos2Z.inj_mul.
    replace (eq + 2200)%Z with (49 + (eq + -49 + 2200))%Z by lia.
    rewrite (Z.pow_add_r 2 49) by lia.
    change (2 ^ 49)%Z with 562949953421312%Z.
    change (Z.pos 5629499534213120) with (10 * 562949953421312)%Z. lia. }
  assert (V10 : True ->
                (M * 2 ^ (E + 2200) <= 10 * (2 ^ 2200 + 2 ^ 2148))%Z).
  { intros _. rewrite HM.
    apply Z.mul_le_mono_nonneg_l; [apply Pos2Z.is_nonneg|exact (V I)]. }
  clear HM V.
  assert (KE : (0 < 2 ^ (E + 2200))%Z)
    by (apply Z.pow_pos_nonneg; unfold E; lia).
  assert (HD : (Zdigits2 M + E <= 4)%Z).
  { assert (A : (M < 2 ^ (4 - E))%Z).
    { assert (B : (M * 2 ^ (E + 2200) < 2 ^ (4 - E) * 2 ^ (E + 2200))%Z).
      { rewrite <- Z.pow_add_r by (unfold E; lia).
        replace (4 - E + (E + 2200))%Z with 2204%Z by lia.
        apply (Z.le_lt_trans _ _ _ (V10 I)). reflexivity. }
      apply Z.mul_lt_mono_pos_r in B; assumption. }
    assert (Zdigits2 M <= 4 - E)%Z; [|lia].
    apply Zdigits2_le; [|unfold E; lia]. unfold M. lia. }
  assert (R := binary_round_aux_value M E loc_Exact
                 ltac:(unfold M; lia) ltac:(lia) ltac:(unfold E; lia)).
  assert (Ht : (Z.max E (fexp prec emax (Zdigits2 M + E)) + 2200
                <= 2151)%Z).
  { unfold fexp, SpecFloat.emin, prec, emax. unfold E in *. lia. }
  assert (Hm : Prim2SF (q * 10) = binary_round_aux prec emax false M E loc_Exact).
  { now rewrite mul_spec, Hq, Prim2SF_10. }
  destruct (binary_round_aux prec emax false M E loc_Exact)
    as [[]|[]| |[] mt et]; try contradiction.
  - now rewrite leb_spec, ltb_spec, Prim2SF_0, Prim2SF_11, Hm.
  - rewrite (positive_leb_0 _ _ _ Hm), andb_true_l.
    destruct (finite_canonical _ _ _ _ Hm) as (_ & Et & _).
    apply (positive_ltb _ 11 _ _ _ _ Hm Prim2SF_11).
    apply (Z.mul_lt_mono_pos_r (2 ^ 1126));
      [apply Z.pow_pos_nonneg; [reflexivity|apply Pos2Z.is_nonneg]|].
    rewrite <- Z.mul_assoc, <- Z.pow_add_r by (clear - Et; lia).
    replace (et + 1074 + 1126)%Z with (et + 2200)%Z by (clear; lia).
    apply (Z.le_lt_trans _ _ _ R).
    apply (Z.le_lt_trans _ (10 * (2 ^ 2200 + 2 ^ 2148) + 2 ^ 2151)).
    + apply Z.add_le_mono; [exact (V10 I)|].
      apply Z.pow_le_mono_r; [reflexivity|exact Ht].
    + reflexivity.
Qed.

(** A coordinate on the canvas, from 0 to the size of the canvas, scales to
    a float that is at least 0 and below 11. *)
Lemma scaled_on_canvas (x w : float) :
  is_finite w = true -> (0 <? w)%float = true ->
  (0 <=? x)%float = true -> (x <=? w)%float = true ->
  ((0 <=? scaled x w) && (scaled x w <? 11))%float = true.
Proof.
  intros Fw Pw Px Hxw. unfold scaled.
  rewrite is_finite_spec in Fw.
  assert (Lx := Px). assert (Lxw := Hxw).
  rewrite ltb_spec, Prim2SF_0 in Pw. rewrite leb_spec, Prim2SF_0 in Lx.
  rewrite leb_spec in Lxw.
  destruct (Prim2SF w) as [sw|sw| |sw mw ew] eqn:Hw; try discriminate.
  destruct sw; [discriminate|].
  assert (Z10 : forall q s, Prim2SF q = S754_zero s ->
            ((0 <=? q * 10) && (q * 10 <? 11))%float = true).
  { intros q s Hq.
    rewrite leb_spec, ltb_spec, mul_spec, Hq, Prim2SF_0, Prim2SF_10, Prim2SF_11.
    now destruct s. }
  destruct (Prim2SF x) as [sx|sx| |sx mx ex] eqn:Hx; try discriminate.
  - apply (Z10 _ (xorb sx false)). now rewrite div_spec, Hx, Hw.
  - destruct sx; discriminate.
  - destruct sx; [discriminate|].
    assert (D := div_at_most_one x w mx mw ex ew Hx Hw Hxw).
    destruct (Prim2SF (x / w)) as [s|s| |s mq eq] eqn:Hq; try contradiction.
    + now apply (Z10 _ s).
    + destruct s; [contradiction|].
      now apply (times_10_below_11 _ mq eq).
Qed.

(** ** The helpers: positions

    The two thresholds of a band are products rounded to nearest; they are
    in order because the exact products are further apart than the two
    roundings can move them. *)

(** What rounding can take away: the result of rounding [M * 2^E] is less
    than one unit of the exponent [t] below [M * 2^E], unless it
    overflows. *)
Lemma binary_round_aux_lower (M E : Z) (l : location) :
  (0 <= M)%Z -> (-2200 <= E)%Z ->
  let t := Z.max E (fexp prec emax (Zdigits2 M + E)) in
  match binary_round_aux prec emax false M E l with
  | S754_zero false => (M * 2 ^ (E + 2200) < 2 ^ (t + 2200))%Z
  | S754_finite false m e =>
      (M * 2 ^ (E + 2200) < Z.pos m * 2 ^ (e + 2200) + 2 ^ (t + 2200))%Z
  | S754_infinity false => True
  | _ => False
  end.
Proof.
  intros HM0 HE.
  destruct (Zdigits2_bounds M HM0) as [HD0 HM].
  set (D := Zdigits2 M) in *.
  unfold binary_round_aux, shr_fexp. fold D.
  set (n1 := (fexp prec emax (D + E) - E)%Z).
  assert (Hn1 : (n1 = Z.max (D - 53) (-1074 - E))%Z)
    by (unfold n1, fexp, SpecFloat.emin, prec, emax; lia).
  set (t := Z.max E (fexp prec emax (D + E))).
  assert (Ht : (t = Z.max E (E + n1))%Z) by (unfold t, n1; lia).
  cbv zeta.
  assert (S1 : exists mrs',
             shr (shr_record_of_loc M l) E n1 = (mrs', t)
             /\ (0 <= shr_m mrs')%Z
             /\ (M < (shr_m mrs' + 1) * 2 ^ (t - E))%Z
             /\ (shr_m mrs' < 2 ^ 53)%Z).
  { assert (Hl : shr_m (shr_record_of_loc M l) = M)
      by (now destruct l as [|[]]).
    assert (N : (n1 <= 0 -> exists mrs',
              (shr_record_of_loc M l, E) = (mrs', t)
              /\ (0 <= shr_m mrs')%Z
              /\ (M < (shr_m mrs' + 1) * 2 ^ (t - E))%Z
              /\ (shr_m mrs' < 2 ^ 53)%Z)%Z).
    { intro L. exists (shr_record_of_loc M l).
      replace t with E by lia. rewrite Hl, Z.sub_diag.
      split; [reflexivity|]. repeat split; try lia.
      apply (Z.lt_le_trans _ _ _ HM). apply Z.pow_le_mono_r; lia. }
    unfold shr. destruct n1 as [|p|p] eqn:En.
    - apply N; lia.
    - exists (iter_pos shr_1 p (shr_record_of_loc M l)).
      replace (E + Z.pos p)%Z with t by lia.
      split; [reflexivity|].
      rewrite iter_shr_1_m by (rewrite Hl; lia). rewrite Hl.
      replace (t - E)%Z with (Z.pos p) by lia.
      assert (P : (0 < 2 ^ Z.pos p)%Z) by (apply Z.pow_pos_nonneg; lia).
      repeat split.
      + apply Z.div_pos; lia.
      + assert (Q := Z.div_mod M (2 ^ Z.pos p) ltac:(lia)).
        assert (R := Z.mod_pos_bound M (2 ^ Z.pos p) P). nia.
      + apply Z.div_lt_upper_bound; [exact P|].
        rewrite <- Z.pow_add_r by lia.
        apply (Z.lt_le_trans _ _ _ HM). apply Z.pow_le_mono_r; lia.
    - apply N; lia. }
  destruct S1 as (mrs' & -> & Hm0 & Hm1 & Hm53).
  assert (Hr := round_nearest_even_bounds (shr_m mrs')
                                          (loc_of_shr_record mrs')).
  set (m2 := round_nearest_even (shr_m mrs') (loc_of_shr_record mrs')) in *.
  assert (Hte : (-1074 <= t /\ E <= t)%Z) by lia.
  assert (Hd2 : (Zdigits2 m2 <= 54)%Z).
  { apply Zdigits2_le; [|lia].
    change (2 ^ 54)%Z with (2 ^ 53 + 2 ^ 53)%Z. lia. }
  set (n2 := (fexp prec emax (Zdigits2 m2 + t) - t)%Z).
  assert (Hn2 : (n2 = Z.max (Zdigits2 m2 - 53) (-1074 - t))%Z)
    by (unfold n2, fexp, SpecFloat.emin, prec, emax; lia).
  assert (K : (0 < 2 ^ (t + 2200))%Z) by (apply Z.pow_pos_nonneg; lia).
  assert (V : (M * 2 ^ (E + 2200) < m2 * 2 ^ (t + 2200) + 2 ^ (t + 2200))%Z).
  { assert (P : (2 ^ (t + 2200) = 2 ^ (t - E) * 2 ^ (E + 2200))%Z).
    { rewrite <- Z.pow_add_r by lia. f_equal. lia. }
    assert (0 < 2 ^ (E + 2200))%Z by (apply Z.pow_pos_nonneg; lia).
    assert (M * 2 ^ (E + 2200)
            < (shr_m mrs' + 1) * 2 ^ (t - E) * 2 ^ (E + 2200))%Z
      by (apply Z.mul_lt_mono_pos_r; assumption).
    rewrite <- Z.mul_assoc, <- P in H0. nia. }
  assert (N : match m2 with
              | 0%Z => (M * 2 ^ (E + 2200) < 2 ^ (t + 2200))%Z
              | Z.pos m =>
                  if (t <=? emax - prec)%Z
                  then (M * 2 ^ (E + 2200)
                        < Z.pos m * 2 ^ (t + 2200) + 2 ^ (t + 2200))%Z
                  else True
              | Z.neg _ => False
              end).
  { destruct m2 as [|q|q]; [lia| |lia]. now destruct (t <=? emax - prec)%Z. }
  unfold shr. cbn [shr_record_of_loc]. destruct n2 as [|p|p] eqn:En.
  - cbn [shr_m]. destruct m2 as [|q|q]; [exact N| |exact N].
    destruct (t <=? emax - prec)%Z; exact N.
  - assert (Hp : p = 1%positive) by lia. subst p.
    assert (H2 : m2 = (2 ^ 53)%Z).
    { assert (D2 : Zdigits2 m2 = 54%Z) by lia.
      destruct m2 as [|q|q]; cbn [Zdigits2] in D2; try lia.
      destruct (digits2_pos_bounds q) as [Lo _]. rewrite D2 in Lo.
      change (2 ^ (54 - 1))%Z with (2 ^ 53)%Z in Lo. lia. }
    rewrite H2 in V |- *. cbn [iter_pos shr_1 shr_m].
    change (2 ^ 53)%Z with 9007199254740992%Z. cbn [shr_1 shr_m].
    destruct (t + 1 <=? emax - prec)%Z; [|exact I].
    replace (t + 1 + 2200)%Z with (1 + (t + 2200))%Z by lia.
    rewrite (Z.pow_add_r 2 1 (t + 2200)) by lia.
    change (2 ^ 53)%Z with 9007199254740992%Z in V.
    change (2 ^ 1)%Z with 2%Z. lia.
  - cbn [shr_m]. destruct m2 as [|q|q]; [exact N| |exact N].
    destruct (t <=? emax - prec)%Z; exact N.
Qed.

Lemma positive_leb (a b : float) (m1 m2 : positive) (e1 e2 : Z) :
  Prim2SF a = S754_finite false m1 e1 ->
  Prim2SF b = S754_finite false m2 e2 ->
  (Z.pos m1 * 2 ^ (e1 + 1074) <= Z.pos m2 * 2 ^ (e2 + 1074))%Z ->
  (a <=? b)%float = true.
Proof.
  intros Ha Hb H.
  destruct (finite_canonical a _ _ _ Ha) as (Da & Ea & Na).
  destruct (finite_canonical b _ _ _ Hb) as (Db & Eb & Nb).
  destruct (finite_mantissa a _ _ _ Ha) as (Ma & La).
  destruct (finite_mantissa b _ _ _ Hb) as (Mb & Lb).
  rewrite leb_spec, Ha, Hb. unfold SFleb. rewrite SFcompare_positive.
  destruct (Z.compare_spec e1 e2) as [E|E|E].
  - subst e2.
    assert (0 < 2 ^ (e1 + 1074))%Z by (apply Z.pow_pos_nonneg; lia).
    destruct (Z.compare_spec (Z.pos m1) (Z.pos m2));
      [reflexivity|reflexivity|nia].
  - reflexivity.
  - exfalso.
    assert (P : (2 ^ (e1 + 1074) = 2 ^ (e1 - e2) * 2 ^ (e2 + 1074))%Z).
    { rewrite <- Z.pow_add_r by lia. f_equal. lia. }
    assert (Q : (2 <= 2 ^ (e1 - e2))%Z).
    { change 2%Z with (2 ^ 1)%Z at 1. apply Z.pow_le_mono_r; lia. }
    assert (0 < 2 ^ (e2 + 1074))%Z by (apply Z.pow_pos_nonneg; lia).
    assert (2 ^ 52 <= Z.pos m1)%Z by (apply La; lia).
    rewrite P in H.
    assert (Z.pos m2 * 2 ^ (e2 + 1074) < 2 ^ 53 * 2 ^ (e2 + 1074))%Z by nia.
    assert (2 ^ 53 * 2 ^ (e2 + 1074)
            <= Z.pos m1 * (2 ^ (e1 - e2) * 2 ^ (e2 + 1074)))%Z; [|lia].
    replace (2 ^ 53)%Z with (2 ^ 52 * 2)%Z by reflexivity.
    rewrite Z.mul_assoc.
    apply Z.mul_le_mono_nonneg_r; [lia|].
    apply Z.mul_le_mono_nonneg; lia.
Qed.

Lemma Prim2SF_04 : Prim2SF 0.4 = S754_finite false 7205759403792794 (-54).
Proof. reflexivity. Qed.

Lemma Prim2SF_06 : Prim2SF 0.6 = S754_finite false 5404319552844595 (-53).
Proof. reflexivity. Qed.

(** A power of 2 whose exponent is at most the larger of two is at most
    the sum of the two powers. *)
Lemma pow_max_bound (a b t : Z) :
  (0 <= a)%Z -> (0 <= b)%Z -> (t <= Z.max a b)%Z ->
  (2 ^ t <= 2 ^ a + 2 ^ b)%Z.
Proof.
  intros Ha Hb H.
  assert (0 < 2 ^ a)%Z by (apply Z.pow_pos_nonneg; lia).
  assert (0 < 2 ^ b)%Z by (apply Z.pow_pos_nonneg; lia).
  destruct (Z.le_ge_cases a b) as [L|L].
  - assert (2 ^ t <= 2 ^ b)%Z; [|lia].
    destruct (Z.lt_ge_cases t 0) as [N|N].
    + rewrite Z.pow_neg_r by exact N. lia.
    + apply Z.pow_le_mono_r; lia.
  - assert (2 ^ t <= 2 ^ a)%Z; [|lia].
    destruct (Z.lt_ge_cases t 0) as [N|N].
    + rewrite Z.pow_neg_r by exact N. lia.
    + apply Z.pow_le_mono_r; lia.
Qed.

(** The sixteen smallest floats that are not negative: both thresholds are
    computed. *)
Lemma thresholds_tiny (m : positive) (size : float) :
  Prim2SF size = S754_finite false m (-1074) -> (Z.pos m < 16)%Z ->
  (0.4 * size <=? 0.6 * size)%float = true.
Proof.
  intros H L. rewrite <- (SF2Prim_Prim2SF size), H.
  destruct m as [[[[m|m|]|[m|m|]|]|[[m|m|]|[m|m|]|]|]
                |[[[m|m|]|[m|m|]|]|[[m|m|]|[m|m|]|]|]|]; try lia;
    vm_compute; reflexivity.
Qed.

(** For a size that is not negative, 0.4 times the size is computed as at
    most 0.6 times the size. *)
Lemma thresholds_in_order (size : float) :
  (0 <=? size)%float = true -> (0.4 * size <=? 0.6 * size)%float = true.
Proof.
  intro H0. assert (L0 := H0). rewrite leb_spec, Prim2SF_0 in L0.
  destruct (Prim2SF size) as [s|s| |s m e] eqn:Hs; try discriminate.
  - rewrite leb_spec, !mul_spec, Hs, Prim2SF_04, Prim2SF_06.
    now destruct s.
  - destruct s; [discriminate|].
    now rewrite leb_spec, !mul_spec, Hs, Prim2SF_04, Prim2SF_06.
  - destruct s; [discriminate|].
    destruct (finite_canonical _ _ _ _ Hs) as (Dm & He & Hn).
    destruct (digits2_pos_bounds m) as [Mlo Mhi].
    set (dm := Z.pos (digits2_pos m)) in *.
    destruct (Z.lt_ge_cases (Z.pos m) 16) as [Small|Big].
    { apply (thresholds_tiny m); [|exact Small].
      assert (e = -1074)%Z; [|now subst e].
      destruct (Z.eq_dec e (-1074)) as [Q|Q]; [exact Q|exfalso].
      assert (D53 : dm = 53%Z) by (apply Hn; lia).
      rewrite D53 in Mlo. change (2 ^ (53 - 1))%Z with 4503599627370496%Z in Mlo.
      lia. }
    set (MA := Z.pos (7205759403792794 * m)).
    set (MB := Z.pos (5404319552844595 * m)).
    set (EA := (-54 + e)%Z). set (EB := (-53 + e)%Z).
    assert (Ha : Prim2SF (0.4 * size)
                 = binary_round_aux prec emax false MA EA loc_Exact)
      by now rewrite mul_spec, Hs, Prim2SF_04.
    assert (Hb : Prim2SF (0.6 * size)
                 = binary_round_aux prec emax false MB EB loc_Exact)
      by now rewrite mul_spec, Hs, Prim2SF_06.
    assert (P53 : (2 ^ (53 + dm) = 9007199254740992 * 2 ^ dm)%Z)
      by (rewrite Z.pow_add_r by lia; reflexivity).
    assert (Pdm : (2 ^ dm = 2 * 2 ^ (dm - 1))%Z).
    { replace dm with (1 + (dm - 1))%Z at 1 by lia.
      rewrite Z.pow_add_r by lia. reflexivity. }
    assert (DA : (Zdigits2 MA <= 53 + dm)%Z).
    { apply Zdigits2_le; [|lia]. unfold MA. rewrite Pos2Z.inj_mul. nia. }
    assert (DB : (Zdigits2 MB <= 53 + dm)%Z).
    { apply Zdigits2_le; [|lia]. unfold MB. rewrite Pos2Z.inj_mul. nia. }
    assert (UA := binary_round_aux_value MA EA loc_Exact
                    ltac:(unfold MA; lia) ltac:(unfold EA; lia)
                    ltac:(unfold EA; lia)).
    assert (LB := binary_round_aux_lower MB EB loc_Exact
                    ltac:(unfold MB; lia) ltac:(unfold EB; lia)).
    cbv zeta in LB.
    set (tA := Z.max EA (fexp prec emax (Zdigits2 MA + EA))) in *.
    set (tB := Z.max EB (fexp prec emax (Zdigits2 MB + EB))) in *.
    (* everything in units of [Y * K], with [Y = 2^(e + 1074)] and
       [K = 2^1072] *)
    assert (U : exists Y K : Z,
               (0 < K /\ 1 <= Y
                /\ 2 ^ (EA + 2200) = Y * K
                /\ 2 ^ (EB + 2200) = 2 * (Y * K)
                /\ (forall t, t <= Z.max (dm + e - 54 + 2200) 1126 ->
                     2 ^ t <= 2 ^ dm * (Y * K) + 18014398509481984 * K)
                /\ (forall t, t <= Z.max (dm + e - 53 + 2200) 1126 ->
                     2 ^ t <= 2 * (2 ^ dm * (Y * K))
                              + 18014398509481984 * K))%Z).
    { exists (2 ^ (e + 1074))%Z, (2 ^ 1072)%Z.
      split; [apply Z.pow_pos_nonneg; lia|].
      split; [change 1%Z with (2 ^ 0)%Z; apply Z.pow_le_mono_r; lia|].
      rewrite <- !Z.pow_add_r by lia.
      split; [unfold EA; f_equal; lia|].
      split.
      { change 2%Z with (2 ^ 1)%Z at 2. rewrite <- Z.pow_add_r by lia.
        unfold EB. f_equal. lia. }
      change (18014398509481984 * 2 ^ 1072)%Z with (2 ^ 1126)%Z.
      split; intros t Q.
      - replace (dm + (e + 1074 + 1072))%Z with (dm + e - 54 + 2200)%Z
          by lia.
        apply pow_max_bound; [lia|lia|exact Q].
      - change 2%Z with (2 ^ 1)%Z at 2. rewrite <- Z.pow_add_r by lia.
        replace (1 + (dm + (e + 1074 + 1072)))%Z
          with (dm + e - 53 + 2200)%Z by lia.
        apply pow_max_bound; [lia|lia|exact Q]. }
    destruct U as (Y & K & HK & HY & XA & XB & QA & QB).
    assert (TA : (2 ^ (tA + 2200) <= 2 ^ dm * (Y * K)
                                     + 18014398509481984 * K)%Z).
    { apply QA. clear - DA Dm He.
      unfold tA, fexp, SpecFloat.emin, prec, emax, EA in *. lia. }
    assert (TB : (2 ^ (tB + 2200) <= 2 * (2 ^ dm * (Y * K))
                                     + 18014398509481984 * K)%Z).
    { apply QB. clear - DB Dm He.
      unfold tB, fexp, SpecFloat.emin, prec, emax, EB in *. lia. }
    clear QA QB.
    assert (KtA : (0 < 2 ^ (tA + 2200))%Z).
    { apply Z.pow_pos_nonneg; [lia|].
      clear - He. unfold tA, EA. lia. }
    (* the gap between the two exact products covers both roundings *)
    assert (G : (MA * 2 ^ (EA + 2200) + 2 ^ (tA + 2200) + 2 ^ (tB + 2200)
                 <= MB * 2 ^ (EB + 2200))%Z).
    { rewrite XA, XB. unfold MA, MB. rewrite !Pos2Z.inj_mul.
      assert (YK : (1 * K <= Y * K)%Z)
        by (apply Z.mul_le_mono_nonneg_r; clear - HK HY; lia).
      assert (M1 : (3 * 2 ^ dm * (Y * K) <= 6 * Z.pos m * (Y * K))%Z).
      { apply Z.mul_le_mono_nonneg_r; clear - HK HY Mlo Pdm; nia. }
      assert (M2 : (2251799813685248 * 16 * (Y * K)
                    <= 2251799813685248 * Z.pos m * (Y * K))%Z).
      { apply Z.mul_le_mono_nonneg_r; clear - HK HY Big; nia. }
      clear - TA TB YK M1 M2 HK. lia. }
    clear TA TB XA XB HK HY Pdm P53 DA DB Mlo Mhi Big Hn.
    destruct (binary_round_aux prec emax false MA EA loc_Exact)
      as [[]|[]| |[] mA eA]; try contradiction;
      destruct (binary_round_aux prec emax false MB EB loc_Exact)
        as [[]|[]| |[] mB eB]; try contradiction;
      try (now rewrite leb_spec, Ha, Hb);
      try (exfalso; clear - G LB KtA; unfold MA in *; lia).
    destruct (finite_canonical _ _ _ _ Ha) as (_ & EeA & _).
    destruct (finite_canonical _ _ _ _ Hb) as (_ & EeB & _).
    apply (positive_leb _ _ _ _ _ _ Ha Hb).
    assert (V : (Z.pos mA * 2 ^ (eA + 2200) <= Z.pos mB * 2 ^ (eB + 2200))%Z)
      by (clear - G UA LB; lia).
    replace (eA + 2200)%Z with (eA + 1074 + 1126)%Z in V by lia.
    replace (eB + 2200)%Z with (eB + 1074 + 1126)%Z in V by lia.
    rewrite (Z.pow_add_r 2 (eA + 1074)), (Z.pow_add_r 2 (eB + 1074)),
      !Z.mul_assoc in V by lia.
    apply Z.mul_le_mono_pos_r in V; [exact V|].
    apply Z.pow_pos_nonneg; lia.
Qed.

Lemma getPos_zone (x y w h : float) :
  _getPos (x, y) w h = zone (band_of x w) (band_of y h).
Proof.
  unfold _getPos, band_of. cbn [fst snd].
  destruct (x <? 0.4 * w)%float, (0.6 * w <? x)%float,
    (y <? 0.4 * h)%float, (0.6 * h <? y)%float; reflexivity.
Qed.

Lemma band_of_thresholds (size : float) :
  (0 <=? size)%float = true ->
  band_of (0.4 * size) size = Mid /\ band_of (0.6 * size) size = Mid.
Proof.
  intro H. apply thresholds_in_order, leb_ltb_false in H. unfold band_of.
  now rewrite !ltb_irrefl, H.
Qed.

(** C5. [_getPos] names the cell of a 3 by 3 partition of the canvas: along
    each axis a coordinate is in the low band when it is strictly below 0.4
    times the size, in the high band when it is strictly above 0.6 times
    the size, and in the middle band otherwise; the name is the one of the
    column and row, the bare "middle" when both are the middle band.  On a
    canvas whose size is not negative, a coordinate that equals 0.4 times
    or 0.6 times the size, as the code computes them, is in the middle
    band.  On a canvas of 100 by 100, (10,10) is "top left", (50,10) is
    "top middle", (90,50) is "mid right" and (50,50) is "middle", and 40
    and 60 are in the middle band. *)
Theorem getPos_partition :
  (forall x y w h : float,
      _getPos (x, y) w h = zone (band_of x w) (band_of y h))
  /\ (forall v size : float,
      band_of v size
      = if (v <? 0.4 * size)%float then Low
        else if (0.6 * size <? v)%float then High else Mid)
  /\ (forall size : float,
      (0 <=? size)%float = true ->
      band_of (0.4 * size) size = Mid /\ band_of (0.6 * size) size = Mid)
  /\ (forall x y w h : float,
      band_of x w = Mid -> band_of y h = Mid -> _getPos (x, y) w h = "middle")
  /\ (_getPos (10, 10) 100 100 = "top left"
      /\ _getPos (50, 10) 100 100 = "top middle"
      /\ _getPos (90, 50) 100 100 = "mid right"
      /\ _getPos (50, 50) 100 100 = "middle")%float
  /\ (band_of 40 100 = Mid /\ band_of 60 100 = Mid
      /\ _getPos (40, 40) 100 100 = "middle"
      /\ _getPos (60, 60) 100 100 = "middle")%float.
Proof.
  split; [exact getPos_zone|].
  split; [reflexivity|].
  split; [exact band_of_thresholds|].
  split.
  { intros x y w h Hx Hy. now rewrite getPos_zone, Hx, Hy. }
  split; repeat split; reflexivity.
Qed.

(** ** Grid cells of the recorded shapes *)

Lemma describe_loc (Math_cos Math_sin : float -> float)
  (dist : float -> float -> float -> float -> float)
  (k : kind) (args : list jsval) (this : p5) :
  prop "loc" (describe Math_cos Math_sin dist k args this)
  = Some (PLoc (_canvasLocator (_getMiddle k args) (width this) (height this))).
Proof. destruct k; reflexivity. Qed.

(** C7, as stated, fails: a point drawn at (150,150) on a canvas of 100 by
    100 is recorded in the cell (15,15). *)
Lemma grid_cell_off_canvas :
  ~ (forall (Math_cos Math_sin : float -> float)
            (dist : float -> float -> float -> float -> float)
            (this : p5) (f : kind) (args : list jsval) (l : locxy),
        prop "loc" (describe Math_cos Math_sin dist (reclassify f args)
                             args this) = Some (PLoc l) ->
        in_grid l = true).
Proof.
  intro H.
  specialize (H (fun _ => nan) (fun _ => nan) (fun _ _ _ _ => nan)
                (example_sketch 100 100) point [JNum 150; JNum 150]
                {| locX := 15; locY := 15 |} eq_refl).
  discriminate H.
Qed.

(** C7, amended.  The grid cell of the record that [_accsOutput] builds is
    the one [_canvasLocator] gives the middle of the (reclassified) shape.
    Each of its two components is an integer from 0 to 9 exactly when the
    coordinate of the middle, divided by the size of the canvas and
    multiplied by 10 as the locator computes it in floating point, is at
    least 0 and less than 11.  On a canvas of finite positive width and
    height, a middle that lies on the canvas (from 0 to the width and from
    0 to the height, both included) is given a cell with both components
    integers from 0 to 9.  Off the canvas a component can be outside 0 to
    9: on a canvas of 100 by 100 a point at (150,150) is given the cell
    (15,15) and a point at (-5,-5) the cell (-1,-1).  It need not be: a
    point at (-5e-324,-5e-324), above and left of that canvas, is given the
    cell (-0,-0), whose quotients underflow; it is in the grid and prints
    as two 0. *)
Theorem accsOutput_grid_cell :
  (forall (Math_cos Math_sin : float -> float)
          (dist : float -> float -> float -> float -> float)
          (this : p5) (f : kind) (args : list jsval),
      let k := reclassify f args in
      let middle := _getMiddle k args in
      let l := _canvasLocator middle (width this) (height this) in
      prop "loc" (describe Math_cos Math_sin dist k args this) = Some (PLoc l)
      /\ grid_index (locX l)
         = ((0 <=? scaled (fst middle) (width this))
            && (scaled (fst middle) (width this) <? 11))%float
      /\ grid_index (locY l)
         = ((0 <=? scaled (snd middle) (height this))
            && (scaled (snd middle) (height this) <? 11))%float
      /\ (is_finite (width this) = true -> (0 <? width this)%float = true ->
          is_finite (height this) = true -> (0 <? height this)%float = true ->
          (0 <=? fst middle)%float = true ->
          (fst middle <=? width this)%float = true ->
          (0 <=? snd middle)%float = true ->
          (snd middle <=? height this)%float = true ->
          in_grid l = true))
  /\ (let l := _canvasLocator (_getMiddle point [JNum 150; JNum 150])
                              100 100 in
      l = {| locX := 15; locY := 15 |} /\ in_grid l = false)%float
  /\ (let l := _canvasLocator (_getMiddle point [JNum (-5); JNum (-5)])
                              100 100 in
      l = {| locX := -1; locY := -1 |} /\ in_grid l = false)%float
  /\ (let l := _canvasLocator
                 (_getMiddle point [JNum (-0x1p-1074); JNum (-0x1p-1074)])
                 100 100 in
      l = {| locX := -0; locY := -0 |} /\ in_grid l = true
      /\ JSON.value (PLoc l)
         = [LBrace; LString "locX"; Colon; LNumber 0; Comma;
            LString "locY"; Colon; LNumber 0; RBrace])%float.
Proof.
  split; [|repeat split; reflexivity].
  intros Math_cos Math_sin dist this f args k middle l.
  split; [apply describe_loc|].
  unfold in_grid, l. destruct middle as [x y].
  rewrite canvasLocator_clamp. cbn [locX locY fst snd].
  rewrite !grid_index_clamp_floor.
  repeat split.
  intros Fw Pw Fh Ph X0 Xw Y0 Yh.
  now rewrite !scaled_on_canvas.
Qed.

(** ** Coordinates that are not numbers and canvases without area *)

Lemma prints_null_spec (x : float) :
  prints_null x = match Prim2SF x with
                  | S754_infinity _ | S754_nan => true
                  | _ => false
                  end.
Proof.
  unfold prints_null, is_infinity. rewrite is_nan_spec, eqb_spec, abs_spec.
  destruct (Prim2SF x) as [s|s| |s m e]; reflexivity.
Qed.

Lemma Prim2SF_nan (x : float) : Prim2SF x = S754_nan -> x = nan.
Proof.
  intro H. rewrite <- (SF2Prim_Prim2SF x), H. reflexivity.
Qed.

(** No comparison holds of NaN, and NaN times a number is NaN. *)
Lemma ltb_nan (x y : float) :
  is_nan x = true -> (x <? y)%float = false /\ (y <? x)%float = false.
Proof.
  rewrite is_nan_spec, !ltb_spec. destruct (Prim2SF x); try discriminate.
  intros _. split; [reflexivity|]. now destruct (Prim2SF y) as [[]|[]| |[] ? ?].
Qed.

Lemma mul_nan (c x : float) : is_nan x = true -> is_nan (c * x) = true.
Proof.
  rewrite !is_nan_spec, mul_spec. destruct (Prim2SF x); try discriminate.
  intros _. now destruct (Prim2SF c).
Qed.

Lemma band_of_nan (v size : float) :
  is_nan v = true \/ is_nan size = true -> band_of v size = Mid.
Proof.
  unfold band_of. intros [H|H].
  - destruct (ltb_nan v (0.4 * size) H) as [-> _].
    now destruct (ltb_nan v (0.6 * size) H) as [_ ->].
  - destruct (ltb_nan _ v (mul_nan 0.4 size H)) as [_ ->].
    now destruct (ltb_nan _ v (mul_nan 0.6 size H)) as [-> _].
Qed.

(** X9.  [_getPos] always answers with one of its nine names, and with
    "middle" when it cannot compare: a coordinate or a canvas size that is
    NaN is in the middle band, since no comparison holds of NaN. So the
    record of a shape drawn without arguments, whatever the canvas, has the
    position "middle" (for every kind but a line, whose position is made of
    its two ends) and a grid cell of two NaN, which prints as two
    [null]. *)
Theorem getPos_not_a_number :
  (forall x y w h : float, In (_getPos (x, y) w h) positions)
  /\ (forall v size : float,
        is_nan v = true \/ is_nan size = true -> band_of v size = Mid)
  /\ (forall x y w h : float,
        is_nan x = true \/ is_nan w = true ->
        is_nan y = true \/ is_nan h = true ->
        _getPos (x, y) w h = "middle")
  /\ (forall (Math_cos Math_sin : float -> float)
             (dist : float -> float -> float -> float -> float)
             (k : kind) (this : p5),
        let include := describe Math_cos Math_sin dist k [] this in
        (k <> line -> prop "pos" include = Some (PStr "middle"))
        /\ prop "loc" include = Some (PLoc {| locX := nan; locY := nan |})
        /\ JSON.value (PLoc {| locX := nan; locY := nan |})
           = [LBrace; LString "locX"; Colon; LNull; Comma;
              LString "locY"; Colon; LNull; RBrace]).
Proof.
  split.
  { intros x y w h. rewrite getPos_zone. unfold positions.
    destruct (band_of x w), (band_of y h); cbn; tauto. }
  split; [exact band_of_nan|].
  assert (P : forall x y w h : float,
             is_nan x = true \/ is_nan w = true ->
             is_nan y = true \/ is_nan h = true ->
             _getPos (x, y) w h = "middle").
  { intros x y w h Hx Hy.
    now rewrite getPos_zone, (band_of_nan x w Hx), (band_of_nan y h Hy). }
  split; [exact P|].
  intros Math_cos Math_sin dist k this include.
  assert (M : _getMiddle k [] = (nan, nan)) by (destruct k; reflexivity).
  assert (L : forall w h : float,
             _canvasLocator (nan, nan) w h = {| locX := nan; locY := nan |}).
  { intros w h.
    assert (Q : forall size : float,
               clamp (Num.Math_floor (scaled nan size)) = nan).
    { intro size.
      assert (N : scaled nan size = nan).
      { apply Prim2SF_nan. unfold scaled.
        rewrite mul_spec, div_spec.
        change (Prim2SF nan) with S754_nan. reflexivity. }
      rewrite N. reflexivity. }
    rewrite canvasLocator_clamp. now rewrite !Q. }
  split; [|split; [|reflexivity]].
  - intro Hk.
    assert (D : prop "pos" include
                = Some (PStr (_getPos (_getMiddle k []) (width this)
                                      (height this))))
      by (destruct k; try reflexivity; now contradiction Hk).
    rewrite D, M. f_equal. f_equal. apply P; left; reflexivity.
  - unfold include. now rewrite describe_loc, M, L.
Qed.

(** *** A canvas without area *)

Lemma div_by_zero (x w : float) :
  is_zero w = true -> prints_null (x / w) = true.
Proof.
  unfold is_zero. rewrite prints_null_spec, eqb_spec, div_spec.
  change (Prim2SF 0) with (S754_zero false).
  destruct (Prim2SF w) as [s|s| |s m e]; try (destruct s; discriminate);
    try discriminate.
  intros _. now destruct (Prim2SF x) as [?|?| |? ? ?].
Qed.

Lemma div_by_nan (x w : float) :
  is_nan w = true -> prints_null (x / w) = true.
Proof.
  rewrite prints_null_spec, is_nan_spec, div_spec.
  destruct (Prim2SF w); try discriminate.
  intros _. now destruct (Prim2SF x).
Qed.

Lemma times_null (q c : float) (m : positive) (e : Z) :
  Prim2SF c = S754_finite false m e ->
  prints_null q = true -> prints_null (q * c) = true.
Proof.
  intro Hc. rewrite !prints_null_spec, mul_spec, Hc.
  now destruct (Prim2SF q) as [?|?| |? ? ?].
Qed.

Lemma Math_floor_null (q : float) :
  prints_null q = true -> Num.Math_floor q = q.
Proof.
  rewrite prints_null_spec. unfold Num.Math_floor.
  now destruct (Prim2SF q) as [?|?| |? ? ?].
Qed.

Lemma Math_round_null (q : float) :
  prints_null q = true -> Num.Math_round q = q.
Proof.
  rewrite prints_null_spec. unfold Num.Math_round.
  now destruct (Prim2SF q) as [?|?| |? ? ?].
Qed.

Lemma clamp_null (q : float) : prints_null q = true -> clamp q = q.
Proof.
  intro H. rewrite clamp_10.
  replace (q =? 10)%float with false; [reflexivity|].
  rewrite prints_null_spec in H. rewrite eqb_spec, Prim2SF_10.
  now destruct (Prim2SF q) as [?|[]| |? ? ?].
Qed.

Lemma null_not_grid (q : float) : prints_null q = true -> grid_index q = false.
Proof.
  intro H. assert (F := Math_floor_null q H).
  rewrite prints_null_spec in H. unfold grid_index.
  rewrite !leb_spec, Prim2SF_0, Prim2SF_9.
  now destruct (Prim2SF q) as [?|[]| |? ? ?].
Qed.

Lemma zero_times (w h : float) :
  is_zero w = true -> is_zero (w * h) = true \/ is_nan (w * h) = true.
Proof.
  unfold is_zero. rewrite is_nan_spec, !eqb_spec, mul_spec.
  change (Prim2SF 0) with (S754_zero false).
  destruct (Prim2SF w) as [s|s| |s m e]; try (destruct s; discriminate);
    try discriminate.
  intros _. destruct (Prim2SF h) as [[]|?| |? ? ?], s; cbn; tauto.
Qed.

Lemma times_zero (w h : float) :
  is_zero h = true -> is_zero (w * h) = true \/ is_nan (w * h) = true.
Proof.
  unfold is_zero. rewrite is_nan_spec, !eqb_spec, mul_spec.
  change (Prim2SF 0) with (S754_zero false).
  destruct (Prim2SF h) as [s|s| |s m e]; try (destruct s; discriminate);
    try discriminate.
  intros _. destruct (Prim2SF w) as [[]|?| |? ? ?], s; cbn; tauto.
Qed.

(** X10.  On a canvas whose width is zero nothing can be located or
    measured: the column of the grid cell is an infinity or NaN for every
    coordinate, never an index of the grid, and so is the area of every
    shape; both print as [null]. The same holds for the row on a canvas
    whose height is zero. *)
Theorem canvas_without_area :
  forall (Math_cos Math_sin : float -> float) (x y w h : float),
    (is_zero w = true ->
     prints_null (locX (_canvasLocator (x, y) w h)) = true
     /\ grid_index (locX (_canvasLocator (x, y) w h)) = false
     /\ forall (k : kind) (args : list jsval),
          prints_null (_getArea Math_cos Math_sin k args w h) = true)
    /\ (is_zero h = true ->
        prints_null (locY (_canvasLocator (x, y) w h)) = true
        /\ grid_index (locY (_canvasLocator (x, y) w h)) = false
        /\ forall (k : kind) (args : list jsval),
             prints_null (_getArea Math_cos Math_sin k args w h) = true).
Proof.
  intros Math_cos Math_sin x y w h.
  assert (L : forall v size : float,
             is_zero size = true ->
             prints_null (clamp (Num.Math_floor (scaled v size))) = true).
  { intros v size Z.
    assert (S : prints_null (scaled v size) = true).
    { unfold scaled. apply (times_null _ _ _ _ Prim2SF_10).
      now apply div_by_zero. }
    rewrite (Math_floor_null _ S). now rewrite (clamp_null _ S). }
  assert (A : forall (k : kind) (args : list jsval) (p : float),
             is_zero p = true \/ is_nan p = true ->
             forall a : float,
               prints_null (Num.Math_round (a * 100 / p)) = true).
  { intros k args p [Z|N] a.
    - assert (D := div_by_zero (a * 100) p Z).
      now rewrite (Math_round_null _ D).
    - assert (D := div_by_nan (a * 100) p N).
      now rewrite (Math_round_null _ D). }
  rewrite canvasLocator_clamp. cbn [locX locY].
  split; intro Z.
  - split; [now apply L|]. split; [apply null_not_grid; now apply L|].
    intros k args. unfold _getArea. apply (A k args).
    now apply zero_times.
  - split; [now apply L|]. split; [apply null_not_grid; now apply L|].
    intros k args. unfold _getArea. apply (A k args).
    now apply times_zero.
Qed.

(** ** The edge of the canvas

    A quotient of two floats that is below 1 is computed as a float below
    1, and ten times such a float as a float below 10: rounding never
    crosses a number that is itself on the grid it rounds to. *)

(** Shifting out zeros leaves nothing behind. *)
Lemma shr_1_exact (C : Z) :
  (0 <= C)%Z ->
  shr_1 (Build_shr_record (C * 2) false false) = Build_shr_record C false false.
Proof.
  intro H. destruct C as [|p|p]; [reflexivity| |lia].
  change (Z.pos p * 2)%Z with (Z.pos (p * 2)). rewrite Pos.mul_comm.
  reflexivity.
Qed.

Lemma iter_shr_1_exact (n : positive) :
  forall C : Z,
    (0 <= C)%Z ->
    iter_pos shr_1 n (Build_shr_record (C * 2 ^ Z.pos n) false false)
    = Build_shr_record C false false.
Proof.
  induction n as [n IH|n IH|]; intros C HC; cbn [iter_pos].
  - assert (P : (0 < 2 ^ Z.pos n)%Z) by (apply Z.pow_pos_nonneg; lia).
    replace (C * 2 ^ Z.pos n~1)%Z
      with (C * 2 ^ Z.pos n * 2 ^ Z.pos n * 2)%Z.
    + rewrite shr_1_exact by nia. rewrite IH by nia. now rewrite IH.
    + rewrite (Pos2Z.inj_xI n).
      replace (2 * Z.pos n + 1)%Z with (Z.pos n + Z.pos n + 1)%Z by lia.
      rewrite !Z.pow_add_r by lia. change (2 ^ 1)%Z with 2%Z. lia.
  - assert (P : (0 < 2 ^ Z.pos n)%Z) by (apply Z.pow_pos_nonneg; lia).
    replace (C * 2 ^ Z.pos n~0)%Z with (C * 2 ^ Z.pos n * 2 ^ Z.pos n)%Z.
    + rewrite IH by nia. now rewrite IH.
    + rewrite (Pos2Z.inj_xO n).
      replace (2 * Z.pos n)%Z with (Z.pos n + Z.pos n)%Z by lia.
      rewrite Z.pow_add_r by lia. lia.
  - change (2 ^ 1)%Z with 2%Z. now apply shr_1_exact.
Qed.

(** Rounding [M * 2^E] (with whatever was cut off below [M]) does not go
    above a multiple [C * 2^t] of the unit [2^t] it rounds to, when the
    number is below that multiple, or is that multiple exactly. *)
Lemma binary_round_aux_grid (M E C : Z) (l : location) :
  (0 <= M)%Z -> (Zdigits2 M + E <= 1023)%Z -> (E <= 971)%Z ->
  let t := Z.max E (fexp prec emax (Zdigits2 M + E)) in
  (M < C * 2 ^ (t - E) \/ (M = C * 2 ^ (t - E) /\ l = loc_Exact))%Z ->
  match binary_round_aux prec emax false M E l with
  | S754_zero false => True
  | S754_finite false m e => (t <= e /\ Z.pos m * 2 ^ (e - t) <= C)%Z
  | _ => False
  end.
Proof.
  intros HM0 HD HE t HC.
  destruct (Zdigits2_bounds M HM0) as [HD0 HM].
  unfold t in *. clear t.
  set (D := Zdigits2 M) in *.
  unfold binary_round_aux, shr_fexp. fold D.
  set (n1 := (fexp prec emax (D + E) - E)%Z).
  assert (Hn1 : (n1 = Z.max (D - 53) (-1074 - E))%Z)
    by (unfold n1, fexp, SpecFloat.emin, prec, emax; lia).
  set (t := Z.max E (fexp prec emax (D + E))) in *.
  assert (Ht : (t = Z.max E (E + n1))%Z) by (unfold t, n1; lia).
  assert (Pt : (0 < 2 ^ (t - E))%Z) by (apply Z.pow_pos_nonneg; lia).
  assert (S1 : exists mrs',
             shr (shr_record_of_loc M l) E n1 = (mrs', t)
             /\ (0 <= shr_m mrs')%Z
             /\ (shr_m mrs' * 2 ^ (t - E) <= M)%Z
             /\ (shr_m mrs' < 2 ^ 53)%Z
             /\ (M = C * 2 ^ (t - E) /\ l = loc_Exact ->
                 mrs' = Build_shr_record C false false)%Z).
  { assert (Hl : shr_m (shr_record_of_loc M l) = M)
      by (now destruct l as [|[]]).
    assert (N : (n1 <= 0 -> exists mrs',
              (shr_record_of_loc M l, E) = (mrs', t)
              /\ (0 <= shr_m mrs')%Z
              /\ (shr_m mrs' * 2 ^ (t - E) <= M)%Z
              /\ (shr_m mrs' < 2 ^ 53)%Z
              /\ (M = C * 2 ^ (t - E) /\ l = loc_Exact ->
                  mrs' = Build_shr_record C false false))%Z).
    { intro L. exists (shr_record_of_loc M l).
      replace t with E in * by lia. rewrite Hl, Z.sub_diag.
      split; [reflexivity|]. repeat split; try lia.
      - apply (Z.lt_le_trans _ _ _ HM). apply Z.pow_le_mono_r; lia.
      - intros [Q1 Q2]. subst l. cbn [shr_record_of_loc].
        f_equal. change (2 ^ 0)%Z with 1%Z in Q1. lia. }
    unfold shr. destruct n1 as [|p|p] eqn:En.
    - apply N; lia.
    - exists (iter_pos shr_1 p (shr_record_of_loc M l)).
      replace (E + Z.pos p)%Z with t by lia.
      split; [reflexivity|].
      rewrite iter_shr_1_m by (rewrite Hl; lia). rewrite Hl.
      replace (t - E)%Z with (Z.pos p) in * by lia.
      repeat split.
      + apply Z.div_pos; lia.
      + rewrite Z.mul_comm. apply Z.mul_div_le. exact Pt.
      + apply Z.div_lt_upper_bound; [exact Pt|].
        rewrite <- Z.pow_add_r by lia.
        apply (Z.lt_le_trans _ _ _ HM). apply Z.pow_le_mono_r; lia.
      + intros [Q1 Q2]. subst l M. cbn [shr_record_of_loc].
        apply iter_shr_1_exact. nia.
    - apply N; lia. }
  destruct S1 as (mrs' & -> & Hm0 & Hm1 & Hm53 & Hex).
  assert (Hr := round_nearest_even_bounds (shr_m mrs')
                                          (loc_of_shr_record mrs')).
  set (m2 := round_nearest_even (shr_m mrs') (loc_of_shr_record mrs')) in *.
  assert (Hm2 : (m2 <= C)%Z).
  { destruct HC as [HC|HC].
    - assert (shr_m mrs' < C)%Z by nia. lia.
    - unfold m2. rewrite (Hex HC). reflexivity. }
  assert (HtE : (-1074 <= t /\ (t <= 970 \/ (t = E /\ D <= 52)))%Z) by lia.
  assert (Hd2 : (Zdigits2 m2 <= 54)%Z).
  { apply Zdigits2_le; [|lia].
    change (2 ^ 54)%Z with (2 ^ 53 + 2 ^ 53)%Z. lia. }
  assert (Hd2' : (t = E -> Zdigits2 m2 <= D + 1)%Z).
  { intro Q. apply Zdigits2_le; [|lia].
    rewrite Q, Z.sub_diag, Z.mul_1_r in Hm1.
    rewrite Z.pow_add_r by lia. lia. }
  set (n2 := (fexp prec emax (Zdigits2 m2 + t) - t)%Z).
  assert (Hn2 : (n2 = Z.max (Zdigits2 m2 - 53) (-1074 - t))%Z)
    by (unfold n2, fexp, SpecFloat.emin, prec, emax; lia).
  unfold shr. cbn [shr_record_of_loc]. destruct n2 as [|p|p] eqn:En.
  - cbn [shr_m]. destruct m2 as [|q|q]; [exact I| |lia].
    replace (t <=? emax - prec)%Z with true.
    + rewrite Z.sub_diag. split; lia.
    + symmetry. apply Z.leb_le. unfold emax, prec. lia.
  - rewrite iter_shr_1_m by (cbn [shr_m]; lia). cbn [shr_m].
    assert (P : (0 < 2 ^ Z.pos p)%Z) by (apply Z.pow_pos_nonneg; lia).
    assert (Q : (0 <= m2 / 2 ^ Z.pos p)%Z) by (apply Z.div_pos; lia).
    assert (Q' : (m2 / 2 ^ Z.pos p * 2 ^ Z.pos p <= m2)%Z)
      by (rewrite Z.mul_comm; apply Z.mul_div_le; exact P).
    destruct (m2 / 2 ^ Z.pos p)%Z as [|q|q]; [exact I| |lia].
    replace (t + Z.pos p <=? emax - prec)%Z with true.
    + replace (t + Z.pos p - t)%Z with (Z.pos p) by lia. split; lia.
    + symmetry. apply Z.leb_le. unfold emax, prec. lia.
  - cbn [shr_m]. destruct m2 as [|q|q]; [exact I| |lia].
    replace (t <=? emax - prec)%Z with true.
    + rewrite Z.sub_diag. split; lia.
    + symmetry. apply Z.leb_le. unfold emax, prec. lia.
Qed.

(** The division starts from a quotient that is exact when nothing is
    left over. *)
Lemma SFdiv_core_exact (mx mw : positive) (ex ew : Z) :
  let '(mz, ez, lz) :=
    SFdiv_core_binary prec emax (Z.pos mx) ex (Z.pos mw) ew in
  (mz * Z.pos mw = Z.pos mx * 2 ^ (ex - ew - ez))%Z -> lz = loc_Exact.
Proof.
  unfold SFdiv_core_binary. cbn [Zdigits2].
  set (e' := Z.min _ (ex - ew)).
  assert (Hs : (0 <= ex - ew - e')%Z) by (unfold e'; lia).
  set (m' := match (ex - ew - e')%Z with
             | 0%Z => Z.pos mx
             | Z.pos _ => Z.shiftl (Z.pos mx) (ex - ew - e')
             | Z.neg _ => 0%Z
             end).
  assert (Hm' : m' = (Z.pos mx * 2 ^ (ex - ew - e'))%Z).
  { unfold m'. destruct (ex - ew - e')%Z as [|p|p] eqn:E.
    - simpl. lia.
    - now rewrite Z.shiftl_mul_pow2 by lia.
    - lia. }
  assert (Hq : Z.div_eucl m' (Z.pos mw) = (m' / Z.pos mw, m' mod Z.pos mw)%Z).
  { unfold Z.div, Z.modulo. now destruct (Z.div_eucl m' (Z.pos mw)). }
  rewrite Hq, <- Hm'. intro H.
  assert (R : (m' mod Z.pos mw = 0)%Z).
  { assert (A := Z.div_mod m' (Z.pos mw) ltac:(lia)). lia. }
  rewrite R. unfold new_location, new_location_even, new_location_odd.
  now destruct (Z.even (Z.pos mw)).
Qed.

(** Two positive floats of which the first is the smaller are at least
    one part in [2^53] apart. *)
Lemma below_one_gap (x w : float) (mx mw : positive) (ex ew : Z) :
  Prim2SF x = S754_finite false mx ex ->
  Prim2SF w = S754_finite false mw ew ->
  (Z.pos mx * 2 ^ (ex + 1074) < Z.pos mw * 2 ^ (ew + 1074))%Z ->
  (9007199254740992 * (Z.pos mx * 2 ^ (ex + 1074))
   <= 9007199254740991 * (Z.pos mw * 2 ^ (ew + 1074)))%Z.
Proof.
  intros Hx Hw H.
  destruct (finite_canonical x _ _ _ Hx) as (_ & Ex & _).
  destruct (finite_canonical w _ _ _ Hw) as (_ & Ew & _).
  destruct (finite_mantissa x _ _ _ Hx) as (Mx & _).
  destruct (finite_mantissa w _ _ _ Hw) as (Mw & Nw).
  change (2 ^ 53)%Z with 9007199254740992%Z in *.
  change (2 ^ 52)%Z with 4503599627370496%Z in *.
  destruct (Z.le_gt_cases ew ex) as [L|L].
  - (* both are multiples of the unit of [w] *)
    set (G := (2 ^ (ew + 1074))%Z) in *.
    assert (HG : (0 < G)%Z) by (apply Z.pow_pos_nonneg; lia).
    assert (P : (2 ^ (ex + 1074) = 2 ^ (ex - ew) * G)%Z).
    { unfold G. rewrite <- Z.pow_add_r by lia. f_equal. lia. }
    assert (K : (0 < 2 ^ (ex - ew))%Z) by (apply Z.pow_pos_nonneg; lia).
    rewrite P in *. clearbody G.
    set (u := (Z.pos mx * 2 ^ (ex - ew))%Z).
    assert (U : (Z.pos mx * (2 ^ (ex - ew) * G) = u * G)%Z)
      by (unfold u; lia).
    rewrite U in *. clearbody u.
    assert (u < Z.pos mw)%Z by nia. nia.
  - (* [w] is normal and both are multiples of the unit of [x] *)
    set (G := (2 ^ (ex + 1074))%Z) in *.
    assert (HG : (0 < G)%Z) by (apply Z.pow_pos_nonneg; lia).
    assert (P : (2 ^ (ew + 1074) = 2 ^ (ew - ex) * G)%Z).
    { unfold G. rewrite <- Z.pow_add_r by lia. f_equal. lia. }
    assert (K : (2 <= 2 ^ (ew - ex))%Z).
    { change 2%Z with (2 ^ 1)%Z at 1. apply Z.pow_le_mono_r; lia. }
    assert (N : (4503599627370496 <= Z.pos mw)%Z) by (apply Nw; lia).
    rewrite P in *. clearbody G.
    set (v := (Z.pos mw * 2 ^ (ew - ex))%Z).
    assert (V : (Z.pos mw * (2 ^ (ew - ex) * G) = v * G)%Z)
      by (unfold v; lia).
    assert (Hv : (9007199254740992 <= v)%Z) by (unfold v; nia).
    rewrite V in *. clearbody v. nia.
Qed.

(** The order of two positive floats, read off their values. *)
Lemma positive_ltb_value (a b : float) (m1 m2 : positive) (e1 e2 : Z) :
  Prim2SF a = S754_finite false m1 e1 ->
  Prim2SF b = S754_finite false m2 e2 ->
  (a <? b)%float = true ->
  (Z.pos m1 * 2 ^ (e1 + 1074) < Z.pos m2 * 2 ^ (e2 + 1074))%Z.
Proof.
  intros Ha Hb H.
  destruct (Z.lt_ge_cases (Z.pos m1 * 2 ^ (e1 + 1074))
                          (Z.pos m2 * 2 ^ (e2 + 1074))) as [L|G];
    [exact L|].
  assert (C := positive_leb b a _ _ _ _ Hb Ha G).
  rewrite (leb_ltb_false _ _ C) in H. discriminate.
Qed.

(** The quotient of two positive finite floats, the first below the
    second, is computed as a zero or as a float below 1. *)
Lemma div_below_one (x w : float) (mx mw : positive) (ex ew : Z) :
  Prim2SF x = S754_finite false mx ex ->
  Prim2SF w = S754_finite false mw ew ->
  (x <? w)%float = true ->
  match Prim2SF (x / w) with
  | S754_zero false => True
  | S754_finite false mq eq => (eq <= -53)%Z
  | _ => False
  end.
Proof.
  intros Hx Hw Hlt.
  assert (V := positive_ltb_value x w _ _ _ _ Hx Hw Hlt).
  assert (Gap := below_one_gap x w _ _ _ _ Hx Hw V).
  destruct (finite_canonical x _ _ _ Hx) as (Dx & Ex & _).
  destruct (finite_canonical w _ _ _ Hw) as (Dw & Ew & _).
  destruct (digits2_pos_bounds mx) as [Lx _].
  destruct (digits2_pos_bounds mw) as [_ Uw].
  set (dx := Z.pos (digits2_pos mx)) in *.
  set (dw := Z.pos (digits2_pos mw)) in *.
  assert (Hmag : (dx + ex <= dw + ew)%Z).
  { assert (A : (2 ^ (dx - 1) * 2 ^ (ex + 1074)
                 < 2 ^ dw * 2 ^ (ew + 1074))%Z).
    { assert (0 < 2 ^ (ex + 1074))%Z by (apply Z.pow_pos_nonneg; lia).
      assert (0 < 2 ^ (ew + 1074))%Z by (apply Z.pow_pos_nonneg; lia).
      nia. }
    rewrite <- !Z.pow_add_r in A by lia.
    apply Z.pow_lt_mono_r_iff in A; lia. }
  assert (Hd : Prim2SF (x / w)
               = let '(mz, ez, lz) :=
                   SFdiv_core_binary prec emax (Z.pos mx) ex (Z.pos mw) ew in
                 binary_round_aux prec emax false mz ez lz)
    by (now rewrite div_spec, Hx, Hw).
  assert (B := SFdiv_core_bound mx mw ex ew). fold dx dw in B.
  assert (X := SFdiv_core_exact mx mw ex ew).
  destruct (SFdiv_core_binary prec emax (Z.pos mx) ex (Z.pos mw) ew)
    as [[mz ez] lz].
  destruct B as (Hz0 & Hez & Hq).
  assert (Hez' : (-2045 <= ez <= -53)%Z).
  { rewrite Hez. unfold fexp, SpecFloat.emin, prec, emax. lia. }
  assert (Hs : (0 <= ex - ew - ez)%Z) by (rewrite Hez; lia).
  clear Hez Hmag Lx Uw Dx Dw.
  (* the quotient at the exponent [ez], bounded by one unit below 1 *)
  set (Cz := (9007199254740991 * 2 ^ (- 53 - ez))%Z).
  set (P := (2 ^ (- 53 - ez))%Z) in *.
  assert (HP : (0 < P)%Z) by (apply Z.pow_pos_nonneg; lia).
  assert (Pz : (2 ^ (- ez) = 9007199254740992 * P)%Z).
  { unfold P. replace (- ez)%Z with (53 + (- 53 - ez))%Z at 1 by lia.
    now rewrite Z.pow_add_r by lia. }
  set (G := (2 ^ (ew + 1074))%Z) in *.
  assert (HG : (0 < G)%Z) by (apply Z.pow_pos_nonneg; lia).
  set (S := (2 ^ (ex - ew - ez))%Z) in *.
  assert (HS : (0 < S)%Z) by (apply Z.pow_pos_nonneg; lia).
  assert (Px : (2 ^ (ex + 1074) * 2 ^ (- ez) = S * G)%Z).
  { unfold S, G. rewrite <- !Z.pow_add_r by lia. f_equal. lia. }
  assert (Q1 : (Z.pos mx * S <= Cz * Z.pos mw)%Z).
  { assert (A : (9007199254740992 * (Z.pos mx * S) * G
                 <= 9007199254740992 * (Cz * Z.pos mw) * G)%Z).
    { unfold Cz. fold P.
      replace (9007199254740992 * (Z.pos mx * S) * G)%Z
        with (9007199254740992 * (Z.pos mx * 2 ^ (ex + 1074)) * 2 ^ (- ez))%Z
        by (rewrite <- !Z.mul_assoc, Px; lia).
      replace (9007199254740992 * (9007199254740991 * P * Z.pos mw) * G)%Z
        with (9007199254740991 * (Z.pos mw * G) * 2 ^ (- ez))%Z
        by (rewrite Pz; lia).
      apply Z.mul_le_mono_nonneg_r; [rewrite Pz; lia|exact Gap]. }
    apply Z.mul_le_mono_pos_r in A; [|exact HG].
    apply Z.mul_le_mono_pos_l in A; [exact A|reflexivity]. }
  clear Gap V Px.
  assert (Hmz : (mz <= Cz)%Z).
  { apply (Z.mul_le_mono_pos_r _ _ (Z.pos mw)); [reflexivity|].
    apply (Z.le_trans _ _ _ Hq Q1). }
  assert (Hdz : (Zdigits2 mz <= - ez)%Z).
  { apply Zdigits2_le; [|lia]. rewrite Pz. unfold Cz in Hmz. fold P in Hmz.
    lia. }
  set (t := Z.max ez (fexp prec emax (Zdigits2 mz + ez))).
  assert (Ht : (ez <= t <= -53 /\ -1074 <= t)%Z)
    by (unfold t, fexp, SpecFloat.emin, prec, emax; lia).
  set (T := (2 ^ (- 53 - t))%Z).
  assert (HT : (0 < T)%Z) by (apply Z.pow_pos_nonneg; lia).
  assert (PT : (P = T * 2 ^ (t - ez))%Z).
  { unfold P, T. rewrite <- Z.pow_add_r by lia. f_equal. lia. }
  assert (R := binary_round_aux_grid mz ez (9007199254740991 * T) lz
                 Hz0 ltac:(lia) ltac:(lia)).
  cbv zeta in R. fold t in R.
  assert (HC : (mz < 9007199254740991 * T * 2 ^ (t - ez)
                \/ (mz = 9007199254740991 * T * 2 ^ (t - ez)
                    /\ lz = loc_Exact))%Z).
  { rewrite <- Z.mul_assoc, <- PT. fold Cz.
    destruct (Z.lt_ge_cases mz Cz) as [L|L]; [left; exact L|right].
    assert (E : mz = Cz) by lia. split; [exact E|].
    apply X. fold S. apply Z.le_antisymm; [exact Hq|].
    rewrite E. exact Q1. }
  specialize (R HC). rewrite <- Hd in R.
  destruct (Prim2SF (x / w)) as [[]|[]| |[] mq eq] eqn:Hr;
    try contradiction; [exact I|].
  destruct R as (Rt & Rv).
  destruct (finite_mantissa _ _ _ _ Hr) as (_ & Nq).
  destruct (Z.le_gt_cases eq (-53)) as [L|L]; [exact L|exfalso].
  assert (N : (4503599627370496 <= Z.pos mq)%Z) by (apply Nq; lia).
  assert (PQ : (2 ^ (eq - t) = 2 ^ (eq + 53) * T)%Z).
  { unfold T. rewrite <- Z.pow_add_r by lia. f_equal. lia. }
  assert (K : (2 <= 2 ^ (eq + 53))%Z).
  { change 2%Z with (2 ^ 1)%Z at 1. apply Z.pow_le_mono_r; lia. }
  rewrite PQ, Z.mul_assoc in Rv.
  assert (B : (4503599627370496 * 2 <= Z.pos mq * 2 ^ (eq + 53))%Z)
    by (apply Z.mul_le_mono_nonneg; lia).
  clear - Rv B HT.
  set (u := (Z.pos mq * 2 ^ (eq + 53))%Z) in *. clearbody u. nia.
Qed.

(** Ten times a positive float [q]: the product is below 10 when [q] is
    far enough below 1 for the rounding not to reach 10. *)
Lemma times_10_grid (q : float) (mq : positive) (eq : Z) :
  Prim2SF q = S754_finite false mq eq ->
  (Z.pos mq * 5629499534213120 < 5629499534213119 * 2 ^ (- eq))%Z ->
  (q * 10 <? 10)%float = true.
Proof.
  intros Hq HC.
  destruct (finite_canonical q _ _ _ Hq) as (_ & Eq & _).
  destruct (finite_mantissa q _ _ _ Hq) as (Mq & _).
  change (2 ^ 53)%Z with 9007199254740992%Z in Mq.
  assert (He : (eq <= -53)%Z).
  { destruct (Z.le_gt_cases eq (-53)) as [L|L]; [exact L|exfalso].
    assert (K : (2 ^ (- eq) <= 2 ^ 52)%Z) by (apply Z.pow_le_mono_r; lia).
    change (2 ^ 52)%Z with 4503599627370496%Z in K.
    destruct (finite_mantissa q _ _ _ Hq) as (_ & Nq).
    assert (N : (2 ^ 52 <= Z.pos mq)%Z) by (apply Nq; lia).
    change (2 ^ 52)%Z with 4503599627370496%Z in N. nia. }
  set (M := Z.pos (mq * 5629499534213120)).
  set (E := (eq + -49)%Z).
  assert (HM : (M = Z.pos mq * 5629499534213120)%Z) by reflexivity.
  assert (HD : (Zdigits2 M + E <= 4)%Z).
  { assert (Zdigits2 M <= 4 - E)%Z; [|lia].
    apply Zdigits2_le; [|unfold E; lia]. split; [lia|].
    apply (Z.lt_le_trans _ (2 ^ 106)); [rewrite HM|].
    - change (2 ^ 106)%Z with (9007199254740992 * 9007199254740992)%Z. nia.
    - apply Z.pow_le_mono_r; unfold E; lia. }
  set (t := Z.max E (fexp prec emax (Zdigits2 M + E))).
  assert (Ht : (E <= t <= -49 /\ -1074 <= t)%Z)
    by (unfold t, E, fexp, SpecFloat.emin, prec, emax; lia).
  set (T := (2 ^ (- 49 - t))%Z).
  assert (HT : (0 < T)%Z) by (apply Z.pow_pos_nonneg; lia).
  assert (PT : (2 ^ (- eq) = T * 2 ^ (t - E))%Z).
  { unfold T, E. rewrite <- Z.pow_add_r by lia. f_equal. lia. }
  assert (R := binary_round_aux_grid M E (5629499534213119 * T) loc_Exact
                 ltac:(lia) ltac:(lia) ltac:(unfold E; lia)).
  cbv zeta in R. fold t in R.
  assert (HG : (M < 5629499534213119 * T * 2 ^ (t - E))%Z)
    by (rewrite <- Z.mul_assoc, <- PT, HM; exact HC).
  specialize (R (or_introl HG)).
  assert (Hm : Prim2SF (q * 10)
               = binary_round_aux prec emax false M E loc_Exact)
    by (now rewrite mul_spec, Hq, Prim2SF_10).
  rewrite <- Hm in R. rewrite ltb_spec, Prim2SF_10.
  destruct (Prim2SF (q * 10)) as [[]|[]| |[] mt et] eqn:Hr;
    try contradiction; [reflexivity|].
  destruct R as (Rt & Rv).
  destruct (finite_mantissa _ _ _ _ Hr) as (_ & Nt).
  unfold SFltb. rewrite SFcompare_positive.
  destruct (Z.compare_spec et (-49)) as [C|C|C].
  - subst et. fold T in Rv.
    destruct (Z.compare_spec (Z.pos mt) 5629499534213120) as [Q|Q|Q];
      [exfalso|reflexivity|exfalso]; clear - Rv Q HT; nia.
  - reflexivity.
  - exfalso.
    assert (N : (4503599627370496 <= Z.pos mt)%Z) by (apply Nt; lia).
    assert (PQ : (2 ^ (et - t) = 2 ^ (et + 49) * T)%Z).
    { unfold T. rewrite <- Z.pow_add_r by lia. f_equal. lia. }
    assert (K : (2 <= 2 ^ (et + 49))%Z).
    { change 2%Z with (2 ^ 1)%Z at 1. apply Z.pow_le_mono_r; lia. }
    rewrite PQ, Z.mul_assoc in Rv.
    assert (B : (4503599627370496 * 2 <= Z.pos mt * 2 ^ (et + 49))%Z)
      by (apply Z.mul_le_mono_nonneg; lia).
    clear - Rv B HT.
    set (u := (Z.pos mt * 2 ^ (et + 49))%Z) in *. clearbody u. nia.
Qed.

(** Ten times a positive float below 1 is computed as a float below 10. *)
Lemma times_10_below_10 (q : float) (mq : positive) (eq : Z) :
  Prim2SF q = S754_finite false mq eq -> (eq <= -53)%Z ->
  (q * 10 <? 10)%float = true.
Proof.
  intros Hq He.
  destruct (finite_mantissa q _ _ _ Hq) as (Mq & _).
  change (2 ^ 53)%Z with 9007199254740992%Z in Mq.
  destruct (Z.eq_dec eq (-53)) as [E53|E53];
    [destruct (Z.eq_dec (Z.pos mq) 9007199254740991) as [Em|Em]|].
  - (* the float next below 1 *)
    subst eq. injection Em as ->.
    now rewrite ltb_spec, mul_spec, Hq.
  - apply (times_10_grid q mq eq Hq). subst eq.
    change (2 ^ (- -53))%Z with 9007199254740992%Z. lia.
  - apply (times_10_grid q mq eq Hq).
    assert (K : (2 ^ 54 <= 2 ^ (- eq))%Z) by (apply Z.pow_le_mono_r; lia).
    change (2 ^ 54)%Z with 18014398509481984%Z in K. nia.
Qed.

(** A positive finite float divided by itself is 1. *)
Lemma div_self (x w : float) (m : positive) (e : Z) :
  Prim2SF x = S754_finite false m e ->
  Prim2SF w = S754_finite false m e ->
  (x / w)%float = 1%float.
Proof.
  intros Hx Hw.
  rewrite <- (SF2Prim_Prim2SF (x / w)), div_spec, Hx, Hw.
  unfold SF64div, SFdiv, SFdiv_core_binary.
  rewrite !Z.sub_diag.
  change (Z.min (fexp prec emax 0) 0) with (-53)%Z.
  change (0 - -53)%Z with 53%Z. cbv iota.
  rewrite Z.shiftl_mul_pow2 by lia.
  assert (Hq : Z.div_eucl (Z.pos m * 2 ^ 53) (Z.pos m) = (2 ^ 53, 0)%Z).
  { assert (D : (Z.pos m * 2 ^ 53 / Z.pos m = 2 ^ 53)%Z)
      by (rewrite Z.mul_comm; apply Z.div_mul; lia).
    assert (R : ((Z.pos m * 2 ^ 53) mod Z.pos m = 0)%Z)
      by (rewrite Z.mul_comm; apply Z.mod_mul; lia).
    unfold Z.div, Z.modulo in D, R.
    destruct (Z.div_eucl (Z.pos m * 2 ^ 53) (Z.pos m)) as [a b].
    now subst. }
  rewrite Hq.
  replace (new_location (Z.pos m) 0) with loc_Exact; [reflexivity|].
  unfold new_location, new_location_even, new_location_odd.
  now destruct (Z.even (Z.pos m)).
Qed.

(** Along one axis of the canvas, for a coordinate from 0 to the size of
    the canvas: the index the locator computes is 10 at the far edge and
    nowhere else. *)
Lemma index_10_at_edge (x w : float) :
  is_finite w = true -> (0 <? w)%float = true ->
  (0 <=? x)%float = true -> (x <=? w)%float = true ->
  (Num.Math_floor (scaled x w) =? 10)%float = (x =? w)%float.
Proof.
  intros Fw Pw Px Hxw.
  rewrite is_finite_spec in Fw.
  assert (Lw := Pw). rewrite ltb_spec, Prim2SF_0 in Lw.
  assert (Lx := Px). rewrite leb_spec, Prim2SF_0 in Lx.
  assert (Lxw := Hxw). rewrite leb_spec in Lxw.
  destruct (Prim2SF w) as [sw|sw| |sw mw ew] eqn:Hw; try discriminate.
  destruct sw; [discriminate|].
  rewrite floor_is_10.
  assert (Z10 : forall q s, Prim2SF q = S754_zero s ->
            ((10 <=? q * 10) && (q * 10 <? 11))%float = false).
  { intros q s Hq.
    rewrite leb_spec, ltb_spec, mul_spec, Hq, Prim2SF_10, Prim2SF_11.
    now destruct s. }
  assert (B10 : forall t : float, (t <? 10)%float = true ->
            ((10 <=? t) && (t <? 11))%float = false).
  { intros t Ht. destruct (10 <=? t)%float eqn:L; [|reflexivity].
    rewrite (leb_ltb_false _ _ L) in Ht. discriminate. }
  destruct (Prim2SF x) as [sx|sx| |sx mx ex] eqn:Hx; try discriminate.
  - (* a zero *)
    replace (x =? w)%float with false
      by (rewrite eqb_spec, Hx, Hw; now destruct sx).
    apply (Z10 _ (xorb sx false)). now rewrite div_spec, Hx, Hw.
  - destruct sx; discriminate.
  - destruct sx; [discriminate|].
    destruct (x =? w)%float eqn:E.
    + (* the far edge *)
      rewrite eqb_spec, Hw in E. apply SFeqb_finite in E.
      unfold scaled. rewrite (div_self x w mw ew E Hw). reflexivity.
    + (* inside *)
      assert (Hlt : (x <? w)%float = true).
      { rewrite eqb_spec in E. rewrite ltb_spec.
        rewrite Hx, Hw in *. unfold SFeqb, SFleb, SFltb in *.
        now destruct (SFcompare (S754_finite false mx ex)
                                (S754_finite false mw ew)) as [[]|]. }
      assert (D := div_below_one x w mx mw ex ew Hx Hw Hlt).
      destruct (Prim2SF (x / w)) as [s|s| |s mq eq] eqn:Hq;
        try contradiction.
      * now apply (Z10 _ s).
      * destruct s; [contradiction|].
        apply B10. now apply (times_10_below_10 _ mq eq).
Qed.

(** X12.  On the canvas the replacement of 10 by 9 applies at the far edge
    and nowhere else. For a middle (x, y) with x from 0 to the width and y
    from 0 to the height of a canvas of finite positive size, the index
    [floor (x / width * 10)] is 10 exactly when x is the width, and likewise
    for y; the cell [_canvasLocator] returns has column 9 at the right edge
    and the floor everywhere else, and both its components are integers from
    0 to 9. *)
Theorem canvasLocator_edge :
  forall x y w h : float,
    is_finite w = true -> (0 <? w)%float = true ->
    (0 <=? x)%float = true -> (x <=? w)%float = true ->
    is_finite h = true -> (0 <? h)%float = true ->
    (0 <=? y)%float = true -> (y <=? h)%float = true ->
    (Num.Math_floor (x / w * 10) =? 10)%float = (x =? w)%float
    /\ (Num.Math_floor (y / h * 10) =? 10)%float = (y =? h)%float
    /\ _canvasLocator (x, y) w h
       = {| locX := if (x =? w)%float then 9%float
                    else Num.Math_floor (x / w * 10);
            locY := if (y =? h)%float then 9%float
                    else Num.Math_floor (y / h * 10) |}
    /\ in_grid (_canvasLocator (x, y) w h) = true.
Proof.
  intros x y w h Fw Pw X0 Xw Fh Ph Y0 Yh.
  assert (Ex := index_10_at_edge x w Fw Pw X0 Xw).
  assert (Ey := index_10_at_edge y h Fh Ph Y0 Yh).
  unfold scaled in Ex, Ey.
  split; [exact Ex|]. split; [exact Ey|]. split.
  - rewrite canvasLocator_clamp, !clamp_10. unfold scaled.
    now rewrite Ex, Ey.
  - rewrite canvasLocator_clamp. unfold in_grid. cbn [locX locY].
    rewrite !grid_index_clamp_floor.
    now rewrite (scaled_on_canvas x w Fw Pw X0 Xw),
                (scaled_on_canvas y h Fh Ph Y0 Yh).
Qed.

(** ** A rectangle that covers the canvas *)

(** Rounding [M * 2^E] to nearest: the result, in units of the exponent
    [t] the mantissa is first shifted to, is the shifted mantissa or the
    integer above it. *)
Lemma binary_round_aux_between (M E : Z) (l : location) :
  (0 <= M)%Z -> (Zdigits2 M + E <= 1023)%Z -> (E <= 971)%Z ->
  let t := Z.max E (fexp prec emax (Zdigits2 M + E)) in
  match binary_round_aux prec emax false M E l with
  | S754_zero false => (M < 2 ^ (t - E))%Z
  | S754_finite false m e =>
      (t <= e
       /\ M / 2 ^ (t - E) <= Z.pos m * 2 ^ (e - t) <= M / 2 ^ (t - E) + 1)%Z
  | _ => False
  end.
Proof.
  intros HM0 HD HE t.
  destruct (Zdigits2_bounds M HM0) as [HD0 HM].
  unfold t. clear t.
  set (D := Zdigits2 M) in *.
  unfold binary_round_aux, shr_fexp. fold D.
  set (n1 := (fexp prec emax (D + E) - E)%Z).
  assert (Hn1 : (n1 = Z.max (D - 53) (-1074 - E))%Z)
    by (unfold n1, fexp, SpecFloat.emin, prec, emax; lia).
  set (t := Z.max E (fexp prec emax (D + E))) in *.
  assert (Ht : (t = Z.max E (E + n1))%Z) by (unfold t, n1; lia).
  assert (Pt : (0 < 2 ^ (t - E))%Z) by (apply Z.pow_pos_nonneg; lia).
  set (m1 := (M / 2 ^ (t - E))%Z).
  assert (Hm1 : (0 <= m1 < 2 ^ 53)%Z).
  { unfold m1. split; [apply Z.div_pos; lia|].
    apply Z.div_lt_upper_bound; [exact Pt|].
    rewrite <- Z.pow_add_r by lia.
    apply (Z.lt_le_trans _ _ _ HM). apply Z.pow_le_mono_r; lia. }
  assert (S1 : exists mrs',
             shr (shr_record_of_loc M l) E n1 = (mrs', t)
             /\ shr_m mrs' = m1).
  { assert (Hl : shr_m (shr_record_of_loc M l) = M)
      by (now destruct l as [|[]]).
    assert (N : (n1 <= 0 -> exists mrs',
              (shr_record_of_loc M l, E) = (mrs', t)
              /\ shr_m mrs' = m1)%Z).
    { intro L. exists (shr_record_of_loc M l). unfold m1.
      replace t with E by lia. rewrite Hl, Z.sub_diag.
      split; [reflexivity|]. change (2 ^ 0)%Z with 1%Z.
      now rewrite Z.div_1_r. }
    unfold shr. destruct n1 as [|p|p] eqn:En.
    - apply N; lia.
    - exists (iter_pos shr_1 p (shr_record_of_loc M l)).
      replace (E + Z.pos p)%Z with t by lia.
      split; [reflexivity|].
      rewrite iter_shr_1_m by (rewrite Hl; lia). rewrite Hl. unfold m1.
      f_equal. f_equal. lia.
    - apply N; lia. }
  destruct S1 as (mrs' & -> & Hs).
  assert (Hr := round_nearest_even_bounds (shr_m mrs')
                                          (loc_of_shr_record mrs')).
  set (m2 := round_nearest_even (shr_m mrs') (loc_of_shr_record mrs')) in *.
  rewrite Hs in Hr.
  assert (Z1 : (m1 = 0 -> M < 2 ^ (t - E))%Z).
  { intro Q. unfold m1 in Q.
    assert (A := Z.div_mod M (2 ^ (t - E)) ltac:(lia)).
    assert (B := Z.mod_pos_bound M (2 ^ (t - E)) Pt).
    rewrite Q in A. lia. }
  assert (HtE : (-1074 <= t /\ (t <= 970 \/ (t = E /\ D <= 52)))%Z) by lia.
  assert (Hd2 : (Zdigits2 m2 <= 54)%Z).
  { apply Zdigits2_le; [|lia].
    change (2 ^ 54)%Z with (2 ^ 53 + 2 ^ 53)%Z. lia. }
  assert (Hd2' : (t = E -> Zdigits2 m2 <= D + 1)%Z).
  { intro Q. apply Zdigits2_le; [|lia].
    assert (m1 = M) by (unfold m1; rewrite Q, Z.sub_diag;
                        change (2 ^ 0)%Z with 1%Z; apply Z.div_1_r).
    rewrite Z.pow_add_r by lia. lia. }
  set (n2 := (fexp prec emax (Zdigits2 m2 + t) - t)%Z).
  assert (Hn2 : (n2 = Z.max (Zdigits2 m2 - 53) (-1074 - t))%Z)
    by (unfold n2, fexp, SpecFloat.emin, prec, emax; lia).
  assert (N : match m2 with
              | 0%Z => (M < 2 ^ (t - E))%Z
              | Z.pos m =>
                  if (t <=? emax - prec)%Z
                  then (t <= t /\ m1 <= Z.pos m * 2 ^ (t - t) <= m1 + 1)%Z
                  else False
              | Z.neg _ => False
              end).
  { destruct m2 as [|q|q]; [apply Z1; lia| |lia].
    replace (t <=? emax - prec)%Z with true.
    - rewrite Z.sub_diag. change (2 ^ 0)%Z with 1%Z. lia.
    - symmetry. apply Z.leb_le. unfold emax, prec. lia. }
  unfold shr. cbn [shr_record_of_loc]. destruct n2 as [|p|p] eqn:En.
  - cbn [shr_m]. destruct m2 as [|q|q]; [exact N| |exact N].
    destruct (t <=? emax - prec)%Z; exact N.
  - assert (Hp : p = 1%positive) by lia. subst p.
    assert (D2 : Zdigits2 m2 = 54%Z) by lia.
    assert (T : (t <= 970)%Z) by lia.
    assert (H2 : m2 = (2 ^ 53)%Z).
    { destruct m2 as [|q|q]; cbn [Zdigits2] in D2; try lia.
      destruct (digits2_pos_bounds q) as [Lo _]. rewrite D2 in Lo.
      change (2 ^ (54 - 1))%Z with (2 ^ 53)%Z in Lo. lia. }
    clear D2 Hd2 Hd2' N. rewrite H2 in *. cbn [iter_pos shr_1 shr_m].
    change (2 ^ 53)%Z with 9007199254740992%Z in *. cbn [shr_1 shr_m].
    replace (t + 1 <=? emax - prec)%Z with true.
    + replace (t + 1 - t)%Z with 1%Z by lia. change (2 ^ 1)%Z with 2%Z.
      lia.
    + symmetry. apply Z.leb_le. unfold emax, prec. lia.
  - cbn [shr_m]. destruct m2 as [|q|q]; [exact N| |exact N].
    destruct (t <=? emax - prec)%Z; exact N.
Qed.

(** The division starts from the floor of the quotient of the mantissas,
    the first shifted so far that the floor has the digits it needs. *)
Lemma SFdiv_core_floor (mx mw : positive) (ex ew : Z) :
  let '(mz, ez, _) :=
    SFdiv_core_binary prec emax (Z.pos mx) ex (Z.pos mw) ew in
  (ez = Z.min (fexp prec emax (Z.pos (digits2_pos mx) + ex
                               - (Z.pos (digits2_pos mw) + ew)))
              (ex - ew)
   /\ mz * Z.pos mw <= Z.pos mx * 2 ^ (ex - ew - ez)
      < (mz + 1) * Z.pos mw)%Z.
Proof.
  unfold SFdiv_core_binary. cbn [Zdigits2].
  set (e' := Z.min _ (ex - ew)).
  assert (Hs : (0 <= ex - ew - e')%Z) by (unfold e'; lia).
  set (m' := match (ex - ew - e')%Z with
             | 0%Z => Z.pos mx
             | Z.pos _ => Z.shiftl (Z.pos mx) (ex - ew - e')
             | Z.neg _ => 0%Z
             end).
  assert (Hm' : m' = (Z.pos mx * 2 ^ (ex - ew - e'))%Z).
  { unfold m'. destruct (ex - ew - e')%Z as [|p|p] eqn:E.
    - simpl. lia.
    - now rewrite Z.shiftl_mul_pow2 by lia.
    - lia. }
  assert (Hq : Z.div_eucl m' (Z.pos mw) = (m' / Z.pos mw, m' mod Z.pos mw)%Z).
  { unfold Z.div, Z.modulo. now destruct (Z.div_eucl m' (Z.pos mw)). }
  rewrite Hq, <- Hm'. split; [reflexivity|].
  assert (A := Z.div_mod m' (Z.pos mw) ltac:(lia)).
  assert (B := Z.mod_pos_bound m' (Z.pos mw) ltac:(lia)).
  lia.
Qed.

(** The integers behind [p * 100 / p]: with [A1] the mantissa of the
    product [mp * 100] cut to 53 digits, [ma] the mantissa it is rounded
    to and [mz] the floor of the quotient the division starts from, [mz]
    is within 2 of the number that stands for 100. *)
Lemma whole_ratio_arith (mp ma mz A1 na d : Z) :
  (4503599627370496 <= mp < 9007199254740992)%Z ->
  (4503599627370496 <= ma < 9007199254740992)%Z ->
  (na = 52 \/ na = 53)%Z -> (d = 0 \/ d = 1)%Z ->
  (A1 * 2 ^ na <= mp * 7036874417766400 < (A1 + 1) * 2 ^ na)%Z ->
  (A1 <= ma * 2 ^ d <= A1 + 1)%Z ->
  (mz * mp <= ma * 9007199254740992 < (mz + 1) * mp)%Z ->
  (na + d <= 53
   /\ 100 * 2 ^ (99 - na - d) - 2 <= mz <= 100 * 2 ^ (99 - na - d) + 2)%Z.
Proof.
  intros Hp Ha Hn Hd HA Hma Hz.
  assert (U : forall H : Z, (0 <= H)%Z -> (H + 1 <= mz)%Z ->
                            ((H + 1) * mp <= mz * mp)%Z)
    by (intros; apply Z.mul_le_mono_nonneg_r; lia).
  assert (L : forall H : Z, (mz + 1 <= H)%Z ->
                            ((mz + 1) * mp <= H * mp)%Z)
    by (intros; apply Z.mul_le_mono_nonneg_r; lia).
  destruct Hn as [-> | ->], Hd as [-> | ->];
    cbn [Z.add Z.sub Z.opp Z.pos_sub Pos.pred_double Pos.succ Pos.add] in *.
  - (* 105 digits, no carry *)
    change (2 ^ 52)%Z with 4503599627370496%Z in *.
    change (2 ^ 0)%Z with 1%Z in *.
    change (2 ^ 47)%Z with 140737488355328%Z.
    split; [lia|]. split.
    + destruct (Z.le_gt_cases (100 * 140737488355328 - 2) mz) as [Q|Q];
        [exact Q|exfalso].
      assert (B := L (100 * 140737488355328 - 2)%Z ltac:(lia)). lia.
    + destruct (Z.le_gt_cases mz (100 * 140737488355328 + 2)) as [Q|Q];
        [exact Q|exfalso].
      assert (B := U (100 * 140737488355328 + 2)%Z ltac:(lia) ltac:(lia)).
      lia.
  - (* 105 digits, carried into the next binade *)
    change (2 ^ 52)%Z with 4503599627370496%Z in *.
    change (2 ^ 1)%Z with 2%Z in *.
    change (2 ^ 46)%Z with 70368744177664%Z.
    split; [lia|]. split.
    + destruct (Z.le_gt_cases (100 * 70368744177664 - 2) mz) as [Q|Q];
        [exact Q|exfalso].
      assert (B := L (100 * 70368744177664 - 2)%Z ltac:(lia)). lia.
    + destruct (Z.le_gt_cases mz (100 * 70368744177664 + 2)) as [Q|Q];
        [exact Q|exfalso].
      assert (B := U (100 * 70368744177664 + 2)%Z ltac:(lia) ltac:(lia)).
      lia.
  - (* 106 digits *)
    change (2 ^ 53)%Z with 9007199254740992%Z in *.
    change (2 ^ 0)%Z with 1%Z in *.
    change (2 ^ 46)%Z with 70368744177664%Z.
    split; [lia|]. split.
    + destruct (Z.le_gt_cases (100 * 70368744177664 - 2) mz) as [Q|Q];
        [exact Q|exfalso].
      assert (B := L (100 * 70368744177664 - 2)%Z ltac:(lia)). lia.
    + destruct (Z.le_gt_cases mz (100 * 70368744177664 + 2)) as [Q|Q];
        [exact Q|exfalso].
      assert (B := U (100 * 70368744177664 + 2)%Z ltac:(lia) ltac:(lia)).
      lia.
  - (* 106 digits and a carry: the product would be too large *)
    exfalso.
    change (2 ^ 53)%Z with 9007199254740992%Z in *.
    change (2 ^ 1)%Z with 2%Z in *. lia.
Qed.

Lemma Zdigits2_ge (m k : Z) :
  (2 ^ (k - 1) <= m)%Z -> (1 <= k)%Z -> (k <= Zdigits2 m)%Z.
Proof.
  intros Hm Hk.
  assert (P : (0 < 2 ^ (k - 1))%Z) by (apply Z.pow_pos_nonneg; lia).
  destruct (Zdigits2_bounds m ltac:(lia)) as [D0 Dm].
  assert (A : (k - 1 < Zdigits2 m)%Z); [|lia].
  apply pow_lt_inv; [exact D0|]. lia.
Qed.

Lemma Prim2SF_100 : Prim2SF 100 = S754_finite false 7036874417766400 (-46).
Proof. reflexivity. Qed.

(** A quotient that starts within 2 units of 100 is rounded, and then
    rounded to an integer, to 100. *)
Lemma round_to_100 (r : float) (mz ez : Z) (lz : location) :
  Prim2SF r = binary_round_aux prec emax false mz ez lz ->
  (ez = -47 \/ ez = -46)%Z ->
  (100 * 2 ^ (- ez) - 2 <= mz <= 100 * 2 ^ (- ez) + 2)%Z ->
  Num.Math_round r = 100%float.
Proof.
  intros Hr He Hz.
  assert (Hb : (2 ^ (6 - ez) <= mz < 2 ^ (7 - ez)
                /\ 0 <= mz
                /\ mz / 2 ^ (- 46 - ez) <= 7036874417766400 + 2
                /\ 7036874417766400 - 2 <= mz / 2 ^ (- 46 - ez))%Z).
  { destruct He as [-> | ->].
    - change (2 ^ (- -47))%Z with 140737488355328%Z in Hz.
      change (2 ^ (6 - -47))%Z with 9007199254740992%Z.
      change (2 ^ (7 - -47))%Z with 18014398509481984%Z.
      change (2 ^ (- 46 - -47))%Z with 2%Z.
      assert (A := Z.div_mod mz 2 ltac:(lia)).
      assert (B := Z.mod_pos_bound mz 2 ltac:(lia)). lia.
    - change (2 ^ (- -46))%Z with 70368744177664%Z in Hz.
      change (2 ^ (6 - -46))%Z with 4503599627370496%Z.
      change (2 ^ (7 - -46))%Z with 9007199254740992%Z.
      change (2 ^ (- 46 - -46))%Z with 1%Z. rewrite Z.div_1_r. lia. }
  destruct Hb as (Hd & Hz0 & Hu & Hl).
  assert (Dz : (Zdigits2 mz = 7 - ez)%Z).
  { apply Z.le_antisymm.
    - apply Zdigits2_le; lia.
    - apply Zdigits2_ge; [|lia]. replace (7 - ez - 1)%Z with (6 - ez)%Z by lia.
      lia. }
  assert (B := binary_round_aux_between mz ez lz Hz0 ltac:(lia) ltac:(lia)).
  cbv zeta in B. rewrite Dz in B.
  replace (Z.max ez (fexp prec emax (7 - ez + ez))) with (-46)%Z in B
    by (unfold fexp, SpecFloat.emin, prec, emax; lia).
  rewrite <- Hr in B.
  destruct (Prim2SF r) as [[]|[]| |[] mr er] eqn:Hq; try contradiction.
  - (* not a zero *)
    exfalso. destruct He as [-> | ->].
    + change (2 ^ (-46 - -47))%Z with 2%Z in B. lia.
    + change (2 ^ (-46 - -46))%Z with 1%Z in B. lia.
  - destruct B as (Be & Bl & Bu).
    destruct (finite_mantissa r _ _ _ Hq) as (_ & Nr).
    assert (Er : er = (-46)%Z).
    { destruct (Z.eq_dec er (-46)) as [Q|Q]; [exact Q|exfalso].
      assert (N : (2 ^ 52 <= Z.pos mr)%Z) by (apply Nr; lia).
      change (2 ^ 52)%Z with 4503599627370496%Z in N.
      assert (K : (2 <= 2 ^ (er - -46))%Z).
      { change 2%Z with (2 ^ 1)%Z at 1. apply Z.pow_le_mono_r; lia. }
      assert (4503599627370496 * 2 <= Z.pos mr * 2 ^ (er - -46))%Z
        by (apply Z.mul_le_mono_nonneg; lia).
      lia. }
    subst er. change (2 ^ (-46 - -46))%Z with 1%Z in Bl, Bu.
    unfold Num.Math_round. rewrite Hq.
    change (0 <=? -46)%Z with false. cbv iota.
    change (2 ^ (- -46))%Z with 70368744177664%Z.
    replace ((2 * Z.pos mr + 70368744177664) / (2 * 70368744177664))%Z
      with 100%Z; [reflexivity|].
    apply Z.div_unique with
      (r := (2 * Z.pos mr + 70368744177664 - 100 * (2 * 70368744177664))%Z);
      lia.
Qed.

(** For a float [p] from 1 to [2^1000], [p * 100 / p] rounds to 100. *)
Lemma whole_ratio (p : float) :
  (1 <=? p)%float = true -> (p <=? 0x1p1000)%float = true ->
  Num.Math_round (p * 100 / p) = 100%float.
Proof.
  intros H1 H2. rewrite leb_spec in H1, H2.
  change (Prim2SF 1) with (S754_finite false 4503599627370496 (-52)) in H1.
  change (Prim2SF 0x1p1000) with (S754_finite false 4503599627370496 948)
    in H2.
  destruct (Prim2SF p) as [s|s| |s mp ep] eqn:Hp;
    try discriminate; try (destruct s; discriminate).
  destruct s; [discriminate|].
  unfold SFleb in H1, H2. rewrite SFcompare_positive in H1, H2.
  assert (Ep : (-52 <= ep <= 948)%Z).
  { destruct (Z.compare_spec (-52) ep), (Z.compare_spec ep 948);
      try discriminate; lia. }
  clear H1 H2.
  destruct (finite_canonical p _ _ _ Hp) as (_ & _ & Dp).
  destruct (finite_mantissa p _ _ _ Hp) as (Mp & Np).
  specialize (Dp ltac:(lia)). specialize (Np ltac:(lia)).
  change (2 ^ 53)%Z with 9007199254740992%Z in Mp.
  change (2 ^ 52)%Z with 4503599627370496%Z in Np.
  (* the product *)
  set (M := Z.pos (mp * 7036874417766400)).
  set (E := (ep + -46)%Z).
  assert (Ha : Prim2SF (p * 100)
               = binary_round_aux prec emax false M E loc_Exact)
    by (now rewrite mul_spec, Hp, Prim2SF_100).
  assert (HM : (M = Z.pos mp * 7036874417766400)%Z) by reflexivity.
  assert (DM : (105 <= Zdigits2 M <= 106)%Z).
  { split.
    - apply Zdigits2_ge; [|lia].
      change (2 ^ (105 - 1))%Z
        with (4503599627370496 * 4503599627370496)%Z. lia.
    - apply Zdigits2_le; [|lia].
      change (2 ^ 106)%Z with (9007199254740992 * 9007199254740992)%Z. lia. }
  destruct (Zdigits2_bounds M ltac:(lia)) as [_ UM].
  assert (BA := binary_round_aux_between M E loc_Exact
                  ltac:(lia) ltac:(unfold E; lia) ltac:(unfold E; lia)).
  cbv zeta in BA.
  set (na := (Zdigits2 M - 53)%Z).
  assert (Hna : (na = 52 \/ na = 53)%Z) by (unfold na; lia).
  replace (Z.max E (fexp prec emax (Zdigits2 M + E))) with (E + na)%Z in BA
    by (unfold na, E, fexp, SpecFloat.emin, prec, emax; lia).
  replace (E + na - E)%Z with na in BA by lia.
  assert (Pn : (0 < 2 ^ na)%Z) by (apply Z.pow_pos_nonneg; lia).
  set (A1 := (M / 2 ^ na)%Z) in *.
  assert (HA : (A1 * 2 ^ na <= M < (A1 + 1) * 2 ^ na)%Z).
  { assert (A := Z.div_mod M (2 ^ na) ltac:(lia)).
    assert (B := Z.mod_pos_bound M (2 ^ na) Pn). fold A1 in A. lia. }
  assert (UA : (A1 < 9007199254740992)%Z).
  { replace (Zdigits2 M) with (na + 53)%Z in UM by (unfold na; lia).
    rewrite Z.pow_add_r in UM by lia.
    change (2 ^ 53)%Z with 9007199254740992%Z in UM.
    assert (A1 * 2 ^ na < 2 ^ na * 9007199254740992)%Z by lia. nia. }
  rewrite <- Ha in BA.
  destruct (Prim2SF (p * 100)) as [[]|[]| |[] ma ea] eqn:Hq;
    try contradiction.
  { exfalso.
    assert (K : (2 ^ na <= 2 ^ 53)%Z) by (apply Z.pow_le_mono_r; lia).
    change (2 ^ 53)%Z with 9007199254740992%Z in K. lia. }
  destruct BA as (Be & Bl & Bu).
  destruct (finite_canonical _ _ _ _ Hq) as (_ & _ & Da).
  destruct (finite_mantissa _ _ _ _ Hq) as (Ma & Na).
  assert (Ea : (-1074 < ea)%Z) by (unfold E in Be; lia).
  specialize (Da Ea). specialize (Na Ea).
  change (2 ^ 53)%Z with 9007199254740992%Z in Ma.
  change (2 ^ 52)%Z with 4503599627370496%Z in Na.
  set (d := (ea - (E + na))%Z) in *.
  assert (Hd : (d = 0 \/ d = 1)%Z).
  { destruct (Z.le_gt_cases d 1) as [Q|Q]; [lia|exfalso].
    assert (K : (2 ^ 2 <= 2 ^ d)%Z) by (apply Z.pow_le_mono_r; lia).
    change (2 ^ 2)%Z with 4%Z in K.
    assert (4503599627370496 * 4 <= Z.pos ma * 2 ^ d)%Z
      by (apply Z.mul_le_mono_nonneg; lia).
    lia. }
  (* the quotient *)
  assert (Hr : Prim2SF (p * 100 / p)
               = let '(mz, ez, lz) :=
                   SFdiv_core_binary prec emax (Z.pos ma) ea (Z.pos mp) ep in
                 binary_round_aux prec emax false mz ez lz)
    by (now rewrite div_spec, Hq, Hp).
  assert (F := SFdiv_core_floor ma mp ea ep). rewrite Da, Dp in F.
  destruct (SFdiv_core_binary prec emax (Z.pos ma) ea (Z.pos mp) ep)
    as [[mz ez] lz].
  destruct F as (Fe & Fq).
  assert (Ez : (ez = na + d - 99)%Z)
    by (rewrite Fe; unfold d, E, fexp, SpecFloat.emin, prec, emax; lia).
  replace (ea - ep - ez)%Z with 53%Z in Fq by (unfold d, E in *; lia).
  change (2 ^ 53)%Z with 9007199254740992%Z in Fq.
  rewrite HM in HA.
  destruct (whole_ratio_arith (Z.pos mp) (Z.pos ma) mz A1 na d
              ltac:(lia) ltac:(lia) Hna Hd HA (conj Bl Bu) Fq) as (Hk & Hz).
  apply (round_to_100 _ mz ez lz Hr); [lia|].
  now replace (- ez)%Z with (99 - na - d)%Z by lia.
Qed.

(** X15.  A rectangle or a square that is as wide and as high as the canvas
    has an area of 100 percent, on every canvas whose area is a number from
    1 to [2^1000]: the two roundings of [w * h * 100 / (w * h)] stay within
    half a percent. *)
Theorem getArea_whole_canvas :
  forall (Math_cos Math_sin : float -> float) (args : list jsval)
         (w h : float),
    num (get args 2) = w -> num (get args 3) = h ->
    (1 <=? w * h)%float = true -> (w * h <=? 0x1p1000)%float = true ->
    _getArea Math_cos Math_sin rectangle args w h = 100%float
    /\ _getArea Math_cos Math_sin square args w h = 100%float.
Proof.
  intros Math_cos Math_sin args w h Hw Hh H1 H2.
  unfold _getArea. rewrite Hw, Hh.
  split; now apply whole_ratio.
Qed.

(** ** Instances *)

(** Two rectangles of 50 by 20 at (10,10) on a canvas of 100 by 100 leave
    one record; a third one, drawn after the fill colour became red, adds
    a second record. *)
Lemma accsOutput_deduplicates_rectangles :
  let args := [JNum 10; JNum 10; JNum 50; JNum 20] in
  let red := mkRgba 7 [255; 0; 0; 255]%float in
  let draw := _accsOutput no_trig no_trig example_dist rectangle args in
  let record c :=
    [ ("color", PStr c); ("area", PNum 10); ("pos", PStr "top left");
      ("loc", PLoc {| locX := 3; locY := 2 |}) ] in
  lookup rectangle
         (shapes (ingredients (draw (draw (example_sketch 100 100)))))
  = Some [record "white"]
  /\ lookup rectangle
       (shapes (ingredients
          (draw (_accsCanvasColors example_name "fill" red
                   (draw (draw (example_sketch 100 100)))))))
     = Some [record "white"; record "red"].
Proof.
  apply (proj2 (proj2 (proj2 (proj2 (proj2 (proj2
           (accsOutput_deduplicates no_trig no_trig example_dist
                                    example_name)))))))
    with (this := example_sketch 100 100)
         (args := [JNum 10; JNum 10; JNum 50; JNum 20])
         (newfill := mkRgba 7 [255; 0; 0; 255]%float).
  - reflexivity.
  - reflexivity.
  - reflexivity.
  - discriminate.
Defined.

(** An ellipse and a rectangle of 20 by 20 are recorded as a circle and a
    square. *)
Lemma accsOutput_reclassifies_equal_sizes :
  let args := [JNum 10; JNum 10; JNum 20; JNum 20] in
  let this := example_sketch 100 100 in
  let record area :=
    [ ("color", PStr "white"); ("area", PNum area); ("pos", PStr "top left");
      ("loc", PLoc {| locX := 2; locY := 2 |}) ] in
  strict_eq (get args 2) (get args 3) = true
  /\ shapes (ingredients (_accsOutput no_trig no_trig example_dist
                                      ellipse args this))
     = [(circle, [record 3%float])]
  /\ shapes (ingredients (_accsOutput no_trig no_trig example_dist
                                      rectangle args this))
     = [(square, [record 4%float])].
Proof.
  split; [reflexivity|].
  destruct (accsOutput_reclassifies no_trig no_trig example_dist
              (example_sketch 100 100)
              [JNum 10; JNum 10; JNum 20; JNum 20] eq_refl)
    as [[_ [He _]] [_ [Hr _]]].
  split; [rewrite He | rewrite Hr]; reflexivity.
Defined.

(** The middle (35,20) of a rectangle of 50 by 20 at (10,10) lies on a
    canvas of 100 by 100, and its cell is (3,2). *)
Lemma accsOutput_grid_cell_rectangle :
  let args := [JNum 10; JNum 10; JNum 50; JNum 20] in
  let this := example_sketch 100 100 in
  let l := _canvasLocator (_getMiddle rectangle args) 100 100 in
  prop "loc" (describe no_trig no_trig example_dist rectangle args this)
  = Some (PLoc l)
  /\ l = {| locX := 3; locY := 2 |}
  /\ in_grid l = true.
Proof.
  destruct (proj1 accsOutput_grid_cell no_trig no_trig example_dist
              (example_sketch 100 100) rectangle
              [JNum 10; JNum 10; JNum 50; JNum 20])
    as (L & _ & _ & G).
  split; [exact L|]. split; [reflexivity|].
  apply G; reflexivity.
Defined.

(** A frame that sets the fill colour to red and draws a rectangle on the
    empty canvas regenerates the text and the grid output. *)
Lemma frame_regenerates_rectangle :
  let red := mkRgba 7 [255; 0; 0; 255]%float in
  let black := mkRgba 8 [0; 0; 0; 255]%float in
  let cs := [CanvasColors "fill" red;
             Output rectangle [JNum 10; JNum 10; JNum 50; JNum 20]] in
  forallb is_painting cs = true
  /\ regenerated (frame no_trig no_trig example_dist example_name black cs
                        (example_sketch 100 100))
     = [TextOutput "defaultCanvas0textOutput";
        GridOutput "defaultCanvas0gridOutput"].
Proof.
  split; [reflexivity|].
  destruct (frame_regenerates no_trig no_trig example_dist example_name
              (mkRgba 8 [0; 0; 0; 255]%float)
              [CanvasColors "fill" (mkRgba 7 [255; 0; 0; 255]%float);
               Output rectangle [JNum 10; JNum 10; JNum 50; JNum 20]]
              (example_sketch 100 100) eq_refl) as (_ & _ & R & _).
  rewrite R. reflexivity.
Defined.

(** On a canvas of 100 by 100 the middle (100, 50) lies on the right edge:
    its column index is computed as 10 and replaced by 9, and its cell is
    (9, 5). *)
Lemma canvasLocator_edge_right :
  (100 <=? 100)%float = true
  /\ (Num.Math_floor (100 / 100 * 10) =? 10)%float = true
  /\ _canvasLocator (100, 50)%float 100 100 = {| locX := 9; locY := 5 |}
  /\ in_grid (_canvasLocator (100, 50)%float 100 100) = true.
Proof.
  destruct (canvasLocator_edge 100 50 100 100
              eq_refl eq_refl eq_refl eq_refl eq_refl eq_refl eq_refl eq_refl)
    as (Ex & _ & L & G).
  split; [reflexivity|]. split; [exact Ex|]. split; [|exact G].
  rewrite L. reflexivity.
Defined.

(** With a palette that calls every colour white, a fill call with a new
    array between two rectangles of the same size and place leaves one
    record. *)
Lemma same_name_same_record_white :
  let white := fun _ : rgba => "white" in
  let newc := mkRgba 9 [254; 254; 254; 255]%float in
  let args := [JNum 10; JNum 10; JNum 50; JNum 20] in
  let this := example_sketch 100 100 in
  let draw := _accsOutput no_trig no_trig example_dist rectangle args in
  white newc = fill (colors (ingredients this))
  /\ shapes (ingredients (draw (_accsCanvasColors white "fill" newc
                                  (draw this))))
     = shapes (ingredients (draw this)).
Proof.
  split; [reflexivity|].
  refine (proj2 (same_name_same_record no_trig no_trig example_dist
                   (fun _ : rgba => "white") "fill"
                   (mkRgba 9 [254; 254; 254; 255]%float)
                   (example_sketch 100 100) _)
                rectangle [JNum 10; JNum 10; JNum 50; JNum 20]).
  split; intro H; [reflexivity|discriminate H].
Defined.

(** A rectangle of 700 by 410 on the canvas of 700 by 410 that the
    package's test sketch creates has an area of 100 percent. *)
Lemma getArea_whole_canvas_700_410 :
  let args := [JNum 0; JNum 0; JNum 700; JNum 410] in
  (1 <=? 700 * 410)%float = true
  /\ (700 * 410 <=? 0x1p1000)%float = true
  /\ _getArea no_trig no_trig rectangle args 700 410 = 100%float.
Proof.
  split; [reflexivity|]. split; [reflexivity|].
  apply (proj1 (getArea_whole_canvas no_trig no_trig
                  [JNum 0; JNum 0; JNum 700; JNum 410] 700 410
                  eq_refl eq_refl eq_refl eq_refl)).
Defined.
